(** * Hazard Analysis audits: an embedding of [hazardAnalysisAudits.js]

    The module audits the "Hazard Analysis" sub-task of a Jira issue.  It is
    embedded here in three layers:

    - [JsRegExp]: the fragment of ECMAScript regular expressions that the
      module's patterns use (flags [g], [i], [m], [s]), as a backtracking
      matcher over UTF-16 code units, with [String.prototype.match],
      [String.prototype.replace] and [RegExp.prototype.test];
    - the data model ([Issue], [AuditDetails]) and the collaborators the
      module calls ([jiraHelpers], [subTaskAudits], [commonAudits]);
    - the six exported functions, written in a small monad that records every
      collaborator call in a trace. *)

From Stdlib Require Import NArith ZArith String Ascii Bool Lia Arith List.
Import ListNotations.

(* ================================================================== *)
(** ** JavaScript strings *)
(* ================================================================== *)

(** A JavaScript string is a sequence of UTF-16 code units. *)
Abbreviation char16 := N (only parsing).
Abbreviation jsstring := (list N) (only parsing).

Definition codeUnits (s : string) : jsstring :=
  map N_of_ascii (list_ascii_of_string s).

(** [Array.prototype.toString] on an array of strings: [join(",")]. *)
Fixpoint arrayToString (a : list jsstring) : jsstring :=
  match a with
  | [] => []
  | [x] => x
  | x :: rest => x ++ 44%N :: arrayToString rest
  end.

Module JsRegExp.

#[local] Open Scope N_scope.

(** [Canonicalize] for a pattern without the [u] flag and with the [i]
    flag, restricted to what decides a comparison against an ASCII
    pattern character: ASCII lower-case letters fold to upper case; a
    code unit of 128 or more never canonicalizes to an ASCII one. *)
Definition canon (c : char16) : char16 :=
  if (97 <=? c) && (c <=? 122) then c - 32 else c.

(** [\w] is [[A-Za-z0-9_]]. *)
Definition isWord (c : char16) : bool :=
  ((48 <=? c) && (c <=? 57)) || ((65 <=? c) && (c <=? 90))
  || ((97 <=? c) && (c <=? 122)) || (c =? 95).

(** [\s]: WhiteSpace and LineTerminator code points. *)
Definition isSpace (c : char16) : bool :=
  ((9 <=? c) && (c <=? 13)) || (c =? 32) || (c =? 160) || (c =? 5760)
  || ((8192 <=? c) && (c <=? 8202)) || (c =? 8232) || (c =? 8233)
  || (c =? 8239) || (c =? 8287) || (c =? 12288) || (c =? 65279).

(** One-character atoms. *)
Inductive cls :=
| CChar (c : char16)        (* a pattern character, under [i] *)
| CAny                      (* [.] under [s] *)
| CNotWord                  (* [\W] *)
| CSpace                    (* [\s] *)
| CNotSpace.                (* [\S] *)

Definition inCls (a : cls) (c : char16) : bool :=
  match a with
  | CChar p => canon p =? canon c
  | CAny => true
  | CNotWord => negb (isWord c)
  | CSpace => isSpace c
  | CNotSpace => negb (isSpace c)
  end.

(** The patterns of the module quantify one-character atoms only. *)
Inductive regex :=
| RLit (l : jsstring)       (* a run of pattern characters *)
| ROpt (a : cls)            (* [a?]  *)
| RStar (a : cls)           (* [a*]  *)
| RPlus (a : cls)           (* [a+]  *)
| RPlusLazy (a : cls)       (* [a+?] *)
| RSeq (r1 r2 : regex)
| RAlt (r1 r2 : regex)
| RGroup (r : regex).       (* capture group 1 *)

(** Does the literal [l] match at the start of [s], ignoring case? *)
Fixpoint prefixCI (l s : jsstring) : bool :=
  match l, s with
  | [], _ => true
  | _ :: _, [] => false
  | p :: l', c :: s' => (canon p =? canon c) && prefixCI l' s'
  end.

(** A matcher state: the input still to read and capture 1. *)
Definition mstate := (jsstring * option jsstring)%type.

(** Greedy star: the candidates, longest first. *)
Fixpoint star (a : cls) (s : jsstring) : list jsstring :=
  match s with
  | c :: s' => if inCls a c then star a s' ++ [s] else [s]
  | [] => [[]]
  end.

(** Lazy plus: the candidates, shortest first. *)
Fixpoint plusLazy (a : cls) (s : jsstring) : list jsstring :=
  match s with
  | c :: s' => if inCls a c then s' :: plusLazy a s' else []
  | [] => []
  end.

(** The backtracking matcher as a list of successes, in the order in
    which ECMAScript's matcher tries them: the head of the list is the
    match that [RegExpBuiltinExec] reports at this position. *)
Fixpoint run (r : regex) (s : jsstring) (cap : option jsstring)
  : list mstate :=
  match r with
  | RLit l => if prefixCI l s then [(skipn (length l) s, cap)] else []
  | ROpt a =>
      match s with
      | c :: s' => if inCls a c then [(s', cap); (s, cap)] else [(s, cap)]
      | [] => [(s, cap)]
      end
  | RStar a => map (fun t => (t, cap)) (star a s)
  | RPlus a =>
      match s with
      | c :: s' => if inCls a c then map (fun t => (t, cap)) (star a s')
                   else []
      | [] => []
      end
  | RPlusLazy a => map (fun t => (t, cap)) (plusLazy a s)
  | RSeq r1 r2 => flat_map (fun st => run r2 (fst st) (snd st)) (run r1 s cap)
  | RAlt r1 r2 => run r1 s cap ++ run r2 s cap
  | RGroup r1 =>
      map (fun st => (fst st,
                      Some (firstn (length s - length (fst st))%nat s)))
          (run r1 s cap)
  end.

(** The match starting exactly at the head of [s], if any. *)
Definition exec (r : regex) (s : jsstring) : option mstate :=
  hd_error (run r s None).

(** A left-to-right pass over the subject, as the [g] flag makes
    [match] and [replace] do: a code unit outside every match is kept,
    a match is a hit with its text and its capture.  [skip] counts the
    code units of the current match still to pass over.  An empty match
    advances the position by one, keeping the code unit. *)
Inductive seg :=
| Keep (c : char16)
| Hit (text : jsstring) (cap : option jsstring).

Fixpoint scan (r : regex) (s : jsstring) (skip : nat) : list seg :=
  match skip with
  | S k => match s with
           | [] => []
           | _ :: s' => scan r s' k
           end
  | O =>
      match exec r s with
      | Some (rest, cap) =>
          let m := (length s - length rest)%nat in
          Hit (firstn m s) cap ::
            match s with
            | [] => []
            | c :: s' =>
                (if Nat.eqb m 0 then [Keep c] else []) ++ scan r s' (m - 1)
            end
      | None =>
          match s with
          | [] => []
          | c :: s' => Keep c :: scan r s' 0
          end
      end
  end.

Definition hits (l : list seg) : list jsstring :=
  flat_map (fun g => match g with Keep _ => [] | Hit t _ => [t] end) l.

(** [str.match(re)] for a global [re]: every match's text, or [null]. *)
Definition jsMatch (r : regex) (s : jsstring) : option (list jsstring) :=
  match hits (scan r s 0) with
  | [] => None
  | h => Some h
  end.

(** [str.replace(re, '$1')] for a global [re] that has a group 1; a
    group that did not take part is replaced by the empty string. *)
Definition replaceGroup1 (r : regex) (s : jsstring) : jsstring :=
  flat_map (fun g => match g with
                     | Keep c => [c]
                     | Hit _ (Some x) => x
                     | Hit _ None => []
                     end) (scan r s 0).

(** [str.replace(re, "")] for a global [re]. *)
Definition replaceEmpty (r : regex) (s : jsstring) : jsstring :=
  flat_map (fun g => match g with Keep c => [c] | Hit _ _ => [] end)
           (scan r s 0).

(** [re.test(str)] for a [re] without the [g] flag: is there a match at
    some position? *)
Fixpoint test (r : regex) (s : jsstring) : bool :=
  match exec r s with
  | Some _ => true
  | None => match s with
            | [] => false
            | _ :: s' => test r s'
            end
  end.

End JsRegExp.

Import JsRegExp.

(* ================================================================== *)
(** ** The patterns of [hazardAnalysisComplete] *)
(* ================================================================== *)

Definition lit (s : string) : regex := RLit (codeUnits s).
Definition chr (s : string) : cls :=
  match codeUnits s with c :: _ => CChar c | [] => CAny end.

Infix ";;;" := RSeq (at level 61, right associativity).

(** [/Financial\:\*?(.+?[>]?)\W*Legal\/Regulatory/gims] *)
Definition financialRegex : regex :=
  lit "Financial:" ;;; ROpt (chr "*") ;;;
  RGroup (RPlusLazy CAny ;;; ROpt (chr ">")) ;;;
  RStar CNotWord ;;; lit "Legal/Regulatory".

(** [/Legal\/Regulatory\:\*?(.+?[>]?)\W*Data Integrity/gims] *)
Definition legalRegex : regex :=
  lit "Legal/Regulatory:" ;;; ROpt (chr "*") ;;;
  RGroup (RPlusLazy CAny ;;; ROpt (chr ">")) ;;;
  RStar CNotWord ;;; lit "Data Integrity".

(** [/Data Integrity\:\*?(.+?[>]?)\W*Patient Safety/gmis] *)
Definition dataRegex : regex :=
  lit "Data Integrity:" ;;; ROpt (chr "*") ;;;
  RGroup (RPlusLazy CAny ;;; ROpt (chr ">")) ;;;
  RStar CNotWord ;;; lit "Patient Safety".

(** [/Patient Safety\:\*?(.+?[>]?)\W*CyberSecurity\/Information Security/gmis] *)
Definition patientRegex : regex :=
  lit "Patient Safety:" ;;; ROpt (chr "*") ;;;
  RGroup (RPlusLazy CAny ;;; ROpt (chr ">")) ;;;
  RStar CNotWord ;;; lit "CyberSecurity/Information Security".

(** [/CyberSecurity\/Information Security\:(.+)/gims] *)
Definition cyberSecurityRegex : regex :=
  lit "CyberSecurity/Information Security:" ;;; RGroup (RPlus CAny).

(** [/\s*\<yes or no\. if yes, explain why\>|\<yes\/no\>\s*/gims] *)
Definition yesNoRegex : regex :=
  RAlt (RStar CSpace ;;; lit "<yes or no. if yes, explain why>")
       (lit "<yes/no>" ;;; RStar CSpace).

(** [/(\S+)/im] *)
Definition fillCheckRegex : regex := RGroup (RPlus CNotSpace).

(** [/\**\s*Engineer.+/gims], built in place in the last block. *)
Definition engineerRegex : regex :=
  RStar (chr "*") ;;; RStar CSpace ;;; lit "Engineer" ;;; RPlus CAny.

(* ================================================================== *)
(** ** Data model *)
(* ================================================================== *)

(** The value of [issue.fields.resolutiondate] as the tracker delivers it:
    [null] for an unresolved issue, absent when the field was not
    requested, or a timestamp text, kept with what [Date.parse] makes of it
    (milliseconds since the epoch, [None] for an unparseable text). *)
Inductive DateField :=
| DateNull
| DateUndefined
| DateText (parsed : option Z).

(** An issue link; the module hands links to [jiraHelpers] unread. *)
Record IssueLink := {
  linkTypeName : string;
  linkedIssueKey : string
}.

(** An issue or sub-task snapshot.  The module itself reads
    [resolutiondate], [resolution.name], [description] and [issuelinks];
    everything else is read by the collaborators, which receive the whole
    issue.

    [description] holds a description that is a string.  The tracker delivers
    [null] for an issue whose description was left empty; on such an issue
    [hazardAnalysisComplete] throws a TypeError at its first
    [descriptionBody.match] and its promise is never settled.  That input is
    not part of the model: what is stated about [hazardAnalysisComplete]
    below is stated about sub-tasks whose description is a string. *)
Record Issue := {
  key : string;
  issuetype : string;
  labels : list string;
  resolutiondate : DateField;
  resolution : option string;          (* [resolution.name]; [None]: null *)
  description : jsstring;
  issuelinks : list IssueLink
}.

(** Modelled from the spec: the [AuditDetails] class (required from
    [../AuditDetails], not part of this module): a name, the audited issue,
    a pass flag, a detail text and the results added to it.  [None] for the
    flag or the text means that nothing assigned it after construction. *)
#[local] Unset Elimination Schemes.
Inductive AuditDetails :=
| MkAuditDetails (auditName : string) (auditIssue : Issue)
                 (passFlag : option bool) (detailText : option string)
                 (auditResults : list AuditDetails).
#[local] Set Elimination Schemes.

Definition auditName (d : AuditDetails) : string :=
  match d with MkAuditDetails n _ _ _ _ => n end.
Definition auditIssue (d : AuditDetails) : Issue :=
  match d with MkAuditDetails _ i _ _ _ => i end.
Definition passFlag (d : AuditDetails) : option bool :=
  match d with MkAuditDetails _ _ p _ _ => p end.
Definition detailText (d : AuditDetails) : option string :=
  match d with MkAuditDetails _ _ _ t _ => t end.
Definition auditResults (d : AuditDetails) : list AuditDetails :=
  match d with MkAuditDetails _ _ _ _ r => r end.

(** [new AuditDetails(name, issue)] *)
Definition newAuditDetails (name : string) (issue : Issue) : AuditDetails :=
  MkAuditDetails name issue None None [].

(** The assignments [d.auditPassing = b] and [d.auditDetails = t]. *)
Definition setPassing (b : bool) (d : AuditDetails) : AuditDetails :=
  match d with MkAuditDetails n i _ t r => MkAuditDetails n i (Some b) t r end.
Definition setDetails (t : string) (d : AuditDetails) : AuditDetails :=
  match d with MkAuditDetails n i p _ r => MkAuditDetails n i p (Some t) r end.

(** Modelled from the spec: [addAuditResults] of the absent [AuditDetails]
    class, which takes one result or an array of them: the results become
    members of the aggregate. *)
Definition addAuditResults (rs : list AuditDetails) (d : AuditDetails)
  : AuditDetails :=
  match d with
  | MkAuditDetails n i p t r => MkAuditDetails n i p t (r ++ rs)
  end.

(** Modelled from the spec: reading [d.auditPassing] of the absent
    [AuditDetails] class.  A fresh result is pass-shaped until a check marks
    it, and an aggregate passes iff every member passes. *)
Fixpoint auditPassing (d : AuditDetails) : bool :=
  match d with
  | MkAuditDetails _ _ p _ rs =>
      match p with Some b => b | None => true end
      && (fix all (l : list AuditDetails) : bool :=
            match l with
            | [] => true
            | x :: l' => auditPassing x && all l'
            end) rs
  end.

(** The five questions of the Hazard Analysis template, in order. *)
Inductive Question :=
| Financial | LegalRegulatory | DataIntegrity | PatientSafety | CyberSecurity.

(* ================================================================== *)
(** ** Collaborators and effects *)
(* ================================================================== *)

(** What the module requires: [auditHelpers] (constants), [jiraHelpers],
    [subTaskAudits], [commonAudits]. *)
Record Collaborators := {
  HAZARD_ANALYSIS : string;            (* SUBTASK_NAMES.HAZARD_ANALYSIS *)
  IGNORE_HAZARD_ANALYSIS : string;     (* IGNORE_AUDIT_LABELS.HAZARD_ANALYSIS *)
  getSubTaskByName : Issue -> string -> option Issue;
  issueContainsAnyLabel : Issue -> list string -> bool;
  issueHasNoWorkNeededResolution : Issue -> bool;
  isSubtaskLinkOfType : IssueLink -> string -> bool;
  (** fails with a fetch error when the target is inaccessible *)
  getIssueFromLink : IssueLink -> option Issue;
  findPlusOneComments : Issue -> list string;
  generateAuditCommentText : AuditDetails -> string;
  subTaskClosed : Issue -> AuditDetails;
  isAssigneeIndicated : Issue -> AuditDetails
}.

(** Every call that leaves the module and can have an effect, with its
    arguments as they are at the time of the call; [MatchDescription q]
    marks the evaluation of [descriptionBody.match] for question [q]. *)
Inductive Event :=
| PostIssueAuditFailureComment (target : Issue) (audit : AuditDetails)
                               (distinguishSubtask : option bool)
| RemoveIssueAuditFailureComment (target : Issue) (audit : AuditDetails)
| RemoveIssueAuditFailureCommentByName (target : Issue) (name : string)
| HandlePassFailAuditResults (target : Issue) (audit : AuditDetails)
| GetIssueFromLink (link : IssueLink)
| SubTaskClosed (subTask : Issue)
| IsAssigneeIndicated (issue : Issue)
| MatchDescription (q : Question).

(** An asynchronous computation: the trace of its calls, and its result,
    [None] when an exception was thrown (the promise of the enclosing
    function then never resolves).  The exceptions of the model are those
    that the module raises by itself (reading [name] of a [null] resolution,
    evaluating a name that is not bound) and the fetch error of
    [getIssueFromLink]. *)
Definition M (A : Type) : Type := (list Event * option A)%type.

Definition ret {A} (a : A) : M A := ([], Some a).
Definition throw {A} : M A := ([], None).
Definition emit (e : Event) : M unit := ([e], Some tt).
Definition bind {A B} (m : M A) (f : A -> M B) : M B :=
  match m with
  | (t, Some a) => let (t', r) := f a in (t ++ t', r)
  | (t, None) => (t, None)
  end.

Notation "x <- m ;; k" := (bind m (fun x => k))
  (at level 100, m at next level, right associativity).
Notation "m ;; k" := (bind m (fun _ => k))
  (at level 100, right associativity).

Definition traceOf {A} (m : M A) : list Event := fst m.
Definition resultOf {A} (m : M A) : option A := snd m.

(* ================================================================== *)
(** ** Dates *)
(* ================================================================== *)

(** [new Date(v)]: the time value, [None] for an Invalid Date.  [null]
    converts to the number 0, [undefined] to NaN. *)
Definition newDate (v : DateField) : option Z :=
  match v with
  | DateNull => Some 0%Z
  | DateUndefined => None
  | DateText parsed => parsed
  end.

(** Days from 1970-01-01 to a civil date of the proleptic Gregorian
    calendar, and the time value of a date-only text, which is UTC
    midnight. *)
Definition daysFromCivil (y m d : Z) : Z :=
  let y' := if (m <=? 2)%Z then (y - 1)%Z else y in
  let era := (y' / 400)%Z in
  let yoe := (y' - era * 400)%Z in
  let mp := if (m <=? 2)%Z then (m + 9)%Z else (m - 3)%Z in
  let doy := ((153 * mp + 2) / 5 + d - 1)%Z in
  let doe := (yoe * 365 + yoe / 4 - yoe / 100 + doy)%Z in
  (era * 146097 + doe - 719468)%Z.

Definition dateOnly (y m d : Z) : option Z :=
  Some (daysFromCivil y m d * 86400000)%Z.

(** [a < b] on two Date objects: a comparison of time values, false as
    soon as one of them is NaN. *)
Definition dateLt (a b : option Z) : bool :=
  match a, b with
  | Some x, Some y => (x <? y)%Z
  | _, _ => false
  end.

(** [new Date("2019-04-22")] *)
Definition introductionDate : option Z := dateOnly 2019 4 22.

(* ================================================================== *)
(** ** The module *)
(* ================================================================== *)

Open Scope string_scope.

Definition newline : string := String (ascii_of_nat 10) "".

Definition templateLink : string :=
  "https://jira2.cerner.com/browse/MPAGESCORE-30188".

(** The tail shared by the five template-mismatch texts; the template
    literal in the source runs over a line break. *)
Definition mismatchTail : string :=
  " description does not match expected description for Hazard Analysis. You can copy the description directly from the Perform Hazard Analysis "
  ++ newline
  ++ "            sub-task found in the Story and Defect template; please clone Jira stories from the [Story and Defect template|"
  ++ templateLink ++ "]".

(** The effects of [jiraHelpers].  Each returns a promise, which the module
    awaits (the pass/fail handler of the no-work-needed branch apart, whose
    promise it drops).  The model is of the runs in which these promises
    resolve: the call is recorded and the computation goes on.  A call that
    the tracker rejects would leave the awaiting run unsettled after the
    call; nothing below is about such a run. *)
Definition postIssueAuditFailureComment (target : Issue) (a : AuditDetails)
  (distinguishSubtask : option bool) : M unit :=
  emit (PostIssueAuditFailureComment target a distinguishSubtask).
Definition removeIssueAuditFailureComment (target : Issue) (a : AuditDetails)
  : M unit :=
  emit (RemoveIssueAuditFailureComment target a).
Definition removeIssueAuditFailureCommentByName (target : Issue)
  (name : string) : M unit :=
  emit (RemoveIssueAuditFailureCommentByName target name).
Definition handlePassFailAuditResults (target : Issue) (a : AuditDetails)
  : M unit :=
  emit (HandlePassFailAuditResults target a).

(** [issue.fields.resolution.name]: a TypeError when the resolution is
    [null]. *)
Definition resolutionName (i : Issue) : M string :=
  match resolution i with
  | Some n => ret n
  | None => throw
  end.

(** One block of [hazardAnalysisComplete]: the slice of the description
    for one question is matched, reduced to its answer and tested.
    [strip] is the extra replacement of the last block, the identity in the
    others; [next] is the rest of the function. *)
Definition answerLeft (re : regex) (strip : jsstring -> jsstring)
  (tempStr : list jsstring) : jsstring :=
  replaceEmpty yesNoRegex (strip (replaceGroup1 re (arrayToString tempStr))).

Definition questionBlock (q : Question) (re : regex)
  (strip : jsstring -> jsstring) (mismatch unanswered : string)
  (issue : Issue) (hazardAnalysisComplete : AuditDetails)
  (next : M AuditDetails) : M AuditDetails :=
  emit (MatchDescription q) ;;
  match jsMatch re (description issue) with
  | None =>
      ret (setPassing false (setDetails mismatch hazardAnalysisComplete))
  | Some tempStr =>
      if negb (test fillCheckRegex (answerLeft re strip tempStr)) then
        let failed :=
          setPassing false (setDetails unanswered hazardAnalysisComplete) in
        postIssueAuditFailureComment issue failed (Some true) ;;
        ret failed
      else next
  end.

Definition hazardAnalysisComplete (issue : Issue) : M AuditDetails :=
  let hazardAnalysisComplete := newAuditDetails "Hazard Analysis Completed" issue in
  questionBlock Financial financialRegex (fun s => s)
    ("Financial" ++ mismatchTail)
    "The financial question of the Hazard analysis must be answered."
    issue hazardAnalysisComplete
 (questionBlock LegalRegulatory legalRegex (fun s => s)
    ("Legal/Regulatory" ++ mismatchTail)
    "The legal/regulatory question of the Hazard analysis must be answered."
    issue hazardAnalysisComplete
 (questionBlock DataIntegrity dataRegex (fun s => s)
    ("Data Integrity" ++ mismatchTail)
    "The data integrity question of the Hazard analysis must be answered."
    issue hazardAnalysisComplete
 (questionBlock PatientSafety patientRegex (fun s => s)
    ("Patient Safety" ++ mismatchTail)
    "The patient safety question of the Hazard analysis must be answered."
    issue hazardAnalysisComplete
 (questionBlock CyberSecurity cyberSecurityRegex (replaceEmpty engineerRegex)
    ("CyberSecurity/Information" ++ mismatchTail)
    "The cybersecurity/information question of the Hazard analysis must be answered."
    issue hazardAnalysisComplete
 (let passed :=
    setPassing true
      (setDetails "Hazard analysis has been completed for this sub-task."
                  hazardAnalysisComplete) in
  removeIssueAuditFailureComment issue passed ;;
  ret passed))))).

Section Audits.

Variable E : Collaborators.

Definition issueHasHazardAnalysisSubTask (issue : Issue) : M AuditDetails :=
  let issueHasHazardAnalysisTask :=
    newAuditDetails "Issue Requires A Hazard Analysis Sub-Task" issue in
  match getSubTaskByName E issue (HAZARD_ANALYSIS E) with
  | None =>
      let failed :=
        setPassing false
          (setDetails
             ("A Hazard Analysis sub-task is required for all stories; please clone Jira stories from the [Story and Defect template|"
              ++ templateLink ++ "].")
             issueHasHazardAnalysisTask) in
      postIssueAuditFailureComment issue failed None ;;
      ret failed
  | Some _ =>
      let passed :=
        setPassing true
          (setDetails "Hazard Analysis sub-task is required and present"
                      issueHasHazardAnalysisTask) in
      removeIssueAuditFailureComment issue passed ;;
      ret passed
  end.

Definition isNoWorkNeededResolutionValid (parentIssue subTask : Issue)
  : M (option AuditDetails) :=
  let noWorkNeededValid :=
    newAuditDetails "Hazard Analysis No Work Needed Resolution Validation"
                    subTask in
  if negb (issueHasNoWorkNeededResolution E subTask) then
    removeIssueAuditFailureComment subTask noWorkNeededValid ;;
    ret None
  else if issueHasNoWorkNeededResolution E parentIssue then
    subName <- resolutionName subTask ;;
    parentName <- resolutionName parentIssue ;;
    let passed :=
      setPassing true
        (setDetails
           ("Hazard analysis resolution of " ++ subName
            ++ " is valid since the parent issue was closed with a "
            ++ parentName ++ " resolution.")
           noWorkNeededValid) in
    removeIssueAuditFailureComment subTask passed ;;
    ret (Some passed)
  else
    let failed :=
      setPassing false
        (setDetails
           ("Hazard analysis is required for all stories.  It is not valid to close this sub-task as not needing any work.  If the "
            ++ "hazard analysis has been created under another Hazard Analysis sub-task, please link directly to that sub-task via a _JIRA Issue_ link so it can be audited.")
           noWorkNeededValid) in
    postIssueAuditFailureComment subTask failed None ;;
    ret (Some failed).

Definition hazardAnalysisReviewed (issue : Issue) : M AuditDetails :=
  let hazardAnalysisReviewed :=
    newAuditDetails "Hazard Analysis Reviewed" issue in
  let plusOneComments := findPlusOneComments E issue in
  if Nat.eqb (List.length plusOneComments) 0 then
    let failed :=
      setPassing false
        (setDetails
           "Hazard Analysis must receive a '+1' comment from a reviewer other than the author before the sub-task can be closed."
           hazardAnalysisReviewed) in
    postIssueAuditFailureComment issue failed None ;;
    ret failed
  else
    let passed :=
      setPassing true
        (setDetails
           "Hazard Analysis has received a '+1' comment from a reviewer other than the author."
           hazardAnalysisReviewed) in
    removeIssueAuditFailureComment issue passed ;;
    ret passed.

Definition cleanseSubTaskAudits (issue : Issue) : M AuditDetails :=
  let cleanseSubTask :=
    setDetails
      "All audit comments and labels will be removed from this sub-task"
      (newAuditDetails "Hazard Analysis Sub-Task Cleanse" issue) in
  match getSubTaskByName E issue (HAZARD_ANALYSIS E) with
  | Some subTask =>
      handlePassFailAuditResults subTask cleanseSubTask ;;
      ret cleanseSubTask
  | None =>
      removeIssueAuditFailureCommentByName issue
        "Issue Requires A Hazard Analysis Sub-Task" ;;
      ret cleanseSubTask
  end.

(** The awaited calls into [subTaskAudits], [commonAudits] and
    [jiraHelpers] that hand a value back. *)
Definition callSubTaskClosed (subTask : Issue) : M AuditDetails :=
  emit (SubTaskClosed subTask) ;; ret (subTaskClosed E subTask).
Definition callIsAssigneeIndicated (issue : Issue) : M AuditDetails :=
  emit (IsAssigneeIndicated issue) ;; ret (isAssigneeIndicated E issue).
Definition callGetIssueFromLink (link : IssueLink) : M Issue :=
  emit (GetIssueFromLink link) ;;
  match getIssueFromLink E link with
  | Some target => ret target
  | None => throw
  end.

(** [issueHasOneSubTaskLink(defineHazardAnalysis)]: the module neither
    declares this name nor requires it from a collaborator, so that its
    evaluation throws a ReferenceError before anything is called.  The
    exception is raised inside the async executor of
    [runHazardAnalysisAudits], whose promise is then never settled. *)
Definition issueHasOneSubTaskLink (subTask : Issue) : M AuditDetails :=
  throw.

(** "Perform the core audits for this sub-task": the results are pushed
    on [allAuditResults]. *)
Definition coreAudits (defineHazardAnalysis : Issue)
  (allAuditResults : list AuditDetails) : M (list AuditDetails) :=
  assignee <- callIsAssigneeIndicated defineHazardAnalysis ;;
  let allAuditResults := (allAuditResults ++ [assignee])%list in
  auditDetail <- hazardAnalysisComplete defineHazardAnalysis ;;
  let allAuditResults := (allAuditResults ++ [auditDetail])%list in
  if auditPassing auditDetail then
    reviewed <- hazardAnalysisReviewed defineHazardAnalysis ;;
    ret (allAuditResults ++ [reviewed])%list
  else ret allAuditResults.

(** "Combine all the subTask audits into one comment body" *)
Definition auditComment (allAuditResults : list AuditDetails) : string :=
  fold_left
    (fun comment audit =>
       if negb (auditPassing audit)
       then comment ++ generateAuditCommentText E audit ++ newline ++ newline
       else comment)
    allAuditResults (newline ++ newline).

(** The combined audit of a linked sub-task, posted to or cleared from
    the original sub-task. *)
Definition linkedAudit (originalHazardSubTask : Issue)
  (allAuditResults : list AuditDetails) : M AuditDetails :=
  let auditDetail :=
    newAuditDetails "Linked Hazard Analysis Sub-Task Audit"
                    originalHazardSubTask in
  if negb (forallb auditPassing allAuditResults) then
    let failed :=
      setPassing false
        (setDetails
           ("The audit details below are currently failing for the linked sub-task and transitively causing this sub-task audit failure:"
            ++ newline ++ newline ++ "{quote}"
            ++ auditComment allAuditResults ++ "{quote}")
           auditDetail) in
    postIssueAuditFailureComment originalHazardSubTask failed (Some true) ;;
    ret failed
  else
    let passed :=
      setPassing true
        (setDetails
           ("All audits for the linked Hazard Analysis sub-task have passed successfully:\n\n{quote}"
            ++ auditComment allAuditResults ++ "{quote}")
           auditDetail) in
    removeIssueAuditFailureComment originalHazardSubTask passed ;;
    ret passed.

Definition runHazardAnalysisAudits (issue : Issue) : M AuditDetails :=
  let defineHazardAnalysis :=
    getSubTaskByName E issue (HAZARD_ANALYSIS E) in
  let hazardAnalysisAuditDetails :=
    newAuditDetails "Hazard Analysis Sub-Task Audit"
      (match defineHazardAnalysis with Some st => st | None => issue end) in
  let resolutionDate := newDate (resolutiondate issue) in
  if dateLt resolutionDate introductionDate then
    ret (setDetails
           "This audit is being ignored since the issue was resolved prior to the audit introduction date of April 22nd, 2019"
           (setPassing true hazardAnalysisAuditDetails))
  else if issueContainsAnyLabel E issue [IGNORE_HAZARD_ANALYSIS E] then
    let ignored := setDetails "Audit ignored" hazardAnalysisAuditDetails in
    cleanseSubTaskAudits issue ;;
    ret ignored
  else
    auditDetail <- issueHasHazardAnalysisSubTask issue ;;
    let hazardAnalysisAuditDetails :=
      addAuditResults [auditDetail] hazardAnalysisAuditDetails in
    if negb (auditPassing auditDetail) then ret hazardAnalysisAuditDetails
    else
      match defineHazardAnalysis with
      | None => throw
      | Some defineHazardAnalysis =>
    auditDetail <- isNoWorkNeededResolutionValid issue defineHazardAnalysis ;;
    match auditDetail with
    | Some auditDetail =>
        let hazardAnalysisAuditDetails :=
          addAuditResults [auditDetail] hazardAnalysisAuditDetails in
        handlePassFailAuditResults defineHazardAnalysis
                                   hazardAnalysisAuditDetails ;;
        ret hazardAnalysisAuditDetails
    | None =>
        let subTaskLinks :=
          filter (fun issueLink =>
                    isSubtaskLinkOfType E issueLink (HAZARD_ANALYSIS E))
                 (issuelinks defineHazardAnalysis) in
        match subTaskLinks with
        | firstLink :: _ =>
            auditDetail <- issueHasOneSubTaskLink defineHazardAnalysis ;;
            let hazardAnalysisAuditDetails :=
              addAuditResults [auditDetail] hazardAnalysisAuditDetails in
            if negb (auditPassing auditDetail) then
              handlePassFailAuditResults defineHazardAnalysis
                                         hazardAnalysisAuditDetails ;;
              ret hazardAnalysisAuditDetails
            else
              let originalHazardSubTask := defineHazardAnalysis in
              defineHazardAnalysis <- callGetIssueFromLink firstLink ;;
              closed <- callSubTaskClosed originalHazardSubTask ;;
              let hazardAnalysisAuditDetails :=
                addAuditResults [closed] hazardAnalysisAuditDetails in
              assignee <- callIsAssigneeIndicated originalHazardSubTask ;;
              let hazardAnalysisAuditDetails :=
                addAuditResults [assignee] hazardAnalysisAuditDetails in
              allAuditResults <- coreAudits defineHazardAnalysis [] ;;
              auditDetail <- linkedAudit originalHazardSubTask
                                         allAuditResults ;;
              let hazardAnalysisAuditDetails :=
                addAuditResults [auditDetail] hazardAnalysisAuditDetails in
              handlePassFailAuditResults originalHazardSubTask
                                         hazardAnalysisAuditDetails ;;
              ret hazardAnalysisAuditDetails
        | [] =>
            closed <- callSubTaskClosed defineHazardAnalysis ;;
            allAuditResults <- coreAudits defineHazardAnalysis [closed] ;;
            removeIssueAuditFailureCommentByName defineHazardAnalysis
              "Linked Hazard Analysis Sub-Task Audit" ;;
            let hazardAnalysisAuditDetails :=
              addAuditResults allAuditResults hazardAnalysisAuditDetails in
            handlePassFailAuditResults defineHazardAnalysis
                                       hazardAnalysisAuditDetails ;;
            ret hazardAnalysisAuditDetails
        end
    end
      end.

End Audits.

(* ================================================================== *)
(** ** Vocabulary of the statements *)
(* ================================================================== *)

Definition questions : list Question :=
  [Financial; LegalRegulatory; DataIntegrity; PatientSafety; CyberSecurity].

(** The pattern, the extra replacement and the two failure texts that
    [hazardAnalysisComplete] uses in the block of each question. *)
Definition questionRegex (q : Question) : regex :=
  match q with
  | Financial => financialRegex
  | LegalRegulatory => legalRegex
  | DataIntegrity => dataRegex
  | PatientSafety => patientRegex
  | CyberSecurity => cyberSecurityRegex
  end.

Definition questionStrip (q : Question) : jsstring -> jsstring :=
  match q with
  | CyberSecurity => replaceEmpty engineerRegex
  | _ => fun s => s
  end.

Definition sectionName (q : Question) : string :=
  match q with
  | Financial => "Financial"
  | LegalRegulatory => "Legal/Regulatory"
  | DataIntegrity => "Data Integrity"
  | PatientSafety => "Patient Safety"
  | CyberSecurity => "CyberSecurity/Information"
  end.

Definition mismatchText (q : Question) : string :=
  sectionName q ++ mismatchTail.

Definition unansweredText (q : Question) : string :=
  match q with
  | Financial =>
      "The financial question of the Hazard analysis must be answered."
  | LegalRegulatory =>
      "The legal/regulatory question of the Hazard analysis must be answered."
  | DataIntegrity =>
      "The data integrity question of the Hazard analysis must be answered."
  | PatientSafety =>
      "The patient safety question of the Hazard analysis must be answered."
  | CyberSecurity =>
      "The cybersecurity/information question of the Hazard analysis must be answered."
  end.

(** What one block finds in a description. *)
Inductive Verdict := NoMatch | Blank | Answered.

Definition verdict (q : Question) (descriptionBody : jsstring) : Verdict :=
  match jsMatch (questionRegex q) descriptionBody with
  | None => NoMatch
  | Some tempStr =>
      if test fillCheckRegex
              (answerLeft (questionRegex q) (questionStrip q) tempStr)
      then Answered else Blank
  end.

Definition position (q : Question) : nat :=
  match q with
  | Financial => 0
  | LegalRegulatory => 1
  | DataIntegrity => 2
  | PatientSafety => 3
  | CyberSecurity => 4
  end.

Definition sameQuestion (a b : Question) : bool :=
  Nat.eqb (position a) (position b).

(** The questions before [q], and those up to and including [q]. *)
Definition before (q : Question) : list Question :=
  firstn (position q) questions.
Definition upTo (q : Question) : list Question :=
  firstn (S (position q)) questions.

(** The first question, in order, that is not answered. *)
Definition firstProblem (descriptionBody : jsstring)
  : option (Question * Verdict) :=
  find (fun qv => match snd qv with Answered => false | _ => true end)
       (map (fun q => (q, verdict q descriptionBody)) questions).

(** The failing result of [hazardAnalysisComplete] with a given text. *)
Definition completionFailure (issue : Issue) (text : string) : AuditDetails :=
  MkAuditDetails "Hazard Analysis Completed" issue (Some false) (Some text) [].

(** The links of a sub-task that [runHazardAnalysisAudits] keeps. *)
Definition hazardAnalysisLinks (E : Collaborators) (subTask : Issue)
  : list IssueLink :=
  filter (fun issueLink => isSubtaskLinkOfType E issueLink (HAZARD_ANALYSIS E))
         (issuelinks subTask).

(** An issue is grandfathered, or carries the ignore label. *)
Definition grandfathered (issue : Issue) : bool :=
  dateLt (newDate (resolutiondate issue)) introductionDate.
Definition ignored (E : Collaborators) (issue : Issue) : bool :=
  issueContainsAnyLabel E issue [IGNORE_HAZARD_ANALYSIS E].

(** The pass flag and the detail text of a result were assigned together:
    both or neither. *)
Definition setTogether (d : AuditDetails) : Prop :=
  (passFlag d = None <-> detailText d = None).

(** Is [needle] a substring of [text]? *)
Fixpoint contains (needle text : string) : bool :=
  String.prefix needle text
  || match text with
     | EmptyString => false
     | String _ rest => contains needle rest
     end.

(** The events that post a failure comment. *)
Definition isPost (e : Event) : bool :=
  match e with PostIssueAuditFailureComment _ _ _ => true | _ => false end.

(** The events of the checks that follow the existence check. *)
Definition isLaterCheck (e : Event) : bool :=
  match e with
  | IsAssigneeIndicated _ | MatchDescription _ | SubTaskClosed _
  | GetIssueFromLink _ => true
  | _ => false
  end.

(** The events of target resolution and of the checks that follow the
    link check. *)
Definition isAfterLinkCheck (e : Event) : bool :=
  match e with
  | GetIssueFromLink _ | SubTaskClosed _ | IsAssigneeIndicated _
  | MatchDescription _ => true
  | _ => false
  end.

(** The passed existence check, and the fresh validation result that
    [isNoWorkNeededResolutionValid] hands to the comment removal. *)
Definition subTaskPresent (issue : Issue) : AuditDetails :=
  MkAuditDetails "Issue Requires A Hazard Analysis Sub-Task" issue
    (Some true) (Some "Hazard Analysis sub-task is required and present") [].
Definition noWorkNeededFresh (subTask : Issue) : AuditDetails :=
  newAuditDetails "Hazard Analysis No Work Needed Resolution Validation"
                  subTask.

(** The passing result of [hazardAnalysisComplete]. *)
Definition completionPassed (issue : Issue) : AuditDetails :=
  MkAuditDetails "Hazard Analysis Completed" issue (Some true)
    (Some "Hazard analysis has been completed for this sub-task.") [].

(** What [hazardAnalysisComplete] does, given the first question that is
    not answered: the questions evaluated, the comment call, the result. *)
Definition completionOutcome (issue : Issue)
  (problem : option (Question * Verdict)) : M AuditDetails :=
  match problem with
  | Some (q, NoMatch) =>
      (map MatchDescription (upTo q),
       Some (completionFailure issue (mismatchText q)))
  | Some (q, _) =>
      ((map MatchDescription (upTo q)
        ++ [PostIssueAuditFailureComment issue
              (completionFailure issue (unansweredText q)) (Some true)])%list,
       Some (completionFailure issue (unansweredText q)))
  | None =>
      ((map MatchDescription questions
        ++ [RemoveIssueAuditFailureComment issue (completionPassed issue)])%list,
       Some (completionPassed issue))
  end.

Definition linkedAuditName : string := "Linked Hazard Analysis Sub-Task Audit".



(** How a returned result stands with respect to the two assignments. *)
Definition bothSet (d : AuditDetails) : Prop :=
  exists b text, passFlag d = Some b /\ detailText d = Some text.
Definition onlyTextSet (d : AuditDetails) (text : string) : Prop :=
  passFlag d = None /\ detailText d = Some text.
Definition neitherSet (d : AuditDetails) : Prop :=
  passFlag d = None /\ detailText d = None.

(** The events that hand a result to the pass/fail handler, the ones that
    clear a failure comment, and the evaluations of the description. *)
Definition isHandle (e : Event) : bool :=
  match e with HandlePassFailAuditResults _ _ => true | _ => false end.
Definition isRemove (e : Event) : bool :=
  match e with RemoveIssueAuditFailureComment _ _ => true | _ => false end.
Definition isMatch (e : Event) : bool :=
  match e with MatchDescription _ => true | _ => false end.

(** The events of delegation: the fetch of a link target. *)
Definition isLinkStep (e : Event) : bool :=
  match e with
  | GetIssueFromLink _ => true
  | _ => false
  end.

(** The result of [cleanseSubTaskAudits]. *)
Definition cleansed (issue : Issue) : AuditDetails :=
  MkAuditDetails "Hazard Analysis Sub-Task Cleanse" issue None
    (Some "All audit comments and labels will be removed from this sub-task")
    [].

(** The issue that the aggregate of [runHazardAnalysisAudits] is about:
    [defineHazardAnalysis || issue]. *)
Definition auditedIssue (E : Collaborators) (issue : Issue) : Issue :=
  match getSubTaskByName E issue (HAZARD_ANALYSIS E) with
  | Some subTask => subTask
  | None => issue
  end.

(** The aggregate that [runHazardAnalysisAudits] returns for a sub-task,
    with the results added to it. *)
Definition aggregateOf (subTask : Issue) (results : list AuditDetails)
  : AuditDetails :=
  MkAuditDetails "Hazard Analysis Sub-Task Audit" subTask None None results.


(** The one comment call of a check: the failure comment is cleared when
    the result passes and posted when it fails. *)
Definition commentOf (target : Issue) (d : AuditDetails) : Event :=
  if auditPassing d
  then RemoveIssueAuditFailureComment target d
  else PostIssueAuditFailureComment target d None.

(* ================================================================== *)
(** ** The shape of a description *)
(* ================================================================== *)

(** The header of a question as the patterns spell it: its name, which
    ends the slice of the question before it, and the name with its colon,
    which opens its own slice. *)
Definition headerName (q : Question) : jsstring :=
  match q with
  | Financial => codeUnits "Financial"
  | LegalRegulatory => codeUnits "Legal/Regulatory"
  | DataIntegrity => codeUnits "Data Integrity"
  | PatientSafety => codeUnits "Patient Safety"
  | CyberSecurity => codeUnits "CyberSecurity/Information Security"
  end.

Definition headerText (q : Question) : jsstring :=
  (headerName q ++ codeUnits ":")%list.

Definition nextQuestion (q : Question) : option Question :=
  match q with
  | Financial => Some LegalRegulatory
  | LegalRegulatory => Some DataIntegrity
  | DataIntegrity => Some PatientSafety
  | PatientSafety => Some CyberSecurity
  | CyberSecurity => None
  end.

(** The header-to-header pattern of the first four blocks. *)
Definition sliceRegex (hdr nxt : jsstring) : regex :=
  RLit hdr ;;; ROpt (chr "*") ;;;
  RGroup (RPlusLazy CAny ;;; ROpt (chr ">")) ;;;
  RStar CNotWord ;;; RLit nxt.

(** Two texts are equal up to letter case. *)
Definition sameCI (a b : jsstring) : Prop := map canon a = map canon b.

Definition allSpace (s : jsstring) : bool := forallb isSpace s.

(** The two placeholders of the template. *)
Definition yesNoPlaceholder : jsstring := codeUnits "<yes/no>".
Definition explainPlaceholder : jsstring :=
  codeUnits "<yes or no. if yes, explain why>".

Definition isPlaceholder (s : jsstring) : Prop :=
  sameCI s yesNoPlaceholder \/ sameCI s explainPlaceholder.

(** The positions at which the literal [l] occurs in [s], ignoring case. *)
Fixpoint positions (l s : jsstring) (i : nat) : list nat :=
  ((if prefixCI l s then [i] else [])
   ++ match s with
      | [] => []
      | _ :: s' => positions l s' (S i)
      end)%list.

Definition occurrences (l s : jsstring) : list nat := positions l s 0.

Definition occurs (l s : jsstring) : bool :=
  match occurrences l s with [] => false | _ => true end.

(** A trailing signature block: stars, white space, the word "Engineer"
    and at least one more code unit. *)
Definition signature (s : jsstring) : Prop :=
  exists stars gap word more,
    s = (stars ++ gap ++ word ++ more)%list
    /\ forallb (N.eqb 42) stars = true
    /\ allSpace gap = true
    /\ sameCI word (codeUnits "Engineer")
    /\ more <> [].

(** What follows the answer of question [q]: the name of the next header,
    or, after the last answer, the end of the text or a signature. *)
Definition sectionEnd (q : Question) (rest : jsstring) : Prop :=
  match nextQuestion q with
  | Some q' => exists h tail, rest = (h ++ tail)%list /\ sameCI h (headerName q')
  | None => rest = [] \/ signature rest
  end.

(** The question that [hazardAnalysisComplete] reports when the header of
    [q] is missing: the first whose pattern needs that header. *)
Definition reported (q : Question) : Question :=
  match q with
  | Financial => Financial
  | LegalRegulatory => Financial
  | DataIntegrity => LegalRegulatory
  | PatientSafety => DataIntegrity
  | CyberSecurity => PatientSafety
  end.

(** [clash l s]: comparing [l] with the start of [s] meets two code units
    that differ, before either text ends. *)
Fixpoint clash (l s : jsstring) : bool :=
  match l, s with
  | p :: l', c :: s' => negb (N.eqb (canon p) (canon c)) || clash l' s'
  | _, _ => false
  end.

(** [l] clashes with every non-empty suffix of [s]. *)
Fixpoint suffixesClash (l s : jsstring) : bool :=
  match s with
  | [] => true
  | _ :: s' => clash l s && suffixesClash l s'
  end.

(** The pattern has a literal that every match must contain. *)
Inductive Requires (l : jsstring) : regex -> Prop :=
| RequiresLit x : Requires l (RLit (l ++ x)%list)
| RequiresSeqL r1 r2 : Requires l r1 -> Requires l (r1 ;;; r2)
| RequiresSeqR r1 r2 : Requires l r2 -> Requires l (r1 ;;; r2)
| RequiresGroup r : Requires l r -> Requires l (RGroup r).

(** The candidates of [.+?] inside a text [p]: [p] less one code unit, less
    two, and so on, down to its last code unit. *)
Fixpoint inner (p : jsstring) : list jsstring :=
  match p with
  | [] => []
  | _ :: p' => match p' with [] => [] | _ => p' :: inner p' end
  end.

(** The part of a slice pattern that follows [.+?], tried on the
    candidate [t] of the answer that starts at [x]: [[>]?] closes the
    group, then come [\W*] and the name [nxt] of the next header. *)
Definition afterLazy (nxt x t : jsstring) : list mstate :=
  flat_map
    (fun st => run (RStar CNotWord ;;; RLit nxt) (fst st)
                   (Some (firstn (List.length x - List.length (fst st)) x)))
    (run (ROpt (CChar 62%N)) t None).

(** What a slice pattern has after its header and the optional star: the
    group around the answer, the non-word code units and the name of the
    next header. *)
Definition sliceBody (nxt : jsstring) : regex :=
  RGroup (RPlusLazy CAny ;;; ROpt (chr ">")) ;;;
  RStar CNotWord ;;; RLit nxt.

(** The [>] that [[>]?] takes into the group when the text after the
    answer opens with one. *)
Definition closing (v : jsstring) : jsstring :=
  match v with
  | c :: _ => if N.eqb c 62 then [62%N] else []
  | [] => []
  end.

Definition nonWord (s : jsstring) : bool :=
  forallb (fun c => negb (isWord c)) s.

(** The star that bold markup leaves after the colon of a header, which
    the first four patterns pass over with [\*?]. *)
Definition optionalStar (st : jsstring) : Prop := st = [] \/ st = [42%N].

(** The markup that a blank answer may stand in: the first four patterns
    tolerate a star after the colon and non-word code units (not opening
    with [>]) before the next header; the last pattern has neither. *)
Definition markup (q : Question) (st v : jsstring) : Prop :=
  match nextQuestion q with
  | Some _ => optionalStar st /\ nonWord v = true /\ hd_error v <> Some 62%N
  | None => st = [] /\ v = []
  end.

(** The answer of [q] was deleted together with the white space around
    it: the next header follows the colon at once (and occurs nowhere
    else), or, for the last question, the text ends with the header. *)
Definition nothingAfter (q : Question) (before rest d : jsstring) : Prop :=
  match nextQuestion q with
  | Some q' =>
      exists nxt' tail,
        rest = (nxt' ++ tail)%list /\ sameCI nxt' (headerName q')
        /\ occurrences (headerName q') d = [List.length before]
  | None => rest = []
  end.

(** Two captures, two matcher states and two segments of a scan are
    equal up to letter case. *)
Definition sameCapture (c c' : option jsstring) : Prop :=
  match c, c' with
  | Some x, Some x' => sameCI x x'
  | None, None => True
  | _, _ => False
  end.

Definition sameState (st st' : mstate) : Prop :=
  sameCI (fst st) (fst st') /\ sameCapture (snd st) (snd st').

Definition sameSeg (g g' : seg) : Prop :=
  match g, g' with
  | Keep c, Keep c' => canon c = canon c'
  | Hit t cap, Hit t' cap' => sameCI t t' /\ sameCapture cap cap'
  | _, _ => False
  end.

(* ================================================================== *)
(** ** A sample tracker *)
(* ================================================================== *)

(** Concrete collaborators and issues, on which the statements below are
    exercised. *)
Module Sample.

Definition lines (l : list string) : string :=
  String.concat newline l.

(** The plain-text template with the five answers, less the header of
    [missing]. *)
Definition header (missing : option Question) (q : Question) (h : string)
  : string :=
  match missing with
  | Some q' => if sameQuestion q q' then "" else h
  | None => h
  end.

Definition templateWithout (missing : option Question)
  (a1 a2 a3 a4 a5 : string) : string :=
  lines ["Please answer every question.";
         header missing Financial "Financial:" ++ a1;
         header missing LegalRegulatory "Legal/Regulatory:" ++ a2;
         header missing DataIntegrity "Data Integrity:" ++ a3;
         header missing PatientSafety "Patient Safety:" ++ a4;
         header missing CyberSecurity "CyberSecurity/Information Security:"
         ++ a5].

Definition plainTemplate : string -> string -> string -> string -> string
                           -> string :=
  templateWithout None.

Definition mkIssue (k type : string) (resolved : DateField)
  (res : option string) (text : string) (links : list IssueLink) : Issue :=
  {| key := k; issuetype := type; labels := [];
     resolutiondate := resolved; resolution := res;
     description := codeUnits text; issuelinks := links |}.

Definition hazardLink (k : string) : IssueLink :=
  {| linkTypeName := "Hazard Analysis"; linkedIssueKey := k |}.

(** 2021-01-01T00:00:00Z and 2019-04-21T23:59:59.999Z *)
Definition resolved2021 : DateField := DateText (Some 1609459200000%Z).
Definition resolvedBefore : DateField := DateText (Some 1555891199999%Z).

Definition answered : string :=
  plainTemplate " No" " No" " No" " No" " No".

(** The analysis that another sub-task links to. *)
Definition target : Issue :=
  mkIssue "HA-7" "Hazard Analysis" resolved2021 (Some "Done") answered [].

Definition subTask : Issue :=
  mkIssue "STORY-2" "Hazard Analysis" resolved2021 (Some "Done") answered [].
Definition subTaskOneLink : Issue :=
  mkIssue "STORY-3" "Hazard Analysis" resolved2021 (Some "Done") ""
          [hazardLink "HA-7"].
Definition subTaskTwoLinks : Issue :=
  mkIssue "STORY-4" "Hazard Analysis" resolved2021 (Some "Done") ""
          [hazardLink "HA-7"; hazardLink "HA-8"].
Definition subTaskNoWork : Issue :=
  mkIssue "STORY-5" "Hazard Analysis" resolved2021 (Some "No Work Needed")
          "" [].

Definition story : Issue :=
  mkIssue "STORY-1" "Story" resolved2021 (Some "Done") "" [].
Definition oldStory : Issue :=
  mkIssue "STORY-0" "Story" resolvedBefore (Some "Done") "" [].
Definition storyNoWork : Issue :=
  mkIssue "STORY-6" "Story" resolved2021 (Some "No Work Needed") "" [].

Definition passed (name : string) (i : Issue) : AuditDetails :=
  MkAuditDetails name i (Some true) (Some "ok") [].

(** A tracker in which every issue has the sub-task [sub]. *)
Definition tracker (sub : option Issue) : Collaborators :=
  {| HAZARD_ANALYSIS := "Hazard Analysis";
     IGNORE_HAZARD_ANALYSIS := "ignore-hazard-analysis-audit";
     getSubTaskByName := fun _ _ => sub;
     issueContainsAnyLabel := fun i ls =>
       existsb (fun l => existsb (String.eqb l) (labels i)) ls;
     issueHasNoWorkNeededResolution := fun i =>
       match resolution i with
       | Some n => String.eqb n "No Work Needed"
       | None => false
       end;
     isSubtaskLinkOfType := fun l n => String.eqb (linkTypeName l) n;
     getIssueFromLink := fun l =>
       if String.eqb (linkedIssueKey l) "HA-7" then Some target else None;
     findPlusOneComments := fun _ => ["+1 looks right"];
     generateAuditCommentText := fun a =>
       match detailText a with
       | Some t => auditName a ++ ": " ++ t
       | None => auditName a
       end;
     subTaskClosed := passed "Sub-Task Closed";
     isAssigneeIndicated := passed "Assignee Indicated" |}.

(** Descriptions in which one header was removed, one whose Financial
    answer is the placeholder, and one with bold headers whose last answer
    is the placeholder. *)
Definition noLegalHeader : string :=
  templateWithout (Some LegalRegulatory) " No" " No" " No" " No" " No".

Definition noDataHeader : string :=
  templateWithout (Some DataIntegrity) " No" " No" " No" " No" " No".

Definition financialBlank : string :=
  plainTemplate " <yes/no>" " No" " No" " No" " No".


Definition boldLastBlank : string :=
  lines ["*Financial:* No";
         "*Legal/Regulatory:* No";
         "*Data Integrity:* No";
         "*Patient Safety:* No";
         "*CyberSecurity/Information Security:* <yes/no>"].

Definition boldFourthBlank : string :=
  lines ["*Financial:* No";
         "*Legal/Regulatory:* No";
         "*Data Integrity:* No";
         "*Patient Safety:* <yes/no>";
         "*CyberSecurity/Information Security:* No"].

Definition holding (text : string) : Issue :=
  mkIssue "HA-1" "Hazard Analysis" resolved2021 (Some "Done") text [].

(** A story that carries the ignore label. *)
Definition ignoredStory : Issue :=
  {| key := "STORY-7"; issuetype := "Story";
     labels := ["ignore-hazard-analysis-audit"];
     resolutiondate := resolved2021; resolution := Some "Done";
     description := codeUnits ""; issuelinks := [] |}.

(** The template with bold headers and a signature. *)
Definition boldTemplate (a1 a2 a3 a4 a5 : string) : string :=
  lines ["*Financial:*" ++ a1;
         "*Legal/Regulatory:*" ++ a2;
         "*Data Integrity:*" ++ a3;
         "*Patient Safety:*" ++ a4;
         "*CyberSecurity/Information Security:*" ++ a5;
         "";
         "*Engineer:* J. Smith"].

Definition boldAnswered : string :=
  boldTemplate " No" " No" " No" " No" " No".

Definition boldSecondBlank : string :=
  boldTemplate " No" " <yes/no>" " No" " No" " No".

Definition boldThirdEmpty : string :=
  boldTemplate " No" " No" " " " No" " No".

Definition boldLastBlankSigned : string :=
  boldTemplate " No" " No" " No" " No" " <yes/no>".

(** [financialBlank] in capitals. *)
Definition financialBlankUpper : string :=
  lines ["PLEASE ANSWER EVERY QUESTION.";
         "FINANCIAL: <YES/NO>";
         "LEGAL/REGULATORY: NO";
         "DATA INTEGRITY: NO";
         "PATIENT SAFETY: NO";
         "CYBERSECURITY/INFORMATION SECURITY: NO"].

(** The fourth answer deleted up to the next header. *)
Definition fourthDeleted : string :=
  lines ["Financial: No";
         "Legal/Regulatory: No";
         "Data Integrity: No";
         "Patient Safety:CyberSecurity/Information Security: No"].


(** Partial results of a linked sub-task: the assignee check failed, the
    completeness check passed and the review check failed. *)
Definition failed (name : string) (i : Issue) (text : string)
  : AuditDetails :=
  MkAuditDetails name i (Some false) (Some text) [].


End Sample.

(* ================================================================== *)
(** ** Facts about the matcher *)
(* ================================================================== *)

Section Characters.

#[local] Open Scope N_scope.

(** Case analysis on the comparisons of a goal about code units. *)
Ltac cases_on_code_unit :=
  repeat (match goal with
          | |- context [N.leb ?a ?b] => destruct (N.leb_spec a b)
          | |- context [N.eqb ?a ?b] => destruct (N.eqb_spec a b)
          | _ : context [N.leb ?a ?b] |- _ => destruct (N.leb_spec a b)
          | _ : context [N.eqb ?a ?b] |- _ => destruct (N.eqb_spec a b)
          end; cbn [andb orb negb] in *; try lia);
  try reflexivity; try discriminate.

Lemma canon_idem (c : char16) : canon (canon c) = canon c.
Proof. unfold canon. cases_on_code_unit. Qed.

Lemma isWord_canon (c : char16) : isWord (canon c) = isWord c.
Proof. unfold canon, isWord. cases_on_code_unit. Qed.

Lemma isSpace_not_word (c : char16) : isSpace c = true -> isWord c = false.
Proof. unfold isSpace, isWord. cases_on_code_unit. Qed.

Lemma isSpace_canon (c : char16) : isSpace (canon c) = isSpace c.
Proof. unfold canon, isSpace. cases_on_code_unit. Qed.

(** A code unit that is not an upper-case letter is the canonical form
    of itself only. *)
Lemma canon_fixed (c p : char16) :
  canon c = p -> (p < 65 \/ 90 < p) -> c = p.
Proof. unfold canon. cases_on_code_unit; lia. Qed.

Lemma word_space_differ (p c : char16) :
  isWord p = true -> isSpace c = true -> (canon p =? canon c) = false.
Proof.
  intros Hp Hc. apply N.eqb_neq. intros Heq.
  rewrite <- isWord_canon in Hp. rewrite <- isSpace_canon in Hc.
  rewrite Heq in Hp. apply isSpace_not_word in Hc. congruence.
Qed.

End Characters.

Section Literals.

#[local] Open Scope list_scope.

Lemma sameCI_length (a b : jsstring) :
  sameCI a b -> List.length a = List.length b.
Proof.
  unfold sameCI. intros H.
  rewrite <- (length_map canon a), <- (length_map canon b). now rewrite H.
Qed.

Lemma prefixCI_canon (l s : jsstring) :
  prefixCI l (map canon s) = prefixCI l s.
Proof.
  revert s. induction l as [|p l IH]; intros [|c s]; simpl; try reflexivity.
  now rewrite canon_idem, IH.
Qed.

Lemma prefixCI_self (l t : jsstring) : prefixCI l (l ++ t) = true.
Proof.
  induction l as [|p l IH]; simpl; [reflexivity|].
  now rewrite N.eqb_refl, IH.
Qed.

(** The literal matches a text that spells it in any letter case, and the
    match consumes exactly that text. *)
Lemma prefixCI_same (l l' t : jsstring) :
  sameCI l' l -> prefixCI l (l' ++ t) = true.
Proof.
  unfold sameCI. revert l'.
  induction l as [|p l IH]; intros [|c l'] H; simpl in *;
    try reflexivity; try discriminate.
  injection H as Hc Hl. rewrite Hc, N.eqb_refl. now apply IH.
Qed.

Lemma skipn_same (l l' t : jsstring) :
  sameCI l' l -> skipn (List.length l) (l' ++ t) = t.
Proof.
  intros H. rewrite <- (sameCI_length _ _ H). 
  rewrite skipn_app, skipn_all, Nat.sub_diag. reflexivity.
Qed.

Lemma prefixCI_app_l (a b s : jsstring) :
  prefixCI (a ++ b) s = true -> prefixCI a s = true.
Proof.
  revert s. induction a as [|p a IH]; intros [|c s]; simpl;
    try reflexivity; try discriminate.
  intros H. apply andb_true_iff in H. destruct H as [-> H].
  now apply IH.
Qed.

Lemma clash_prefixCI (l s t : jsstring) :
  clash l s = true -> prefixCI l (s ++ t) = false.
Proof.
  revert s. induction l as [|p l IH]; intros [|c s]; simpl;
    try discriminate.
  intros H. destruct (N.eqb (canon p) (canon c)); [|reflexivity].
  simpl in *. now apply IH.
Qed.

Lemma clash_canon (l s : jsstring) : clash l (map canon s) = clash l s.
Proof.
  revert s. induction l as [|p l IH]; intros [|c s]; simpl; try reflexivity.
  now rewrite canon_idem, IH.
Qed.

Lemma suffixesClash_canon (l s : jsstring) :
  suffixesClash l (map canon s) = suffixesClash l s.
Proof.
  induction s as [|c s IH]; [reflexivity|].
  cbn [map suffixesClash]. rewrite IH. f_equal.
  apply (clash_canon l (c :: s)).
Qed.

Lemma suffixesClash_sameCI (l s s' : jsstring) :
  sameCI s' s -> suffixesClash l s = true -> suffixesClash l s' = true.
Proof.
  unfold sameCI. intros H.
  now rewrite <- (suffixesClash_canon l s'), H, suffixesClash_canon.
Qed.

(** Every non-empty suffix of [s], followed by anything, fails the
    literal. *)
Lemma suffixesClash_spec (l s a b t : jsstring) :
  suffixesClash l s = true -> s = (a ++ b) -> b <> [] ->
  prefixCI l (b ++ t) = false.
Proof.
  revert s. induction a as [|x a IH]; intros s H -> Hb.
  - destruct b as [|c b]; [now elim Hb|].
    cbn [app suffixesClash] in H. apply andb_true_iff in H.
    now apply clash_prefixCI.
  - cbn [app suffixesClash] in H. apply andb_true_iff in H.
    destruct H as [_ H]. exact (IH _ H eq_refl Hb).
Qed.

(** Leading white space clashes with a literal that does not start with
    white space. *)
Lemma space_differ (p c : char16) :
  isSpace p = false -> isSpace c = true ->
  N.eqb (canon p) (canon c) = false.
Proof.
  intros Hp Hc. apply N.eqb_neq. intros Heq.
  rewrite <- isSpace_canon in Hp. rewrite <- isSpace_canon in Hc.
  congruence.
Qed.

Lemma suffixesClash_spaces (p : char16) (l ws s : jsstring) :
  isSpace p = false -> forallb isSpace ws = true ->
  suffixesClash (p :: l) s = true ->
  suffixesClash (p :: l) (ws ++ s) = true.
Proof.
  intros Hp Hws Hs. induction ws as [|c ws IH]; [exact Hs|].
  cbn [forallb] in Hws. apply andb_true_iff in Hws. destruct Hws as [Hc Hws].
  cbn [app suffixesClash clash]. rewrite (space_differ _ _ Hp Hc).
  cbn [negb orb andb]. now apply IH.
Qed.


End Literals.

Section Occurrences.

#[local] Open Scope list_scope.

Lemma positions_hit (l a b : jsstring) (i : nat) :
  prefixCI l b = true -> In (i + List.length a) (positions l (a ++ b) i).
Proof.
  revert i. induction a as [|x a IH]; intros i H.
  - rewrite Nat.add_0_r. destruct b; simpl; rewrite H; now left.
  - cbn [app positions]. apply in_or_app. right.
    replace (i + List.length (x :: a)) with (S i + List.length a)
      by (simpl; lia).
    now apply IH.
Qed.

(** When the literal occurs at one position only, it fails at every
    other one. *)
Lemma occurrences_unique (l a b : jsstring) (k : nat) :
  occurrences l (a ++ b) = [k] -> List.length a <> k ->
  prefixCI l b = false.
Proof.
  intros H Hk. destruct (prefixCI l b) eqn:Hb; [|reflexivity].
  pose proof (positions_hit l a b 0 Hb) as Hin.
  unfold occurrences in H. rewrite H in Hin. simpl in Hin.
  destruct Hin as [Hin|[]]. now elim Hk.
Qed.

Lemma occurs_false (l a b : jsstring) :
  occurs l (a ++ b) = false -> prefixCI l b = false.
Proof.
  unfold occurs, occurrences. intros H.
  destruct (prefixCI l b) eqn:Hb; [|reflexivity].
  pose proof (positions_hit l a b 0 Hb) as Hin.
  destruct (positions l (a ++ b) 0); [destruct Hin | discriminate].
Qed.

End Occurrences.

Section Successes.

#[local] Open Scope list_scope.

Context {A B : Type}.

Lemma flat_map_none (f : A -> list B) (l : list A) :
  (forall x, In x l -> f x = []) -> flat_map f l = [].
Proof.
  induction l as [|x l IH]; intros H; [reflexivity|].
  simpl. rewrite (H x (or_introl eq_refl)). apply IH.
  intros y Hy. apply H. now right.
Qed.

(** Candidates that all fail are passed over. *)
Lemma flat_map_skip (f : A -> list B) (l1 l2 : list A) :
  (forall x, In x l1 -> f x = []) ->
  flat_map f (l1 ++ l2) = flat_map f l2.
Proof.
  intros H. rewrite flat_map_app, (flat_map_none f l1 H). reflexivity.
Qed.

End Successes.

Section Quantifiers.

#[local] Open Scope list_scope.

(** The greedy star first takes the whole run of matching code units. *)
Lemma star_first (a : cls) (v rest : jsstring) :
  forallb (inCls a) v = true ->
  match rest with [] => True | c :: _ => inCls a c = false end ->
  exists l, star a (v ++ rest) = rest :: l.
Proof.
  intros Hv Hrest. induction v as [|x v IH].
  - destruct rest as [|c rest]; simpl; [now exists []|].
    rewrite Hrest. now exists [].
  - cbn [forallb] in Hv. apply andb_true_iff in Hv. destruct Hv as [Hx Hv].
    destruct (IH Hv) as [l Hl]. cbn [app star]. rewrite Hx, Hl.
    now exists (l ++ [x :: v ++ rest]).
Qed.

(** Every candidate of the star is the subject less a run of matching
    code units. *)
Lemma star_suffix (a : cls) (s t : jsstring) :
  In t (star a s) ->
  exists p, s = p ++ t /\ forallb (inCls a) p = true.
Proof.
  revert t. induction s as [|c s IH]; intros t H; simpl in H.
  - destruct H as [<-|[]]. now exists [].
  - destruct (inCls a c) eqn:Hc.
    + apply in_app_or in H. destruct H as [H|[<-|[]]].
      * destruct (IH _ H) as [p [-> Hp]]. exists (c :: p).
        split; [reflexivity|]. simpl. now rewrite Hc.
      * now exists [].
    + destruct H as [<-|[]]. now exists [].
Qed.

Lemma plusLazy_any (p t : jsstring) :
  p <> [] ->
  plusLazy CAny (p ++ t)
  = map (fun s => s ++ t) (inner p) ++ t :: plusLazy CAny t.
Proof.
  induction p as [|x p IH]; intros Hp; [now elim Hp|].
  destruct p as [|y p]; [reflexivity|].
  change (plusLazy CAny ((x :: y :: p) ++ t))
    with (((y :: p) ++ t) :: plusLazy CAny ((y :: p) ++ t)).
  rewrite IH by discriminate. reflexivity.
Qed.

Lemma inner_suffix (p s : jsstring) :
  In s (inner p) -> exists a, p = a ++ s /\ a <> [] /\ s <> [].
Proof.
  induction p as [|x p IH]; intros H; [destruct H|].
  destruct p as [|y p]; [destruct H|].
  destruct H as [<-|H].
  - exists [x]. repeat split; discriminate.
  - destruct (IH H) as [a [Ha [_ Hs]]]. exists (x :: a).
    rewrite Ha. repeat split; [discriminate | exact Hs].
Qed.

(** Every success of a pattern leaves a suffix of its subject. *)
Lemma run_suffix (r : regex) (s t : jsstring) (c c' : option jsstring) :
  In (t, c') (run r s c) -> exists p, s = p ++ t.
Proof.
  revert s t c c'.
  induction r as [l|a|a|a|a|r1 IH1 r2 IH2|r1 IH1 r2 IH2|r IH];
    intros s t c c' H; cbn [run] in H.
  - destruct (prefixCI l s); [|destruct H].
    destruct H as [H|[]]. injection H as <- _.
    exists (firstn (List.length l) s). symmetry. apply firstn_skipn.
  - destruct s as [|x s].
    + destruct H as [H|[]]. injection H as <- _. now exists [].
    + destruct (inCls a x).
      * destruct H as [H|[H|[]]]; injection H as <- _;
          [now exists [x] | now exists []].
      * destruct H as [H|[]]. injection H as <- _. now exists [].
  - apply in_map_iff in H. destruct H as [u [Hu Hin]].
    injection Hu as -> _. destruct (star_suffix _ _ _ Hin) as [p [-> _]].
    now exists p.
  - destruct s as [|x s]; [destruct H|].
    destruct (inCls a x); [|destruct H].
    apply in_map_iff in H. destruct H as [u [Hu Hin]].
    injection Hu as -> _. destruct (star_suffix _ _ _ Hin) as [p [-> _]].
    now exists (x :: p).
  - apply in_map_iff in H. destruct H as [u [Hu Hin]].
    injection Hu as -> _. clear c c'. revert t Hin.
    induction s as [|x s IHs]; intros t Hin; [destruct Hin|].
    simpl in Hin. destruct (inCls a x); [|destruct Hin].
    destruct Hin as [<-|Hin]; [now exists [x]|].
    destruct (IHs _ Hin) as [p ->]. now exists (x :: p).
  - apply in_flat_map in H. destruct H as [[u cu] [H1 H2]].
    cbn [fst snd] in H2.
    destruct (IH1 _ _ _ _ H1) as [p ->].
    destruct (IH2 _ _ _ _ H2) as [p' ->].
    exists (p ++ p'). now rewrite app_assoc.
  - apply in_app_or in H. destruct H as [H|H]; eauto.
  - apply in_map_iff in H. destruct H as [[u cu] [Hu Hin]].
    injection Hu as -> _. eauto.
Qed.

(** A pattern with a required literal fails on a subject in which the
    literal occurs nowhere. *)
Lemma requires_fails (l : jsstring) (r : regex) :
  Requires l r ->
  forall s c, (forall a b, s = a ++ b -> prefixCI l b = false) ->
              run r s c = [].
Proof.
  induction 1 as [x|r1 r2 _ IH|r1 r2 _ IH|r _ IH]; intros s c Hs; cbn [run].
  - destruct (prefixCI (l ++ x) s) eqn:Hp; [|reflexivity].
    apply prefixCI_app_l in Hp. now rewrite (Hs [] s eq_refl) in Hp.
  - now rewrite (IH s c Hs).
  - apply flat_map_none. intros [t ct] Hin. cbn [fst snd].
    destruct (run_suffix _ _ _ _ _ Hin) as [p ->].
    apply IH. intros a b ->. apply (Hs (p ++ a) b). now rewrite app_assoc.
  - now rewrite (IH s c Hs).
Qed.

End Quantifiers.

Section Scanning.

#[local] Open Scope list_scope.

Variable r : regex.

Lemma scan_skip (a s : jsstring) :
  scan r (a ++ s) (List.length a) = scan r s 0.
Proof. induction a as [|x a IH]; [reflexivity | exact IH]. Qed.

Lemma scan_miss (c : char16) (s : jsstring) :
  exec r (c :: s) = None -> scan r (c :: s) 0 = Keep c :: scan r s 0.
Proof. intros H. cbn [scan]. now rewrite H. Qed.

Lemma scan_hit (m rest : jsstring) (cap : option jsstring) :
  m <> [] -> exec r (m ++ rest) = Some (rest, cap) ->
  scan r (m ++ rest) 0 = Hit m cap :: scan r rest 0.
Proof.
  intros Hm H. destruct m as [|c m]; [now elim Hm|].
  cbn [app] in H. cbn [app scan]. rewrite H.
  replace (List.length (c :: m ++ rest) - List.length rest)
    with (S (List.length m)) by (cbn [List.length]; rewrite length_app; lia).
  cbn [Nat.eqb firstn app].
  replace (S (List.length m) - 1) with (List.length m) by lia.
  rewrite scan_skip, firstn_app, firstn_all, Nat.sub_diag. cbn [firstn].
  now rewrite app_nil_r.
Qed.

(** Positions at which the pattern fails are kept. *)
Lemma scan_misses (p t : jsstring) :
  (forall a b, p = a ++ b -> b <> [] -> exec r (b ++ t) = None) ->
  scan r (p ++ t) 0 = map Keep p ++ scan r t 0.
Proof.
  induction p as [|c p IH]; intros H; [reflexivity|].
  cbn [app map]. rewrite scan_miss.
  - f_equal. apply IH. intros a b -> Hb. apply (H (c :: a) b eq_refl Hb).
  - apply (H [] (c :: p) eq_refl). discriminate.
Qed.

Lemma scan_all_missed (s : jsstring) :
  (forall a b, s = a ++ b -> exec r b = None) -> scan r s 0 = map Keep s.
Proof.
  intros H. rewrite <- (app_nil_r s) at 1. rewrite scan_misses.
  - cbn [scan]. rewrite (H s [] (eq_sym (app_nil_r s))). apply app_nil_r.
  - intros a b -> _. rewrite app_nil_r. now apply (H a b).
Qed.

(** One match, between positions at which the pattern fails. *)
Lemma scan_single (pre m tail : jsstring) (cap : option jsstring) :
  (forall a b, pre = a ++ b -> b <> [] -> exec r (b ++ m ++ tail) = None) ->
  m <> [] -> exec r (m ++ tail) = Some (tail, cap) ->
  (forall a b, tail = a ++ b -> exec r b = None) ->
  scan r (pre ++ m ++ tail) 0 = map Keep pre ++ Hit m cap :: map Keep tail.
Proof.
  intros Hpre Hm Hexec Htail.
  rewrite scan_misses by exact Hpre.
  rewrite (scan_hit m tail cap Hm Hexec).
  now rewrite scan_all_missed.
Qed.

Lemma hits_keep (s : jsstring) : hits (map Keep s) = [].
Proof. induction s; [reflexivity | assumption]. Qed.

Lemma hits_single (pre m tail : jsstring) (cap : option jsstring) :
  hits (map Keep pre ++ Hit m cap :: map Keep tail) = [m].
Proof.
  unfold hits. rewrite flat_map_app. fold (hits (map Keep pre)).
  rewrite hits_keep. cbn [flat_map app]. fold (hits (map Keep tail)).
  now rewrite hits_keep.
Qed.

(** A kept code unit is a code unit of the subject. *)
Lemma scan_keeps (s : jsstring) (k : nat) (c : char16) :
  In (Keep c) (scan r s k) -> In c s.
Proof.
  revert k. induction s as [|x s IH]; intros k H.
  - destruct k; cbn [scan] in H; [|destruct H].
    destruct (exec r []) as [[rest cap]|]; [|destruct H].
    destruct H as [H|[]]. discriminate.
  - destruct k; cbn [scan] in H.
    + destruct (exec r (x :: s)) as [[rest cap]|].
      * destruct H as [H|H]; [discriminate|].
        apply in_app_or in H. destruct H as [H|H].
        -- destruct (Nat.eqb _ 0); [|destruct H].
           destruct H as [H|[]]. injection H as ->. now left.
        -- right. eapply IH, H.
      * destruct H as [H|H]; [injection H as ->; now left|].
        right. eapply IH, H.
    + right. eapply IH, H.
Qed.

End Scanning.

Section Replacing.

#[local] Open Scope list_scope.

Lemma replaceEmpty_in (r : regex) (s : jsstring) (c : char16) :
  In c (replaceEmpty r s) -> In c s.
Proof.
  unfold replaceEmpty. intros H. apply in_flat_map in H.
  destruct H as [g [Hg Hc]]. destruct g as [x|t cap]; [|destruct Hc].
  destruct Hc as [<-|[]]. eapply scan_keeps, Hg.
Qed.

Lemma replaceEmpty_allSpace (r : regex) (s : jsstring) :
  allSpace s = true -> allSpace (replaceEmpty r s) = true.
Proof.
  unfold allSpace. rewrite !forallb_forall. intros H c Hc.
  eapply H, replaceEmpty_in, Hc.
Qed.

Lemma replaceEmpty_keep (r : regex) (pre : jsstring) (l : list seg) :
  flat_map (fun g => match g with Keep c => [c] | Hit _ _ => [] end)
           (map Keep pre ++ l)
  = pre ++ flat_map (fun g => match g with Keep c => [c] | Hit _ _ => [] end) l.
Proof.
  induction pre as [|c pre IH]; [reflexivity|].
  cbn [map app flat_map]. now rewrite IH.
Qed.

(** [/(\S+)/.test] finds nothing in white space. *)
Lemma fillCheck_allSpace (s : jsstring) :
  allSpace s = true -> test fillCheckRegex s = false.
Proof.
  unfold allSpace. induction s as [|c s IH]; intros H; [reflexivity|].
  cbn [forallb] in H. apply andb_true_iff in H. destruct H as [Hc Hs].
  cbn [test]. unfold exec, fillCheckRegex. cbn [run inCls].
  rewrite Hc. cbn [negb map hd_error]. now apply IH.
Qed.

End Replacing.

Section Slices.

#[local] Open Scope list_scope.

Lemma flat_map_map {A B C} (f : B -> list C) (g : A -> B) (l : list A) :
  flat_map f (map g l) = flat_map (fun x => f (g x)) l.
Proof.
  induction l as [|x l IH]; [reflexivity|]. cbn [map flat_map].
  now rewrite IH.
Qed.

Lemma flat_map_flat_map {A B C} (f : B -> list C) (g : A -> list B)
  (l : list A) :
  flat_map f (flat_map g l) = flat_map (fun x => flat_map f (g x)) l.
Proof.
  induction l as [|x l IH]; [reflexivity|]. cbn [flat_map].
  now rewrite flat_map_app, IH.
Qed.

Lemma map_flat_map {A B C} (f : B -> C) (g : A -> list B) (l : list A) :
  map f (flat_map g l) = flat_map (fun x => map f (g x)) l.
Proof.
  induction l as [|x l IH]; [reflexivity|]. cbn [flat_map].
  now rewrite map_app, IH.
Qed.

Lemma firstn_rest (a b : jsstring) :
  firstn (List.length (a ++ b) - List.length b) (a ++ b) = a.
Proof.
  rewrite length_app, Nat.add_sub, firstn_app, firstn_all, Nat.sub_diag.
  cbn [firstn]. apply app_nil_r.
Qed.

(** A run of code units of one kind cannot pass a code unit of another
    kind. *)
Lemma stops_at (f : char16 -> bool) (s0 rest p t : jsstring) (w : char16) :
  s0 ++ w :: rest = p ++ t ->
  forallb f p = true -> f w = false ->
  exists s', t = s' ++ w :: rest /\ s0 = p ++ s'.
Proof.
  revert s0. induction p as [|x p IH]; intros s0 H Hp Hw.
  - exists s0. now split.
  - cbn [forallb] in Hp. apply andb_true_iff in Hp. destruct Hp as [Hx Hp].
    destruct s0 as [|y s0]; cbn [app] in H; injection H as -> H.
    + rewrite Hw in Hx. discriminate.
    + destruct (IH _ H Hp Hw) as [s' [-> ->]]. now exists s'.
Qed.

Lemma opt_results (a : cls) (s t : jsstring) (c c' : option jsstring) :
  In (t, c') (run (ROpt a) s c) ->
  t = s \/ exists x, s = x :: t /\ inCls a x = true.
Proof.
  cbn [run]. destruct s as [|x s].
  - intros [H|[]]. injection H as <- _. now left.
  - destruct (inCls a x) eqn:Hx.
    + intros [H|[H|[]]]; injection H as <- _; [right; eauto | now left].
    + intros [H|[]]. injection H as <- _. now left.
Qed.

Lemma run_seq (r1 r2 : regex) (s : jsstring) (c : option jsstring) :
  run (r1 ;;; r2) s c
  = flat_map (fun st => run r2 (fst st) (snd st)) (run r1 s c).
Proof. reflexivity. Qed.

Lemma run_group (r : regex) (s : jsstring) (c : option jsstring) :
  run (RGroup r) s c
  = map (fun st => (fst st,
                    Some (firstn (List.length s - List.length (fst st)) s)))
        (run r s c).
Proof. reflexivity. Qed.

Variables hdr nxt : jsstring.

Lemma slice_body (x : jsstring) :
  run (RGroup (RPlusLazy CAny ;;; ROpt (CChar 62%N))
       ;;; RStar CNotWord ;;; RLit nxt) x None
  = flat_map (afterLazy nxt x) (plusLazy CAny x).
Proof.
  rewrite run_seq, run_group, run_seq.
  change (run (RPlusLazy CAny) x None)
    with (map (fun t => (t, @None jsstring)) (plusLazy CAny x)).
  rewrite flat_map_map, flat_map_map, flat_map_flat_map.
  reflexivity.
Qed.


(** At the closing [>] of the answer the rest of the pattern succeeds:
    it takes the [>] into the group, passes the non-word code units and
    reads the next header. *)
Lemma afterLazy_succeeds (u v nxt' tail : jsstring) :
  forallb (fun c => negb (isWord c)) v = true ->
  sameCI nxt' nxt ->
  match nxt' with c :: _ => isWord c = true | [] => False end ->
  exists l,
    afterLazy nxt ((u ++ [62%N]) ++ v ++ nxt' ++ tail)
              (62%N :: v ++ nxt' ++ tail)
    = (tail, Some (u ++ [62%N])) :: l.
Proof.
  intros Hv Hsame Hhead. unfold afterLazy.
  change (run (ROpt (CChar 62%N)) (62%N :: v ++ nxt' ++ tail) None)
    with [(v ++ nxt' ++ tail, @None jsstring);
          (62%N :: v ++ nxt' ++ tail, None)].
  cbn [flat_map fst snd]. rewrite firstn_rest.
  rewrite run_seq.
  change (run (RStar CNotWord) (v ++ nxt' ++ tail) ?c)
    with (map (fun t => (t, c)) (star CNotWord (v ++ nxt' ++ tail))).
  rewrite flat_map_map.
  destruct (star_first CNotWord v (nxt' ++ tail)) as [l Hl].
  - exact Hv.
  - destruct nxt' as [|c nxt']; [destruct Hhead|]. cbn [app inCls].
    now rewrite Hhead.
  - rewrite Hl. cbn [flat_map fst snd run].
    rewrite (prefixCI_same nxt nxt' tail Hsame).
    rewrite (skipn_same nxt nxt' tail Hsame).
    cbn [app]. eexists. reflexivity.
Qed.


End Slices.

Section Placeholders.

#[local] Open Scope list_scope.

Lemma sameCI_cons_inv (s l : jsstring) (a : char16) :
  sameCI s (a :: l) ->
  exists c s', s = c :: s' /\ canon c = canon a /\ sameCI s' l.
Proof.
  unfold sameCI. destruct s as [|c s']; cbn [map]; intros H;
    [discriminate|].
  injection H as Hc Hs. now exists c, s'.
Qed.

Lemma sameCI_snoc2_inv (s l : jsstring) (a b : char16) :
  sameCI s (l ++ [a; b]) ->
  exists s0 w g, s = s0 ++ [w; g] /\ sameCI s0 l
                 /\ canon w = canon a /\ canon g = canon b.
Proof.
  unfold sameCI. rewrite map_app. intros H.
  apply map_eq_app in H. destruct H as (s0 & s1 & -> & H0 & H1).
  destruct s1 as [|w [|g [|x s1]]]; try discriminate.
  injection H1 as Hw Hg. now exists s0, w, g.
Qed.

Lemma sameCI_app (a a' b b' : jsstring) :
  sameCI a a' -> sameCI b b' -> sameCI (a ++ b) (a' ++ b').
Proof. unfold sameCI. intros Ha Hb. now rewrite !map_app, Ha, Hb. Qed.

Lemma sameCI_head_word (h l : jsstring) (a : char16) :
  sameCI h (a :: l) -> isWord a = true ->
  match h with c :: _ => isWord c = true | [] => False end.
Proof.
  intros H Ha. destruct (sameCI_cons_inv _ _ _ H) as (c & s' & -> & Hc & _).
  now rewrite <- isWord_canon, Hc, isWord_canon.
Qed.

Lemma header_head_word (q : Question) (h : jsstring) :
  sameCI h (headerName q) ->
  match h with c :: _ => isWord c = true | [] => False end.
Proof.
  destruct q; intros H; eapply sameCI_head_word; try exact H; reflexivity.
Qed.

(** What the matcher needs to know about a placeholder in any letter
    case: it opens with [<], ends with a word character and [>], and
    neither a header name nor the word "Engineer" starts inside it. *)
Lemma placeholder_facts (ph : jsstring) :
  isPlaceholder ph ->
  exists body w,
    ph = 60%N :: body ++ [w; 62%N]
    /\ isWord w = true
    /\ (forall q, suffixesClash (headerName q) (60%N :: body ++ [w]) = true)
    /\ suffixesClash (codeUnits "Engineer") ph = true.
Proof.
  assert (Hshape : forall mid a,
    isWord a = true ->
    (forall q, suffixesClash (headerName q) (60%N :: mid ++ [a]) = true) ->
    suffixesClash (codeUnits "Engineer") (60%N :: mid ++ [a; 62%N]) = true ->
    sameCI ph (60%N :: mid ++ [a; 62%N]) ->
    exists body w,
      ph = 60%N :: body ++ [w; 62%N]
      /\ isWord w = true
      /\ (forall q, suffixesClash (headerName q) (60%N :: body ++ [w]) = true)
      /\ suffixesClash (codeUnits "Engineer") ph = true).
  { intros mid a Ha Hq He H.
    pose proof H as H'.
    destruct (sameCI_cons_inv _ _ _ H) as (c & s' & -> & Hc & Hs').
    destruct (sameCI_snoc2_inv _ _ _ _ Hs') as (s0 & w & g & -> & H0 & Hw & Hg).
    assert (c = 60%N) as ->
      by (apply (canon_fixed c 60%N); [exact Hc | left; reflexivity]).
    assert (g = 62%N) as ->
      by (apply (canon_fixed g 62%N); [exact Hg | left; reflexivity]).
    exists s0, w. split; [reflexivity|]. split.
    { now rewrite <- isWord_canon, Hw, isWord_canon. }
    split.
    - intros q. apply (suffixesClash_sameCI _ (60%N :: mid ++ [a]));
        [|apply Hq].
      unfold sameCI in *. cbn [map].
      rewrite !map_app. cbn [map].
      exact (f_equal2 (fun x y => canon 60%N :: x ++ [y]) H0 Hw).
    - apply (suffixesClash_sameCI _ _ _ H' He). }
  intros [H|H].
  - apply (Hshape (codeUnits "yes/n") 111%N);
      [reflexivity | intros q; destruct q; vm_compute; reflexivity
      | vm_compute; reflexivity | exact H].
  - apply (Hshape (codeUnits "yes or no. if yes, explain wh") 121%N);
      [reflexivity | intros q; destruct q; vm_compute; reflexivity
      | vm_compute; reflexivity | exact H].
Qed.

End Placeholders.

Section YesNo.

#[local] Open Scope list_scope.

(** The first alternative of [yesNoRegex] fails at white space that is
    followed by the short placeholder. *)
Lemma explain_fails (b ph ws2 : jsstring) (c : option jsstring) :
  forallb isSpace b = true -> sameCI ph yesNoPlaceholder ->
  run (RStar CSpace ;;; lit "<yes or no. if yes, explain why>")
      (b ++ ph ++ ws2) c = [].
Proof.
  intros Hb Hph. rewrite run_seq.
  change (run (RStar CSpace) (b ++ ph ++ ws2) c)
    with (map (fun t => (t, c)) (star CSpace (b ++ ph ++ ws2))).
  rewrite flat_map_map. apply flat_map_none. intros t Ht. cbn [fst snd].
  destruct (star_suffix _ _ _ Ht) as [p [Hp Hsp]].
  change (forallb isSpace p = true) in Hsp.
  destruct (sameCI_cons_inv _ _ _ Hph) as (x & ph' & -> & Hx & _).
  assert (x = 60%N) as ->
    by (apply (canon_fixed x 60%N); [exact Hx | left; reflexivity]).
  cbn [app] in Hp.
  destruct (stops_at isSpace _ _ _ _ _ Hp Hsp eq_refl) as [s' [-> Hb']].
  assert (Hclash : suffixesClash (codeUnits "<yes or no. if yes, explain why>")
                                 (b ++ 60%N :: ph') = true).
  { apply suffixesClash_spaces; [reflexivity | exact Hb |].
    apply (suffixesClash_sameCI _ _ _ Hph). vm_compute. reflexivity. }
  unfold lit. cbn [run].
  replace (s' ++ 60%N :: ph' ++ ws2) with ((s' ++ 60%N :: ph') ++ ws2)
    by (now rewrite <- app_assoc).
  rewrite (suffixesClash_spec _ _ p (s' ++ 60%N :: ph') ws2 Hclash).
  - reflexivity.
  - rewrite Hb'. now rewrite <- app_assoc.
  - destruct s'; discriminate.
Qed.

(** A placeholder between white space: once [yesNoRegex] has been
    replaced by the empty string, white space is all that is left. *)
Lemma yesNo_blank (ws1 ph ws2 : jsstring) :
  allSpace ws1 = true -> isPlaceholder ph -> allSpace ws2 = true ->
  allSpace (replaceEmpty yesNoRegex (ws1 ++ ph ++ ws2)) = true.
Proof.
  intros H1 Hph H2. pose proof Hph as Hkind.
  destruct (placeholder_facts ph Hph) as (body & w & Hshape & _).
  assert (Hhead : match ph ++ ws2 with
                  | c :: _ => inCls CSpace c = false
                  | [] => True
                  end) by (now rewrite Hshape).
  destruct Hkind as [Hshort|Hlong].
  - (* [<yes/no>] and the white space after it are one match *)
    assert (Hmiss : forall a b, ws1 = a ++ b -> b <> [] ->
              exec yesNoRegex (b ++ ph ++ ws2) = None).
    { intros a b Hab Hb. unfold exec, yesNoRegex. cbn [run].
      change (flat_map _ (map _ (star CSpace (b ++ ph ++ ws2))))
        with (run (RStar CSpace ;;; lit "<yes or no. if yes, explain why>")
                  (b ++ ph ++ ws2) None).
      rewrite explain_fails; [|now (rewrite Hab in H1; unfold allSpace in H1;
                                  rewrite forallb_app in H1;
                                  apply andb_true_iff in H1) | exact Hshort].
      destruct b as [|x b]; [now elim Hb|].
      assert (Hx : isSpace x = true).
      { rewrite Hab in H1. unfold allSpace in H1. rewrite forallb_app in H1.
        apply andb_true_iff in H1. destruct H1 as [_ H1].
        cbn [forallb] in H1. now apply andb_true_iff in H1. }
      assert (Hno : prefixCI yesNoPlaceholder ((x :: b) ++ ph ++ ws2)
                    = false).
      { change ((x :: b) ++ ph ++ ws2) with ([x] ++ (b ++ ph ++ ws2)).
        apply clash_prefixCI.
        change (negb (N.eqb (canon 60%N) (canon x)) || false = true).
        now rewrite (space_differ 60%N x eq_refl Hx). }
      unfold lit. fold yesNoPlaceholder. cbn [app run flat_map].
      cbn [app] in Hno. now rewrite Hno. }
    assert (Hhit : exec yesNoRegex ((ph ++ ws2) ++ []) = Some ([], None)).
    { rewrite app_nil_r. unfold exec, yesNoRegex. cbn [run].
      change (flat_map _ (map _ (star CSpace (ph ++ ws2))))
        with (run (RStar CSpace ;;; lit "<yes or no. if yes, explain why>")
                  ([] ++ ph ++ ws2) None).
      rewrite explain_fails; [|reflexivity | exact Hshort].
      unfold lit. fold yesNoPlaceholder. cbn [run app].
      rewrite (prefixCI_same yesNoPlaceholder ph ws2 Hshort).
      rewrite (skipn_same yesNoPlaceholder ph ws2 Hshort).
      cbn [app flat_map fst snd].
      destruct (star_first CSpace ws2 [] H2 I) as [l Hl].
      rewrite app_nil_r in Hl. rewrite Hl. reflexivity. }
    unfold replaceEmpty. rewrite (scan_misses yesNoRegex ws1 _ Hmiss).
    rewrite <- (app_nil_r (ph ++ ws2)).
    rewrite (scan_hit yesNoRegex (ph ++ ws2) [] None); 
      [|rewrite Hshape; discriminate | exact Hhit].
    rewrite (replaceEmpty_keep yesNoRegex). cbn [flat_map scan].
    replace (exec yesNoRegex []) with (@None mstate) by reflexivity.
    cbn [flat_map]. now rewrite !app_nil_r.
  - (* the white space before it and the long placeholder are one match *)
    assert (Hhit : exec yesNoRegex ((ws1 ++ ph) ++ ws2) = Some (ws2, None)).
    { rewrite <- app_assoc. unfold exec, yesNoRegex. cbn [run].
      destruct (star_first CSpace ws1 (ph ++ ws2) H1 Hhead) as [l Hl].
      rewrite Hl. cbn [map flat_map fst snd]. unfold lit.
      fold explainPlaceholder. cbn [run].
      rewrite (prefixCI_same explainPlaceholder ph ws2 Hlong).
      rewrite (skipn_same explainPlaceholder ph ws2 Hlong).
      reflexivity. }
    rewrite app_assoc.
    unfold replaceEmpty.
    rewrite (scan_hit yesNoRegex (ws1 ++ ph) ws2 None);
      [|rewrite Hshape; destruct ws1; discriminate | exact Hhit].
    cbn [flat_map app]. apply (replaceEmpty_allSpace yesNoRegex ws2 H2).
Qed.

End YesNo.

Section SliceVerdicts.

#[local] Open Scope list_scope.

Lemma questionRegex_slice (q q' : Question) :
  nextQuestion q = Some q' ->
  questionRegex q = sliceRegex (headerText q) (headerName q').
Proof.
  destruct q; intros H; try discriminate; injection H as <-; reflexivity.
Qed.

Lemma questionStrip_slice (q q' : Question) (s : jsstring) :
  nextQuestion q = Some q' -> questionStrip q s = s.
Proof. destruct q; intros H; try discriminate; reflexivity. Qed.

(** A pattern that opens with a literal fails where the literal does. *)
Lemma exec_header_fails (hdr s : jsstring) (r : regex) :
  prefixCI hdr s = false -> exec (RLit hdr ;;; r) s = None.
Proof. intros H. unfold exec. cbn [run]. now rewrite H. Qed.

Lemma allSpace_nonword (ws : jsstring) :
  allSpace ws = true -> forallb (fun c => negb (isWord c)) ws = true.
Proof.
  unfold allSpace. rewrite !forallb_forall. intros H c Hc.
  now rewrite (isSpace_not_word c (H c Hc)).
Qed.

Lemma suffixesClash_spaces_header (q : Question) (ws s : jsstring) :
  allSpace ws = true -> suffixesClash (headerName q) s = true ->
  suffixesClash (headerName q) (ws ++ s) = true.
Proof.
  destruct q; apply suffixesClash_spaces; reflexivity.
Qed.

Lemma headerText_fails_nil (q : Question) : prefixCI (headerText q) [] = false.
Proof. destruct q; reflexivity. Qed.

(** The pattern of a question matches once in a description in which the
    header of the question occurs once, given its match there. *)
Lemma one_match (q : Question) (r : regex) (pre m tail : jsstring)
  (cap : option jsstring) :
  questionRegex q = RLit (headerText q) ;;; r ->
  occurrences (headerText q) (pre ++ m ++ tail) = [List.length pre] ->
  m <> [] ->
  exec (questionRegex q) (m ++ tail) = Some (tail, cap) ->
  exec (questionRegex q) m = Some ([], cap) ->
  jsMatch (questionRegex q) (pre ++ m ++ tail) = Some [m]
  /\ replaceGroup1 (questionRegex q) (arrayToString [m])
     = match cap with Some x => x | None => [] end.
Proof.
  intros Hq Hocc Hm Hexec Hexec0.
  assert (Hfail : forall a b, pre ++ m ++ tail = a ++ b ->
            List.length a <> List.length pre ->
            exec (questionRegex q) b = None).
  { intros a b Hab Hlen. rewrite Hq. apply exec_header_fails.
    rewrite Hab in Hocc. exact (occurrences_unique _ _ _ _ Hocc Hlen). }
  split.
  - unfold jsMatch. rewrite (scan_single (questionRegex q) pre m tail cap).
    + now rewrite hits_single.
    + intros a b -> Hb. apply (Hfail a); [now rewrite <- app_assoc|].
      rewrite length_app. destruct b; [now elim Hb | cbn [List.length]; lia].
    + exact Hm.
    + exact Hexec.
    + intros a b ->. apply (Hfail (pre ++ m ++ a)).
      * now rewrite <- !app_assoc.
      * rewrite !length_app. destruct m; [now elim Hm|].
        cbn [List.length]. lia.
  - cbn [arrayToString]. unfold replaceGroup1.
    pose proof (scan_single (questionRegex q) [] m [] cap) as Hs.
    cbn [app map] in Hs. rewrite app_nil_r in Hs. rewrite Hs.
    + cbn [flat_map]. destruct cap; now rewrite ?app_nil_r.
    + intros a b Hab Hb. destruct a; destruct b; try discriminate.
      now elim Hb.
    + exact Hm.
    + exact Hexec0.
    + intros a b Hab. destruct a; destruct b; try discriminate.
      rewrite Hq. apply exec_header_fails, headerText_fails_nil.
Qed.


End SliceVerdicts.

Section LastQuestion.

#[local] Open Scope list_scope.

Lemma forallb_any (s : jsstring) : forallb (inCls CAny) s = true.
Proof. induction s; [reflexivity | assumption]. Qed.

(** [.+] first takes everything. *)
Lemma plus_any_first (x : jsstring) (c : option jsstring) :
  x <> [] -> exists l, run (RPlus CAny) x c = ([], c) :: l.
Proof.
  destruct x as [|a x]; intros Hx; [now elim Hx|]. cbn [run inCls].
  destruct (star_first CAny x [] (forallb_any x) I) as [l Hl].
  rewrite app_nil_r in Hl. rewrite Hl. cbn [map]. eauto.
Qed.

Lemma cyber_exec (hdr' x : jsstring) :
  sameCI hdr' (headerText CyberSecurity) -> x <> [] ->
  exec cyberSecurityRegex (hdr' ++ x) = Some ([], Some x).
Proof.
  intros Hhdr Hx. unfold exec.
  change cyberSecurityRegex
    with (RLit (headerText CyberSecurity) ;;; RGroup (RPlus CAny)).
  rewrite run_seq.
  change (run (RLit (headerText CyberSecurity)) (hdr' ++ x) None)
    with (if prefixCI (headerText CyberSecurity) (hdr' ++ x)
          then [(skipn (List.length (headerText CyberSecurity)) (hdr' ++ x),
                 @None (list N))]
          else []).
  rewrite (prefixCI_same _ hdr' x Hhdr), (skipn_same _ hdr' x Hhdr).
  cbn [flat_map fst snd]. rewrite app_nil_r, run_group.
  destruct (plus_any_first x None Hx) as [l Hl]. rewrite Hl.
  cbn [map hd_error fst List.length]. now rewrite Nat.sub_0_r, firstn_all.
Qed.

Lemma hd_flat_map {A B} (f : A -> list B) (l : list A) (y : B) :
  hd_error (flat_map f l) = Some y ->
  exists x, In x l /\ hd_error (f x) = Some y.
Proof.
  induction l as [|x l IH]; cbn [flat_map]; intros H; [discriminate|].
  destruct (f x) as [|z zs] eqn:Hf.
  - destruct (IH H) as [x' [Hin Hx']]. exists x'. split; [now right|exact Hx'].
  - exists x. split; [now left|]. now rewrite Hf.
Qed.

(** A match of the signature pattern runs to the end of the text. *)
Lemma engineer_to_end (s t : jsstring) (c : option jsstring) :
  exec engineerRegex s = Some (t, c) -> t = [].
Proof.
  unfold exec, engineerRegex. rewrite run_seq. intros H.
  apply hd_flat_map in H. destruct H as [[t1 c1] [_ H]]. cbn [fst snd] in H.
  rewrite run_seq in H.
  apply hd_flat_map in H. destruct H as [[t2 c2] [_ H]]. cbn [fst snd] in H.
  rewrite run_seq in H.
  apply hd_flat_map in H. destruct H as [[t3 c3] [_ H]]. cbn [fst snd] in H.
  destruct t3 as [|a t3]; [discriminate|].
  destruct (plus_any_first (a :: t3) c3) as [l Hl]; [discriminate|].
  rewrite Hl in H. now injection H.
Qed.

Lemma engineer_nil : exec engineerRegex [] = None.
Proof. reflexivity. Qed.


(** On a signature the pattern succeeds. *)
Lemma engineer_on_signature (sig : jsstring) :
  signature sig -> exec engineerRegex sig <> None.
Proof.
  intros (stars & gap & word & more & -> & Hstars & Hgap & Hword & Hmore).
  destruct (sameCI_cons_inv _ _ _ Hword) as (e & word' & Hw & He & _).
  assert (Hletter : e = 69%N \/ e = 101%N).
  { change (canon (N_of_ascii "E")) with 69%N in He. revert He.
    unfold canon.
    destruct ((97 <=? e)%N && (e <=? 122)%N) eqn:Hrange; [|now left].
    intros He. right. apply andb_true_iff in Hrange.
    destruct Hrange as [H97 _]. apply N.leb_le in H97. lia. }
  unfold exec, engineerRegex. rewrite run_seq.
  change (chr "*") with (CChar 42%N).
  change (run (RStar (CChar 42%N)) (stars ++ gap ++ word ++ more) None)
    with (map (fun t => (t, @None (list N)))
              (star (CChar 42%N) (stars ++ gap ++ word ++ more))).
  destruct (star_first (CChar 42%N) stars (gap ++ word ++ more)) as [l1 Hl1].
  { apply forallb_forall. intros x Hx.
    rewrite forallb_forall in Hstars. specialize (Hstars x Hx).
    apply N.eqb_eq in Hstars. now subst x. }
  { destruct gap as [|g gap].
    - rewrite Hw. cbn [app]. destruct Hletter as [->| ->]; reflexivity.
    - cbn [app inCls]. cbn [allSpace forallb] in Hgap.
      apply andb_true_iff in Hgap. destruct Hgap as [Hg _].
      exact (space_differ 42%N g eq_refl Hg). }
  rewrite Hl1. cbn [map flat_map fst snd]. rewrite run_seq.
  change (run (RStar CSpace) (gap ++ word ++ more) None)
    with (map (fun t => (t, @None (list N)))
              (star CSpace (gap ++ word ++ more))).
  destruct (star_first CSpace gap (word ++ more) Hgap) as [l2 Hl2].
  { rewrite Hw. cbn [app]. destruct Hletter as [->| ->]; reflexivity. }
  rewrite Hl2. cbn [map flat_map fst snd]. rewrite run_seq.
  change (run (lit "Engineer") (word ++ more) None)
    with (if prefixCI (codeUnits "Engineer") (word ++ more)
          then [(skipn (List.length (codeUnits "Engineer")) (word ++ more),
                 @None (list N))]
          else []).
  rewrite (prefixCI_same _ word more Hword), (skipn_same _ word more Hword).
  cbn [flat_map fst snd].
  destruct (plus_any_first more None Hmore) as [l3 Hl3]. rewrite Hl3.
  cbn [app hd_error]. discriminate.
Qed.

(** A pattern whose matches run to the end removes a suffix: in front of
    a text on which it succeeds, a prefix of what precedes is kept. *)
Lemma scan_until_end (r : regex) (ws sig : jsstring) :
  (forall s t c, exec r s = Some (t, c) -> t = []) ->
  exec r [] = None ->
  exec r sig <> None -> sig <> [] ->
  exists k k', ws = k ++ k' /\ replaceEmpty r (ws ++ sig) = k.
Proof.
  intros Hend Hnil Hsig Hne.
  assert (Hwhole : forall s c, s <> [] -> exec r s = Some ([], c) ->
            replaceEmpty r s = []).
  { intros s c Hs He. unfold replaceEmpty.
    rewrite <- (app_nil_r s) at 1.
    rewrite (scan_hit r s [] c Hs); [|now rewrite app_nil_r].
    cbn [flat_map scan]. now rewrite Hnil. }
  induction ws as [|x ws IH].
  - exists [], []. split; [reflexivity|]. cbn [app].
    destruct (exec r sig) as [[t c]|] eqn:He; [|now elim Hsig].
    pose proof (Hend _ _ _ He) as ->. exact (Hwhole sig c Hne He).
  - destruct (exec r (x :: ws ++ sig)) as [[t c]|] eqn:He.
    + pose proof (Hend _ _ _ He) as ->. exists [], (x :: ws).
      split; [reflexivity|].
      apply (Hwhole ((x :: ws) ++ sig) c); [discriminate | exact He].
    + destruct IH as (k & k' & Hk & Hr). exists (x :: k), k'.
      split; [now rewrite Hk|].
      unfold replaceEmpty. cbn [app]. rewrite (scan_miss r x _ He).
      cbn [flat_map app]. f_equal. exact Hr.
Qed.



End LastQuestion.

(* ================================================================== *)
(** ** Facts about answers *)
(* ================================================================== *)

Section MoreCharacters.

#[local] Open Scope list_scope.

Lemma char_differs (p c : N) :
  (p < 65)%N -> c <> p -> N.eqb (canon p) (canon c) = false.
Proof.
  intros Hp Hc. apply N.eqb_neq. intros Heq. apply Hc.
  apply (canon_fixed c p); [|now left].
  rewrite <- Heq. unfold canon.
  destruct (N.leb_spec 97 p); [lia | reflexivity].
Qed.

Lemma word_not_space (w : N) : isWord w = true -> isSpace w = false.
Proof.
  intros Hw. destruct (isSpace w) eqn:Hs; [|reflexivity].
  apply isSpace_not_word in Hs. congruence.
Qed.

Lemma word_not_star (w : N) :
  isWord w = true -> inCls (CChar 42%N) w = false.
Proof.
  intros Hw. cbn [inCls]. apply char_differs; [reflexivity|].
  intros ->. discriminate.
Qed.

Lemma word_not_gt (w : N) :
  isWord w = true -> inCls (CChar 62%N) w = false.
Proof.
  intros Hw. cbn [inCls]. apply char_differs; [reflexivity|].
  intros ->. discriminate.
Qed.

Lemma prefixCI_longer (l s t : jsstring) :
  prefixCI l s = true -> prefixCI l (s ++ t) = true.
Proof.
  revert s. induction l as [|p l IH]; intros [|c s]; simpl;
    try reflexivity; try discriminate.
  intros H. apply andb_true_iff in H. destruct H as [-> H]. now apply IH.
Qed.

Lemma prefixCI_shorter (l s t : jsstring) :
  prefixCI l (s ++ t) = false -> prefixCI l s = false.
Proof.
  intros H. destruct (prefixCI l s) eqn:Hs; [|reflexivity].
  now rewrite (prefixCI_longer l s t Hs) in H.
Qed.

Lemma prefixCI_within (l s t : jsstring) :
  List.length l <= List.length s -> prefixCI l (s ++ t) = prefixCI l s.
Proof.
  revert s. induction l as [|p l IH]; intros [|c s] H; simpl in *;
    try reflexivity; [lia|].
  rewrite IH by lia. reflexivity.
Qed.

Lemma app_same_length {A} (a b a' b' : list A) :
  a' ++ b' = a ++ b -> List.length a = List.length a' ->
  a = a' /\ b = b'.
Proof.
  revert a'. induction a as [|x a IH]; intros [|y a'] H Hl;
    try discriminate; [now split|].
  cbn [app] in H. injection H as -> H. cbn [List.length] in Hl.
  destruct (IH a' H) as [-> ->]; [lia | now split].
Qed.

Lemma hd_error_app {A} (l1 l2 : list A) (x : A) :
  hd_error l1 = Some x -> hd_error (l1 ++ l2) = Some x.
Proof. destruct l1; [discriminate | easy]. Qed.

End MoreCharacters.

Section AnswerSlices.

#[local] Open Scope list_scope.

Variable nxt : jsstring.

Lemma sliceRegex_body (hdr : jsstring) :
  sliceRegex hdr nxt = RLit hdr ;;; ROpt (CChar 42%N) ;;; sliceBody nxt.
Proof. reflexivity. Qed.

(** At the end of the answer the rest of the pattern succeeds: it takes
    a [>] into the group if one is there, passes the non-word code units
    and reads the next header. *)
Lemma afterLazy_hit (u v nxt' tail : jsstring) :
  nonWord v = true ->
  sameCI nxt' nxt ->
  match nxt' with c :: _ => isWord c = true | [] => False end ->
  exists l,
    afterLazy nxt (u ++ v ++ nxt' ++ tail) (v ++ nxt' ++ tail)
    = (tail, Some (u ++ closing v)) :: l.
Proof.
  intros Hv Hsame Hhead. unfold closing.
  destruct v as [|c v'].
  - (* the next header follows at once *)
    rewrite app_nil_r. cbn [app]. unfold afterLazy.
    assert (Hopt : run (ROpt (CChar 62%N)) (nxt' ++ tail) None
                   = [(nxt' ++ tail, None)]).
    { destruct nxt' as [|x nxt'']; [destruct Hhead|]. cbn [app run].
      now rewrite (word_not_gt x Hhead). }
    rewrite Hopt. cbn [flat_map fst snd]. rewrite firstn_rest, app_nil_r.
    rewrite run_seq.
    change (run (RStar CNotWord) (nxt' ++ tail) ?c)
      with (map (fun t => (t, c)) (star CNotWord (nxt' ++ tail))).
    rewrite flat_map_map.
    destruct (star_first CNotWord [] (nxt' ++ tail) eq_refl) as [l Hl].
    { destruct nxt' as [|x nxt'']; [destruct Hhead|]. cbn [app inCls].
      now rewrite Hhead. }
    cbn [app] in Hl. rewrite Hl. cbn [flat_map fst snd run].
    rewrite (prefixCI_same nxt nxt' tail Hsame).
    rewrite (skipn_same nxt nxt' tail Hsame).
    cbn [app]. eexists. reflexivity.
  - unfold nonWord in Hv. cbn [forallb] in Hv.
    apply andb_true_iff in Hv. destruct Hv as [Hc Hv'].
    destruct (N.eqb_spec c 62) as [->|Hne].
    + destruct (afterLazy_succeeds nxt u v' nxt' tail Hv' Hsame Hhead)
        as [l Hl].
      exists l. rewrite <- Hl. f_equal. rewrite <- !app_assoc. reflexivity.
    + rewrite app_nil_r. unfold afterLazy.
      assert (Hopt : run (ROpt (CChar 62%N)) ((c :: v') ++ nxt' ++ tail) None
                     = [((c :: v') ++ nxt' ++ tail, None)]).
      { cbn [app run inCls].
        now rewrite (char_differs 62%N c eq_refl Hne). }
      rewrite Hopt. cbn [flat_map fst snd]. rewrite firstn_rest, app_nil_r.
      rewrite run_seq.
      change (run (RStar CNotWord) ((c :: v') ++ nxt' ++ tail) ?k)
        with (map (fun t => (t, k))
                  (star CNotWord ((c :: v') ++ nxt' ++ tail))).
      rewrite flat_map_map.
      destruct (star_first CNotWord (c :: v') (nxt' ++ tail)) as [l Hl].
      { cbn [forallb inCls]. rewrite Hc. exact Hv'. }
      { destruct nxt' as [|x nxt'']; [destruct Hhead|]. cbn [app inCls].
        now rewrite Hhead. }
      rewrite Hl. cbn [flat_map fst snd run].
      rewrite (prefixCI_same nxt nxt' tail Hsame).
      rewrite (skipn_same nxt nxt' tail Hsame).
      cbn [app]. eexists. reflexivity.
Qed.

(** Inside the answer the rest of the pattern fails, as long as a word
    character lies ahead and the next header starts nowhere before it. *)
Lemma afterLazy_misses (x s0 rest : jsstring) (w : N) :
  isWord w = true ->
  (forall a b, s0 ++ [w] = a ++ b -> b <> [] ->
               prefixCI nxt (b ++ rest) = false) ->
  afterLazy nxt x (s0 ++ w :: rest) = [].
Proof.
  intros Hw Hfree. unfold afterLazy.
  apply flat_map_none. intros [t0 c0] H0. cbn [fst snd].
  rewrite run_seq.
  change (run (RStar CNotWord) t0 ?c)
    with (map (fun t => (t, c)) (star CNotWord t0)).
  rewrite flat_map_map. apply flat_map_none. intros t2 H2. cbn [fst snd run].
  destruct (star_suffix _ _ _ H2) as [p [Hp Hnw]].
  change (forallb (fun c => negb (isWord c)) p = true) in Hnw.
  assert (Hsplit : exists p', s0 ++ w :: rest = p' ++ t2
                     /\ forallb (fun c => negb (isWord c)) p' = true).
  { destruct (opt_results _ _ _ _ _ H0) as [->|[g [Hg Hin]]].
    - exists p. now split.
    - exists (g :: p). rewrite Hg, Hp. split; [reflexivity|].
      cbn [forallb]. rewrite Hnw, andb_true_r.
      cbn [inCls] in Hin. apply N.eqb_eq in Hin.
      assert (g = 62%N) as -> by (apply (canon_fixed g 62%N);
                                  [now symmetry|left; reflexivity]).
      reflexivity. }
  destruct Hsplit as [p' [Hsplit Hp']].
  destruct (stops_at (fun c => negb (isWord c)) _ _ _ _ _ Hsplit Hp')
    as [s' [-> Hs0]]; [now rewrite Hw|].
  replace (s' ++ w :: rest) with ((s' ++ [w]) ++ rest)
    by (now rewrite <- app_assoc).
  rewrite (Hfree p' (s' ++ [w])).
  - reflexivity.
  - rewrite Hs0. now rewrite <- app_assoc.
  - destruct s'; discriminate.
Qed.

(** The first success of the body of a slice pattern on an answer [u],
    once the candidates inside [u] have failed. *)
Lemma body_first (u v nxt' tail : jsstring) :
  u <> [] ->
  (forall s, In s (inner u) ->
             afterLazy nxt (u ++ v ++ nxt' ++ tail) (s ++ v ++ nxt' ++ tail)
             = []) ->
  nonWord v = true ->
  sameCI nxt' nxt ->
  match nxt' with c :: _ => isWord c = true | [] => False end ->
  hd_error (run (sliceBody nxt) (u ++ v ++ nxt' ++ tail) None)
  = Some (tail, Some (u ++ closing v)).
Proof.
  intros Hu Hinner Hv Hsame Hhead. unfold sliceBody.
  change (chr ">") with (CChar 62%N). rewrite slice_body.
  rewrite (plusLazy_any u (v ++ nxt' ++ tail) Hu).
  rewrite flat_map_skip.
  - cbn [flat_map].
    destruct (afterLazy_hit u v nxt' tail Hv Hsame Hhead) as [l ->].
    reflexivity.
  - intros t Ht. apply in_map_iff in Ht. destruct Ht as [s [<- Hs]].
    now apply Hinner.
Qed.

(** The answer ends with a word character. *)
Lemma body_word (u0 v nxt' tail : jsstring) (w : N) :
  isWord w = true ->
  (forall a b, u0 ++ [w] = a ++ b -> a <> [] -> b <> [] ->
               prefixCI nxt (b ++ v ++ nxt' ++ tail) = false) ->
  nonWord v = true ->
  sameCI nxt' nxt ->
  match nxt' with c :: _ => isWord c = true | [] => False end ->
  hd_error (run (sliceBody nxt) ((u0 ++ [w]) ++ v ++ nxt' ++ tail) None)
  = Some (tail, Some ((u0 ++ [w]) ++ closing v)).
Proof.
  intros Hw Hfree Hv Hsame Hhead.
  apply body_first; try assumption; [destruct u0; discriminate|].
  intros s Hs. destruct (inner_suffix _ _ Hs) as [a [Ha [Hane Hne]]].
  destruct (exists_last Hne) as [s0 [y Hy]].
  assert (y = w) as ->.
  { rewrite Hy in Ha. rewrite app_assoc in Ha.
    now apply app_inj_tail in Ha. }
  subst s.
  replace ((s0 ++ [w]) ++ v ++ nxt' ++ tail)
    with (s0 ++ w :: v ++ nxt' ++ tail) by (now rewrite <- app_assoc).
  apply afterLazy_misses; [exact Hw|].
  intros a' b' Hab Hb'. apply (Hfree (a ++ a') b'); [|destruct a; [now elim Hane|discriminate]|exact Hb'].
  rewrite Ha, Hab. now rewrite app_assoc.
Qed.

(** The whole slice pattern on a header, an optional star and a text on
    which the body succeeds. *)
Lemma slice_exec_body (hdr hdr' st x : jsstring) (r : mstate) :
  sameCI hdr' hdr ->
  st = [42%N]
  \/ (st = [] /\ match x with c :: _ => c <> 42%N | [] => True end) ->
  hd_error (run (sliceBody nxt) x None) = Some r ->
  exec (sliceRegex hdr nxt) (hdr' ++ st ++ x) = Some r.
Proof.
  intros Hhdr Hst Hbody. unfold exec. rewrite sliceRegex_body, run_seq.
  change (run (RLit hdr) (hdr' ++ st ++ x) None)
    with (if prefixCI hdr (hdr' ++ st ++ x)
          then [(skipn (List.length hdr) (hdr' ++ st ++ x), @None (list N))]
          else []).
  rewrite (prefixCI_same hdr hdr' _ Hhdr), (skipn_same hdr hdr' _ Hhdr).
  cbn [flat_map fst snd]. rewrite app_nil_r, run_seq.
  destruct Hst as [->|[-> Hx]].
  - change (run (ROpt (CChar 42%N)) ([42%N] ++ x) None)
      with [(x, @None (list N)); (42%N :: x, None)].
    cbn [flat_map fst snd]. now apply hd_error_app.
  - cbn [app].
    assert (Hopt : run (ROpt (CChar 42%N)) x None = [(x, None)]).
    { destruct x as [|c x']; [reflexivity|]. cbn [run inCls].
      now rewrite (char_differs 42%N c eq_refl Hx). }
    rewrite Hopt. cbn [flat_map fst snd]. now rewrite app_nil_r.
Qed.

End AnswerSlices.

Section Verdicts.

#[local] Open Scope list_scope.

(** What a block finds, given the single match of its pattern. *)
Lemma verdict_of_match (q : Question) (r : regex) (pre m tail cap : jsstring) :
  questionRegex q = RLit (headerText q) ;;; r ->
  occurrences (headerText q) (pre ++ m ++ tail) = [List.length pre] ->
  m <> [] ->
  exec (questionRegex q) (m ++ tail) = Some (tail, Some cap) ->
  exec (questionRegex q) m = Some ([], Some cap) ->
  verdict q (pre ++ m ++ tail)
  = if test fillCheckRegex (replaceEmpty yesNoRegex (questionStrip q cap))
    then Answered else Blank.
Proof.
  intros Hq Hocc Hm He He0.
  destruct (one_match q r pre m tail (Some cap) Hq Hocc Hm He He0)
    as [Hmatch Hgroup].
  unfold verdict, answerLeft. now rewrite Hmatch, Hgroup.
Qed.

(** The verdict on one of the first four questions, given the first
    success of the body of its pattern after the header. *)
Lemma slice_verdict (q q' : Question) (pre hdr st x nxt' tail cap : jsstring) :
  nextQuestion q = Some q' ->
  sameCI hdr (headerText q) ->
  x <> [] ->
  st = [42%N]
  \/ (st = [] /\ match x with c :: _ => c <> 42%N | [] => True end) ->
  (forall t, hd_error (run (sliceBody (headerName q')) (x ++ nxt' ++ t) None)
             = Some (t, Some cap)) ->
  occurrences (headerText q) (pre ++ hdr ++ st ++ x ++ nxt' ++ tail)
  = [List.length pre] ->
  verdict q (pre ++ hdr ++ st ++ x ++ nxt' ++ tail)
  = if test fillCheckRegex (replaceEmpty yesNoRegex cap)
    then Answered else Blank.
Proof.
  intros Hnext Hhdr Hx Hst Hbody Hocc.
  assert (Hexec : forall t,
            exec (questionRegex q) ((hdr ++ st ++ x ++ nxt') ++ t)
            = Some (t, Some cap)).
  { intros t. rewrite (questionRegex_slice q q' Hnext).
    replace ((hdr ++ st ++ x ++ nxt') ++ t)
      with (hdr ++ st ++ (x ++ nxt' ++ t))
      by (now rewrite <- !app_assoc).
    apply slice_exec_body; [exact Hhdr| |apply Hbody].
    destruct Hst as [->|[-> Hc]]; [now left|right].
    split; [reflexivity|]. destruct x; [now elim Hx | exact Hc]. }
  replace (pre ++ hdr ++ st ++ x ++ nxt' ++ tail)
    with (pre ++ (hdr ++ st ++ x ++ nxt') ++ tail) in *
    by (now rewrite <- !app_assoc).
  rewrite (verdict_of_match q _ pre (hdr ++ st ++ x ++ nxt') tail cap
             (questionRegex_slice q q' Hnext) Hocc).
  - now rewrite (questionStrip_slice q q' _ Hnext).
  - destruct hdr; [|discriminate]. apply sameCI_length in Hhdr.
    destruct q; discriminate.
  - apply Hexec.
  - specialize (Hexec []). now rewrite app_nil_r in Hexec.
Qed.

End Verdicts.

Section Keeping.

#[local] Open Scope list_scope.

Lemma star_nonempty (a : cls) (s : jsstring) : star a s <> [].
Proof.
  destruct s as [|c s]; cbn [star]; [discriminate|].
  destruct (inCls a c); [|discriminate].
  intros H. apply app_eq_nil in H. destruct H. discriminate.
Qed.

(** [/(\S+)/.test] finds a code unit that is not white space. *)
Lemma fillCheck_finds (s : jsstring) (c : N) :
  In c s -> isSpace c = false -> test fillCheckRegex s = true.
Proof.
  induction s as [|x s IH]; intros Hin Hc; [destruct Hin|].
  cbn [test]. destruct (exec fillCheckRegex (x :: s)) eqn:He; [reflexivity|].
  destruct Hin as [->|Hin]; [|now apply IH].
  exfalso. revert He. unfold exec, fillCheckRegex. cbn [run inCls].
  rewrite Hc. cbn [negb].
  pose proof (star_nonempty CNotSpace s) as Hs.
  destruct (star CNotSpace s); [now elim Hs | discriminate].
Qed.

Lemma lt_fails (l s : jsstring) (x : N) :
  x <> 60%N -> prefixCI (60%N :: l) (x :: s) = false.
Proof.
  intros Hx. cbn [prefixCI]. now rewrite (char_differs 60 x eq_refl Hx).
Qed.

Lemma replaceEmpty_prefix (r : regex) (p rest : jsstring) :
  (forall a b, p = a ++ b -> b <> [] -> exec r (b ++ rest) = None) ->
  replaceEmpty r (p ++ rest) = p ++ replaceEmpty r rest.
Proof.
  intros H. unfold replaceEmpty. rewrite (scan_misses r p rest H).
  apply (replaceEmpty_keep r).
Qed.

(** A text without [<] that ends with a code unit other than white space
    is out of reach of [yesNoRegex]. *)
Lemma yesNo_keeps_prefix (u0 rest : jsstring) (c : N) :
  (forall x, In x (u0 ++ [c]) -> x <> 60%N) ->
  isSpace c = false ->
  replaceEmpty yesNoRegex ((u0 ++ [c]) ++ rest)
  = (u0 ++ [c]) ++ replaceEmpty yesNoRegex rest.
Proof.
  intros Hlt Hc. apply replaceEmpty_prefix. intros a b Hab Hb.
  destruct (exists_last Hb) as [b0 [y Hy]].
  assert (y = c) as ->.
  { rewrite Hy, app_assoc in Hab. now apply app_inj_tail in Hab. }
  subst b.
  assert (Hlt' : forall x, In x (b0 ++ [c]) -> x <> 60%N).
  { intros x Hx. apply Hlt. rewrite Hab. apply in_or_app. now right. }
  unfold exec, yesNoRegex. cbn [run].
  replace (flat_map _ (map _ (star CSpace ((b0 ++ [c]) ++ rest)))) with (@nil mstate).
  - cbn [app]. unfold lit.
    change (codeUnits "<yes/no>") with (60%N :: codeUnits "yes/no>").
    destruct b0 as [|x b0']; cbn [app run flat_map];
      rewrite lt_fails; try reflexivity;
      apply Hlt'; now left.
  - symmetry. rewrite flat_map_map. apply flat_map_none.
    intros t Ht. cbn [fst snd].
    destruct (star_suffix _ _ _ Ht) as [p [Hp Hsp]].
    change (forallb isSpace p = true) in Hsp.
    rewrite <- app_assoc in Hp. cbn [app] in Hp.
    destruct (stops_at isSpace _ _ _ _ _ Hp Hsp Hc) as [s' [-> Hb0]].
    unfold lit.
    change (codeUnits "<yes or no. if yes, explain why>")
      with (60%N :: codeUnits "yes or no. if yes, explain why>").
    assert (Hhead : exists x s, s' ++ c :: rest = x :: s /\ x <> 60%N).
    { destruct s' as [|x s''].
      - exists c, rest. split; [reflexivity|]. apply Hlt'.
        apply in_or_app. right. now left.
      - exists x, (s'' ++ c :: rest). split; [reflexivity|]. apply Hlt'.
        rewrite Hb0. apply in_or_app. left. apply in_or_app. right. now left. }
    destruct Hhead as (x & s & -> & Hx). cbn [run].
    now rewrite (lt_fails _ s x Hx).
Qed.

(** A text that ends with a word character and in which "Engineer" starts
    nowhere is out of reach of the signature pattern. *)
Lemma engineer_keeps_prefix (u0 rest : jsstring) (w : N) :
  isWord w = true ->
  (forall a b, u0 ++ [w] = a ++ b -> b <> [] ->
               prefixCI (codeUnits "Engineer") (b ++ rest) = false) ->
  replaceEmpty engineerRegex ((u0 ++ [w]) ++ rest)
  = (u0 ++ [w]) ++ replaceEmpty engineerRegex rest.
Proof.
  intros Hw Hfree. apply replaceEmpty_prefix. intros a b Hab Hb.
  destruct (exists_last Hb) as [b0 [y Hy]].
  assert (y = w) as ->.
  { rewrite Hy, app_assoc in Hab. now apply app_inj_tail in Hab. }
  subst b. unfold exec, engineerRegex. rewrite run_seq.
  change (chr "*") with (CChar 42%N).
  change (run (RStar (CChar 42%N)) ((b0 ++ [w]) ++ rest) None)
    with (map (fun t => (t, @None (list N)))
              (star (CChar 42%N) ((b0 ++ [w]) ++ rest))).
  rewrite flat_map_map, flat_map_none; [reflexivity|].
  intros t1 H1. cbn [fst snd].
  destruct (star_suffix _ _ _ H1) as [p1 [Hp1 Hs1]].
  rewrite <- app_assoc in Hp1. cbn [app] in Hp1.
  destruct (stops_at (inCls (CChar 42%N)) _ _ _ _ _ Hp1 Hs1
              (word_not_star w Hw)) as [s1 [-> Hb0]].
  rewrite run_seq.
  change (run (RStar CSpace) (s1 ++ w :: rest) None)
    with (map (fun t => (t, @None (list N)))
              (star CSpace (s1 ++ w :: rest))).
  rewrite flat_map_map. apply flat_map_none.
  intros t2 H2. cbn [fst snd].
  destruct (star_suffix _ _ _ H2) as [p2 [Hp2 Hs2]].
  destruct (stops_at (inCls CSpace) _ _ _ _ _ Hp2 Hs2 (word_not_space w Hw))
    as [s2 [-> Hs1']].
  rewrite run_seq. unfold lit. cbn [run].
  replace (s2 ++ w :: rest) with ((s2 ++ [w]) ++ rest)
    by (now rewrite <- app_assoc).
  rewrite (Hfree (a ++ p1 ++ p2) (s2 ++ [w])).
  - reflexivity.
  - rewrite Hab, Hb0, Hs1'. now rewrite <- !app_assoc.
  - destruct s2; discriminate.
Qed.

(** The verdict on the last question: the answer is everything after the
    header. *)
Lemma cyber_verdict (pre hdr x : jsstring) :
  sameCI hdr (headerText CyberSecurity) -> x <> [] ->
  occurrences (headerText CyberSecurity) (pre ++ hdr ++ x)
  = [List.length pre] ->
  verdict CyberSecurity (pre ++ hdr ++ x)
  = if test fillCheckRegex
            (replaceEmpty yesNoRegex (replaceEmpty engineerRegex x))
    then Answered else Blank.
Proof.
  intros Hhdr Hx Hocc.
  pose proof (cyber_exec hdr x Hhdr Hx) as Hexec.
  replace (pre ++ hdr ++ x) with (pre ++ (hdr ++ x) ++ []) in *
    by (now rewrite app_nil_r).
  apply (verdict_of_match CyberSecurity (RGroup (RPlus CAny)) pre (hdr ++ x)
           [] x eq_refl Hocc).
  - destruct hdr; [|discriminate]. apply sameCI_length in Hhdr.
    discriminate.
  - now rewrite app_nil_r.
  - exact Hexec.
Qed.

(** Where the literal is found, it occurs. *)
Lemma occurrences_hit (l a b : jsstring) :
  prefixCI l b = true -> In (List.length a) (occurrences l (a ++ b)).
Proof. intros H. exact (positions_hit l a b 0 H). Qed.

Lemma plusLazy_suffix (x t : jsstring) :
  In t (plusLazy CAny x) -> exists p, x = p ++ t /\ p <> [].
Proof.
  revert t. induction x as [|c x IH]; intros t H; [destruct H|].
  cbn [plusLazy inCls] in H. destruct H as [<-|H].
  - exists [c]. split; [reflexivity | discriminate].
  - destruct (IH _ H) as [p [-> _]]. exists (c :: p).
    split; [reflexivity | discriminate].
Qed.

End Keeping.

(* ================================================================== *)
(** ** Letter case *)
(* ================================================================== *)

Section LetterCase.

#[local] Open Scope list_scope.

Lemma sameCI_refl (s : jsstring) : sameCI s s.
Proof. reflexivity. Qed.

Lemma sameCI_nil_l (s : jsstring) : sameCI [] s -> s = [].
Proof. unfold sameCI. destruct s; [reflexivity | discriminate]. Qed.

Lemma sameCI_cons (c c' : N) (s s' : jsstring) :
  canon c = canon c' -> sameCI s s' -> sameCI (c :: s) (c' :: s').
Proof. unfold sameCI. cbn [map]. now intros -> ->. Qed.

Lemma sameCI_inv (s s' : jsstring) :
  sameCI s s' ->
  match s, s' with
  | [], [] => True
  | c :: t, c' :: t' => canon c = canon c' /\ sameCI t t'
  | _, _ => False
  end.
Proof.
  unfold sameCI. destruct s, s'; cbn [map]; intros H;
    try discriminate; [exact I|].
  injection H as H1 H2. now split.
Qed.

Lemma inCls_canon (a : cls) (c c' : N) :
  canon c = canon c' -> inCls a c = inCls a c'.
Proof.
  intros H. destruct a; cbn [inCls].
  - now rewrite H.
  - reflexivity.
  - now rewrite <- (isWord_canon c), H, isWord_canon.
  - now rewrite <- (isSpace_canon c), H, isSpace_canon.
  - now rewrite <- (isSpace_canon c), H, isSpace_canon.
Qed.

Lemma prefixCI_sameCI (l s s' : jsstring) :
  sameCI s s' -> prefixCI l s = prefixCI l s'.
Proof.
  unfold sameCI. intros H.
  now rewrite <- (prefixCI_canon l s), H, prefixCI_canon.
Qed.

Lemma skipn_sameCI (n : nat) (s s' : jsstring) :
  sameCI s s' -> sameCI (skipn n s) (skipn n s').
Proof. unfold sameCI. intros H. now rewrite <- !skipn_map, H. Qed.

Lemma firstn_sameCI (n : nat) (s s' : jsstring) :
  sameCI s s' -> sameCI (firstn n s) (firstn n s').
Proof. unfold sameCI. intros H. now rewrite <- !firstn_map, H. Qed.

Lemma star_sameCI (a : cls) (s s' : jsstring) :
  sameCI s s' -> Forall2 sameCI (star a s) (star a s').
Proof.
  revert s'. induction s as [|c s IH]; intros s' H.
  - apply sameCI_nil_l in H. subst s'. repeat constructor.
  - destruct s' as [|c' s']; [discriminate|].
    pose proof (sameCI_inv _ _ H) as [Hc Hs]. cbn [star].
    rewrite (inCls_canon a c c' Hc).
    destruct (inCls a c').
    + apply Forall2_app; [now apply IH|]. repeat constructor. exact H.
    + repeat constructor. exact H.
Qed.

Lemma plusLazy_sameCI (a : cls) (s s' : jsstring) :
  sameCI s s' -> Forall2 sameCI (plusLazy a s) (plusLazy a s').
Proof.
  revert s'. induction s as [|c s IH]; intros s' H.
  - apply sameCI_nil_l in H. subst s'. constructor.
  - destruct s' as [|c' s']; [discriminate|].
    pose proof (sameCI_inv _ _ H) as [Hc Hs]. cbn [plusLazy].
    rewrite (inCls_canon a c c' Hc).
    destruct (inCls a c'); [|constructor].
    constructor; [exact Hs | now apply IH].
Qed.

Lemma Forall2_map2 {A B A' B'} (R : A -> A' -> Prop) (Q : B -> B' -> Prop)
  (f : A -> B) (f' : A' -> B') (l : list A) (l' : list A') :
  (forall x x', R x x' -> Q (f x) (f' x')) ->
  Forall2 R l l' -> Forall2 Q (map f l) (map f' l').
Proof.
  intros Hf H. induction H; cbn [map]; constructor; auto.
Qed.

Lemma Forall2_flat_map2 {A B A' B'} (R : A -> A' -> Prop)
  (Q : B -> B' -> Prop) (f : A -> list B) (f' : A' -> list B')
  (l : list A) (l' : list A') :
  (forall x x', R x x' -> Forall2 Q (f x) (f' x')) ->
  Forall2 R l l' -> Forall2 Q (flat_map f l) (flat_map f' l').
Proof.
  intros Hf H. induction H; cbn [flat_map]; [constructor|].
  apply Forall2_app; auto.
Qed.

(** The matcher does not see letter case: on two subjects that are equal
    up to letter case it succeeds in the same ways. *)
Lemma run_sameCI (r : regex) :
  forall s s' c c',
    sameCI s s' -> sameCapture c c' ->
    Forall2 sameState (run r s c) (run r s' c').
Proof.
  induction r as [l|a|a|a|a|r1 IH1 r2 IH2|r1 IH1 r2 IH2|r IH];
    intros s s' c c' Hs Hc; cbn [run].
  - rewrite (prefixCI_sameCI l s s' Hs).
    destruct (prefixCI l s'); [|constructor].
    repeat constructor; cbn [fst snd]; [now apply skipn_sameCI | exact Hc].
  - destruct s as [|x s], s' as [|x' s'];
      try (apply sameCI_inv in Hs; now destruct Hs).
    + repeat constructor; assumption.
    + pose proof (sameCI_inv _ _ Hs) as [Hx Ht].
      rewrite (inCls_canon a x x' Hx).
      destruct (inCls a x'); repeat constructor; assumption.
  - apply (Forall2_map2 sameCI); [|now apply star_sameCI].
    intros t t' Ht. now split.
  - destruct s as [|x s], s' as [|x' s'];
      try (apply sameCI_inv in Hs; now destruct Hs).
    pose proof (sameCI_inv _ _ Hs) as [Hx Ht].
    rewrite (inCls_canon a x x' Hx).
    destruct (inCls a x'); [|constructor].
    apply (Forall2_map2 sameCI); [|now apply star_sameCI].
    intros t t' Ht'. now split.
  - apply (Forall2_map2 sameCI); [|now apply plusLazy_sameCI].
    intros t t' Ht. now split.
  - apply (Forall2_flat_map2 sameState); [|now apply IH1].
    intros [t k] [t' k'] [Ht Hk]. now apply IH2.
  - apply Forall2_app; [now apply IH1 | now apply IH2].
  - apply (Forall2_map2 sameState); [|now apply IH].
    intros [t k] [t' k'] [Ht Hk]. split; cbn [fst snd]; [exact Ht|].
    cbn [sameCapture]. cbn [fst] in Ht.
    rewrite (sameCI_length _ _ Hs), (sameCI_length _ _ Ht).
    now apply firstn_sameCI.
Qed.

Lemma exec_sameCI (r : regex) (s s' : jsstring) :
  sameCI s s' ->
  match exec r s, exec r s' with
  | Some st, Some st' => sameState st st'
  | None, None => True
  | _, _ => False
  end.
Proof.
  intros Hs. unfold exec.
  destruct (run_sameCI r s s' None None Hs I); cbn [hd_error];
    [exact I | assumption].
Qed.

Lemma scan_sameCI (r : regex) (s s' : jsstring) (k : nat) :
  sameCI s s' -> Forall2 sameSeg (scan r s k) (scan r s' k).
Proof.
  revert s' k. induction s as [|c s IH]; intros s' k Hs.
  - apply sameCI_nil_l in Hs. subst s'.
    induction (scan r [] k) as [|g l IHl]; constructor; [|exact IHl].
    destruct g as [x|t [cap|]]; cbn [sameSeg sameCapture];
      repeat split; reflexivity.
  - destruct s' as [|c' s']; [discriminate|].
    pose proof (sameCI_inv _ _ Hs) as [Hc Ht].
    destruct k as [|k]; cbn [scan]; [|now apply IH].
    pose proof (exec_sameCI r (c :: s) (c' :: s') Hs) as He.
    destruct (exec r (c :: s)) as [[rest cap]|],
             (exec r (c' :: s')) as [[rest' cap']|]; try now destruct He.
    + destruct He as [Hr Hcap]. cbn [fst snd] in Hr, Hcap.
      rewrite (sameCI_length _ _ Hs), (sameCI_length _ _ Hr).
      constructor.
      * split; [now apply firstn_sameCI | exact Hcap].
      * apply Forall2_app; [|now apply IH].
        destruct (Nat.eqb _ 0); repeat constructor. exact Hc.
    + constructor; [exact Hc | now apply IH].
Qed.

Lemma hits_sameCI (l l' : list seg) :
  Forall2 sameSeg l l' -> Forall2 sameCI (hits l) (hits l').
Proof.
  intros H. unfold hits.
  apply (Forall2_flat_map2 sameSeg); [|exact H].
  intros [c|t cap] [c'|t' cap'] Hg; try now destruct Hg.
  destruct Hg as [Ht _]. repeat constructor. exact Ht.
Qed.

Lemma concat_sameCI (l l' : list jsstring) :
  Forall2 sameCI l l' -> sameCI (concat l) (concat l').
Proof.
  intros H. induction H; cbn [concat]; [reflexivity|].
  now apply sameCI_app.
Qed.

Lemma flat_map_concat {A B} (f : A -> list B) (l : list A) :
  flat_map f l = concat (map f l).
Proof. induction l; cbn; [reflexivity | now f_equal]. Qed.

Lemma replaceGroup1_sameCI (r : regex) (s s' : jsstring) :
  sameCI s s' -> sameCI (replaceGroup1 r s) (replaceGroup1 r s').
Proof.
  intros Hs. unfold replaceGroup1. rewrite !flat_map_concat.
  apply concat_sameCI.
  apply (Forall2_map2 sameSeg); [|now apply scan_sameCI].
  intros [c|t cap] [c'|t' cap'] Hg; try now destruct Hg.
  - unfold sameCI. cbn [map]. cbn [sameSeg] in Hg. now rewrite Hg.
  - destruct Hg as [_ Hcap]. destruct cap, cap'; try now destruct Hcap.
    exact Hcap.
Qed.

Lemma replaceEmpty_sameCI (r : regex) (s s' : jsstring) :
  sameCI s s' -> sameCI (replaceEmpty r s) (replaceEmpty r s').
Proof.
  intros Hs. unfold replaceEmpty. rewrite !flat_map_concat.
  apply concat_sameCI.
  apply (Forall2_map2 sameSeg); [|now apply scan_sameCI].
  intros [c|t cap] [c'|t' cap'] Hg; try now destruct Hg.
  unfold sameCI. cbn [map]. cbn [sameSeg] in Hg. now rewrite Hg.
Qed.

Lemma test_sameCI (r : regex) (s s' : jsstring) :
  sameCI s s' -> test r s = test r s'.
Proof.
  revert s'. induction s as [|c s IH]; intros s' Hs.
  - apply sameCI_nil_l in Hs. now subst s'.
  - destruct s' as [|c' s']; [discriminate|].
    pose proof (sameCI_inv _ _ Hs) as [_ Ht]. cbn [test].
    pose proof (exec_sameCI r (c :: s) (c' :: s') Hs) as He.
    destruct (exec r (c :: s)), (exec r (c' :: s')); try now destruct He.
    now apply IH.
Qed.

Lemma arrayToString_sameCI (l l' : list jsstring) :
  Forall2 sameCI l l' -> sameCI (arrayToString l) (arrayToString l').
Proof.
  intros H. induction H as [|x x' l l' Hx Hl IH]; [reflexivity|].
  cbn [arrayToString]. destruct Hl as [|y y' l l' Hy Hl]; [exact Hx|].
  apply sameCI_app; [exact Hx|]. apply sameCI_cons; [reflexivity|].
  exact IH.
Qed.

Lemma verdict_sameCI (q : Question) (d d' : jsstring) :
  sameCI d d' -> verdict q d = verdict q d'.
Proof.
  intros Hd. unfold verdict, jsMatch.
  pose proof (hits_sameCI _ _ (scan_sameCI (questionRegex q) d d' 0 Hd)) as Hh.
  destruct Hh as [|x x' l l' Hx Hl]; [reflexivity|].
  rewrite (test_sameCI fillCheckRegex _
             (answerLeft (questionRegex q) (questionStrip q) (x' :: l'))).
  - reflexivity.
  - unfold answerLeft. apply replaceEmpty_sameCI.
    assert (Hg : sameCI (replaceGroup1 (questionRegex q)
                                       (arrayToString (x :: l)))
                        (replaceGroup1 (questionRegex q)
                                       (arrayToString (x' :: l')))).
    { apply replaceGroup1_sameCI, arrayToString_sameCI. now constructor. }
    destruct q; cbn [questionStrip]; try exact Hg.
    now apply replaceEmpty_sameCI.
Qed.

End LetterCase.

(* ================================================================== *)
(** ** The monad and the result container *)
(* ================================================================== *)

Lemma bind_some {A B} (t : list Event) (a : A) (f : A -> M B) :
  bind (t, Some a) f = ((t ++ fst (f a))%list, snd (f a)).
Proof. unfold bind. destruct (f a). reflexivity. Qed.

Lemma bind_emit {B} (e : Event) (k : M B) :
  (emit e ;; k) = (e :: fst k, snd k).
Proof. unfold emit. rewrite bind_some. reflexivity. Qed.

Lemma bind_ret {A B} (a : A) (f : A -> M B) : bind (ret a) f = f a.
Proof. unfold ret. rewrite bind_some. destruct (f a). reflexivity. Qed.

Lemma introductionDate_value : introductionDate = Some 1555891200000%Z.
Proof. reflexivity. Qed.


Lemma prefix_append (needle post : string) :
  String.prefix needle (needle ++ post) = true.
Proof.
  induction needle as [|y n IHn]; simpl; [now destruct post|].
  destruct (ascii_dec y y) as [_|NE]; [exact IHn | now elim NE].
Qed.

Lemma contains_prefix (needle text : string) :
  String.prefix needle text = true -> contains needle text = true.
Proof. destruct text; simpl; intros ->; reflexivity. Qed.

Lemma contains_middle (pre needle post : string) :
  contains needle (pre ++ needle ++ post) = true.
Proof.
  induction pre as [|x pre IH].
  - change ("" ++ needle ++ post) with (needle ++ post).
    apply contains_prefix, prefix_append.
  - simpl. rewrite IH. apply orb_true_r.
Qed.

(* ================================================================== *)
(** ** [runHazardAnalysisAudits]: the first branches *)
(* ================================================================== *)

(** C6.  An issue whose resolution date is strictly before 22 April 2019
    (UTC midnight, time value 1555891200000) gets a passing result with the
    explanatory text, whatever its other fields are; nothing is added to the
    result and no collaborator is called. *)
Theorem grandfathered_issue_passes
  (E : Collaborators) (issue : Issue) (t : Z)
  (Hdate : newDate (resolutiondate issue) = Some t)
  (Hbefore : (t < 1555891200000)%Z) :
  exists r,
    runHazardAnalysisAudits E issue = ([], Some r)
    /\ passFlag r = Some true
    /\ detailText r =
         Some "This audit is being ignored since the issue was resolved prior to the audit introduction date of April 22nd, 2019"
    /\ auditResults r = []
    /\ auditPassing r = true.
Proof.
  unfold runHazardAnalysisAudits.
  rewrite Hdate, introductionDate_value. simpl dateLt.
  apply Z.ltb_lt in Hbefore. rewrite Hbefore.
  eexists. split; [reflexivity|].
  destruct (getSubTaskByName E issue (HAZARD_ANALYSIS E)); repeat split.
Qed.

(** C7.  An issue that is neither grandfathered nor ignore-labelled and
    has no Hazard Analysis sub-task gets a failing aggregate whose only
    member is the failed existence check, with a text that points at the
    template; the only call is the failure comment on the issue, so none of
    the later checks ran. *)
Theorem missing_subtask_fails
  (E : Collaborators) (issue : Issue)
  (Hdate : grandfathered issue = false)
  (Hlabel : ignored E issue = false)
  (Hnone : getSubTaskByName E issue (HAZARD_ANALYSIS E) = None) :
  exists failed text,
    failed = MkAuditDetails "Issue Requires A Hazard Analysis Sub-Task" issue
                            (Some false) (Some text) []
    /\ contains templateLink text = true
    /\ runHazardAnalysisAudits E issue =
         ([PostIssueAuditFailureComment issue failed None],
          Some (MkAuditDetails "Hazard Analysis Sub-Task Audit" issue
                               None None [failed]))
    /\ auditPassing (MkAuditDetails "Hazard Analysis Sub-Task Audit" issue
                                    None None [failed]) = false
    /\ existsb isLaterCheck (traceOf (runHazardAnalysisAudits E issue)) = false.
Proof.
  unfold grandfathered in Hdate. unfold ignored in Hlabel.
  assert (Hrun : runHazardAnalysisAudits E issue =
    ([PostIssueAuditFailureComment issue
        (MkAuditDetails "Issue Requires A Hazard Analysis Sub-Task" issue
           (Some false)
           (Some ("A Hazard Analysis sub-task is required for all stories; please clone Jira stories from the [Story and Defect template|"
                  ++ templateLink ++ "].")) []) None],
     Some (MkAuditDetails "Hazard Analysis Sub-Task Audit" issue None None
       [MkAuditDetails "Issue Requires A Hazard Analysis Sub-Task" issue
           (Some false)
           (Some ("A Hazard Analysis sub-task is required for all stories; please clone Jira stories from the [Story and Defect template|"
                  ++ templateLink ++ "].")) []]))).
  { unfold runHazardAnalysisAudits, issueHasHazardAnalysisSubTask.
    rewrite Hdate, Hlabel, Hnone. reflexivity. }
  do 2 eexists. split; [reflexivity|]. split; [apply contains_middle|].
  split; [exact Hrun|]. split; [reflexivity|].
  rewrite Hrun. reflexivity.
Qed.

Lemma auditPassing_unfold n i p t rs :
  auditPassing (MkAuditDetails n i p t rs) =
  match p with Some b => b | None => true end && forallb auditPassing rs.
Proof.
  reflexivity.
Qed.

(** C5.  [isNoWorkNeededResolutionValid] resolves to [null] exactly when
    the sub-task has no no-work-needed resolution; when it has one, the
    result is an AuditDetails whose pass flag is whether the parent has a
    no-work-needed resolution too.  (An issue that has such a resolution
    has a resolution, whose name the passing text quotes.) *)
Theorem no_work_needed_validation
  (E : Collaborators) (parentIssue subTask : Issue)
  (Hres : forall i, issueHasNoWorkNeededResolution E i = true ->
                    resolution i <> None) :
  (resultOf (isNoWorkNeededResolutionValid E parentIssue subTask) = Some None
   <-> issueHasNoWorkNeededResolution E subTask = false)
  /\ (issueHasNoWorkNeededResolution E subTask = true ->
      exists d,
        resultOf (isNoWorkNeededResolutionValid E parentIssue subTask)
        = Some (Some d)
        /\ passFlag d = Some (issueHasNoWorkNeededResolution E parentIssue)
        /\ detailText d <> None
        /\ auditPassing d = issueHasNoWorkNeededResolution E parentIssue).
Proof.
  unfold isNoWorkNeededResolutionValid, resolutionName.
  destruct (issueHasNoWorkNeededResolution E subTask) eqn:Hs; simpl.
  - destruct (issueHasNoWorkNeededResolution E parentIssue) eqn:Hp.
    + pose proof (Hres _ Hs) as Rs. pose proof (Hres _ Hp) as Rp.
      destruct (resolution subTask) as [sn|]; [|now elim Rs].
      destruct (resolution parentIssue) as [pn|]; [|now elim Rp].
      split; [split; discriminate|]. intros _.
      eexists. split; [reflexivity|]. repeat split. discriminate.
    + split; [split; discriminate|]. intros _.
      eexists. split; [reflexivity|]. repeat split. discriminate.
  - split; [split; reflexivity|]. discriminate.
Qed.

(* ================================================================== *)
(** ** [hazardAnalysisComplete]: the five blocks *)
(* ================================================================== *)

Lemma questionBlock_verdict (q : Question) (mm ua : string) (issue : Issue)
  (d : AuditDetails) (next : M AuditDetails) :
  questionBlock q (questionRegex q) (questionStrip q) mm ua issue d next =
  match verdict q (description issue) with
  | NoMatch =>
      ([MatchDescription q], Some (setPassing false (setDetails mm d)))
  | Blank =>
      ([MatchDescription q;
        PostIssueAuditFailureComment issue
          (setPassing false (setDetails ua d)) (Some true)],
       Some (setPassing false (setDetails ua d)))
  | Answered => (MatchDescription q :: fst next, snd next)
  end.
Proof.
  unfold questionBlock, verdict. rewrite bind_emit.
  destruct (jsMatch (questionRegex q) (description issue)) as [tempStr|];
    [|reflexivity].
  destruct (test fillCheckRegex _); reflexivity.
Qed.

Lemma hazardAnalysisComplete_outcome (issue : Issue) :
  hazardAnalysisComplete issue
  = completionOutcome issue (firstProblem (description issue)).
Proof.
  unfold hazardAnalysisComplete.
  change financialRegex with (questionRegex Financial).
  change legalRegex with (questionRegex LegalRegulatory).
  change dataRegex with (questionRegex DataIntegrity).
  change patientRegex with (questionRegex PatientSafety).
  change cyberSecurityRegex with (questionRegex CyberSecurity).
  change (replaceEmpty engineerRegex) with (questionStrip CyberSecurity).
  rewrite (questionBlock_verdict CyberSecurity).
  change (fun s : jsstring => s) with (questionStrip PatientSafety) at 4.
  rewrite (questionBlock_verdict PatientSafety).
  change (fun s : jsstring => s) with (questionStrip DataIntegrity) at 3.
  rewrite (questionBlock_verdict DataIntegrity).
  change (fun s : jsstring => s) with (questionStrip LegalRegulatory) at 2.
  rewrite (questionBlock_verdict LegalRegulatory).
  change (fun s : jsstring => s) with (questionStrip Financial) at 1.
  rewrite (questionBlock_verdict Financial).
  unfold firstProblem, questions. cbn [map find snd].
  destruct (verdict Financial (description issue)); try reflexivity.
  destruct (verdict LegalRegulatory (description issue)); try reflexivity.
  destruct (verdict DataIntegrity (description issue)); try reflexivity.
  destruct (verdict PatientSafety (description issue)); try reflexivity.
  destruct (verdict CyberSecurity (description issue)); reflexivity.
Qed.

(** C10.  The two failure kinds of [hazardAnalysisComplete] differ in
    their effects.  When the first question that is not answered is one
    whose header-to-header pattern does not match, the failing result is
    returned and no failure comment is posted; when it is one that is
    present but left blank, the failing result is posted on the audited
    issue by [postIssueAuditFailureComment] as the last call before the
    return. *)
Theorem completion_failure_comments (issue : Issue) (q : Question) :
  (firstProblem (description issue) = Some (q, NoMatch) ->
   hazardAnalysisComplete issue =
     (map MatchDescription (upTo q),
      Some (completionFailure issue (mismatchText q)))
   /\ existsb isPost (traceOf (hazardAnalysisComplete issue)) = false)
  /\
  (firstProblem (description issue) = Some (q, Blank) ->
   hazardAnalysisComplete issue =
     ((map MatchDescription (upTo q)
       ++ [PostIssueAuditFailureComment issue
             (completionFailure issue (unansweredText q)) (Some true)])%list,
      Some (completionFailure issue (unansweredText q)))).
Proof.
  rewrite hazardAnalysisComplete_outcome. split; intros ->; simpl.
  - split; [reflexivity|]. destruct q; reflexivity.
  - reflexivity.
Qed.

(* ================================================================== *)
(** ** The combined audit of a linked sub-task *)
(* ================================================================== *)




Lemma hazardAnalysisComplete_returns (issue : Issue) :
  exists t d,
    hazardAnalysisComplete issue = (t, Some d)
    /\ auditIssue d = issue
    /\ auditName d = "Hazard Analysis Completed"
    /\ (exists b text, passFlag d = Some b /\ detailText d = Some text).
Proof.
  rewrite hazardAnalysisComplete_outcome.
  destruct (firstProblem (description issue)) as [[q v]|];
    unfold completionOutcome.
  - destruct v; do 2 eexists; (split; [reflexivity|]);
      (split; [reflexivity|]); (split; [reflexivity|]);
      do 2 eexists; split; reflexivity.
  - do 2 eexists. split; [reflexivity|].
    split; [reflexivity|]. split; [reflexivity|].
    do 2 eexists; split; reflexivity.
Qed.

Lemma hazardAnalysisReviewed_returns (E : Collaborators) (issue : Issue) :
  exists t d,
    hazardAnalysisReviewed E issue = (t, Some d)
    /\ auditIssue d = issue
    /\ auditName d = "Hazard Analysis Reviewed"
    /\ (exists b text, passFlag d = Some b /\ detailText d = Some text).
Proof.
  unfold hazardAnalysisReviewed.
  destruct (Nat.eqb _ 0); do 2 eexists; (split; [reflexivity|]);
    (split; [reflexivity|]); (split; [reflexivity|]);
    do 2 eexists; split; reflexivity.
Qed.



(* ================================================================== *)
(** ** [runHazardAnalysisAudits]: a sub-task with links *)
(* ================================================================== *)

(** The run on a sub-task that has a Hazard-Analysis-type link, step by
    step: after the existence check and the validation of the resolution
    have cleared their comments, the module evaluates
    [issueHasOneSubTaskLink], which throws. *)
Lemma run_with_link
  (E : Collaborators) (issue subTask : Issue) (link : IssueLink)
  (rest : list IssueLink)
  (Hdate : grandfathered issue = false)
  (Hlabel : ignored E issue = false)
  (Hsub : getSubTaskByName E issue (HAZARD_ANALYSIS E) = Some subTask)
  (Hnwn : issueHasNoWorkNeededResolution E subTask = false)
  (Hlinks : hazardAnalysisLinks E subTask = link :: rest) :
  runHazardAnalysisAudits E issue =
    ([RemoveIssueAuditFailureComment issue (subTaskPresent issue);
      RemoveIssueAuditFailureComment subTask (noWorkNeededFresh subTask)],
     None).
Proof.
  unfold grandfathered in Hdate. unfold ignored in Hlabel.
  unfold hazardAnalysisLinks in Hlinks.
  unfold runHazardAnalysisAudits, issueHasHazardAnalysisSubTask,
    isNoWorkNeededResolutionValid, issueHasOneSubTaskLink.
  rewrite Hdate, Hlabel, Hsub, Hnwn.
  cbn [negb bind emit ret app auditPassing setPassing setDetails
       newAuditDetails andb removeIssueAuditFailureComment].
  rewrite Hlinks. reflexivity.
Qed.

(** C3, what the module does.  On an issue whose sub-task has exactly one
    Hazard-Analysis-type link the run does not get to the link target.
    After the two comment removals of the earlier steps it evaluates
    [issueHasOneSubTaskLink], a name that the module does not bind, and is
    never settled: the link target is not fetched, no check runs on it or
    on the sub-task, and no comment is posted on either. *)
Theorem single_link_run_never_settles
  (E : Collaborators) (issue subTask : Issue) (link : IssueLink)
  (Hdate : grandfathered issue = false)
  (Hlabel : ignored E issue = false)
  (Hsub : getSubTaskByName E issue (HAZARD_ANALYSIS E) = Some subTask)
  (Hnwn : issueHasNoWorkNeededResolution E subTask = false)
  (Hlinks : hazardAnalysisLinks E subTask = [link]) :
  resultOf (runHazardAnalysisAudits E issue) = None
  /\ traceOf (runHazardAnalysisAudits E issue) =
       [RemoveIssueAuditFailureComment issue (subTaskPresent issue);
        RemoveIssueAuditFailureComment subTask (noWorkNeededFresh subTask)]
  /\ existsb isLaterCheck (traceOf (runHazardAnalysisAudits E issue)) = false
  /\ existsb isPost (traceOf (runHazardAnalysisAudits E issue)) = false.
Proof.
  rewrite (run_with_link E issue subTask link [] Hdate Hlabel Hsub Hnwn Hlinks).
  repeat split.
Qed.

(** C4, what the module does.  On an issue whose sub-task has two or more
    Hazard-Analysis-type links the run returns nothing: it stops at the
    same evaluation of [issueHasOneSubTaskLink] and is never settled.  No
    failing aggregate is built or handed to the pass/fail handler;
    [getIssueFromLink] is not called and none of the later checks runs. *)
Theorem ambiguous_links_run_never_settles
  (E : Collaborators) (issue subTask : Issue)
  (Hdate : grandfathered issue = false)
  (Hlabel : ignored E issue = false)
  (Hsub : getSubTaskByName E issue (HAZARD_ANALYSIS E) = Some subTask)
  (Hnwn : issueHasNoWorkNeededResolution E subTask = false)
  (Hlinks : 2 <= List.length (hazardAnalysisLinks E subTask)) :
  resultOf (runHazardAnalysisAudits E issue) = None
  /\ traceOf (runHazardAnalysisAudits E issue) =
       [RemoveIssueAuditFailureComment issue (subTaskPresent issue);
        RemoveIssueAuditFailureComment subTask (noWorkNeededFresh subTask)]
  /\ existsb isHandle (traceOf (runHazardAnalysisAudits E issue)) = false
  /\ existsb isAfterLinkCheck (traceOf (runHazardAnalysisAudits E issue))
     = false.
Proof.
  destruct (hazardAnalysisLinks E subTask) as [|link rest] eqn:Hl;
    [cbn [List.length] in Hlinks; lia|].
  rewrite (run_with_link E issue subTask link rest Hdate Hlabel Hsub Hnwn Hl).
  repeat split.
Qed.

(* ================================================================== *)
(** ** Pass flag and detail text of the returned results *)
(* ================================================================== *)

Lemma resultOf_bind {A B} (m : M A) (f : A -> M B) :
  resultOf (bind m f) =
  match resultOf m with
  | Some a => resultOf (f a)
  | None => None
  end.
Proof.
  destruct m as [t [a|]]; unfold bind, resultOf; simpl; [|reflexivity].
  destruct (f a); reflexivity.
Qed.

Lemma run_result_shape (E : Collaborators) (issue : Issue) :
  match resultOf (runHazardAnalysisAudits E issue) with
  | Some d =>
      if grandfathered issue then bothSet d
      else if ignored E issue then onlyTextSet d "Audit ignored"
      else neitherSet d /\ auditResults d <> []
  | None => True
  end.
Proof.
  unfold runHazardAnalysisAudits, grandfathered, ignored.
  destruct (dateLt _ _).
  { simpl. do 2 eexists. split; reflexivity. }
  destruct (issueContainsAnyLabel E issue _).
  { rewrite resultOf_bind.
    destruct (resultOf (cleanseSubTaskAudits E issue)); [|exact I].
    simpl. split; reflexivity. }
  rewrite resultOf_bind.
  destruct (resultOf (issueHasHazardAnalysisSubTask E issue)) as [a1|];
    [|exact I].
  destruct (negb (auditPassing a1));
    [simpl; split; [split; reflexivity|discriminate]|].
  destruct (getSubTaskByName E issue (HAZARD_ANALYSIS E)) as [st|];
    [|exact I].
  rewrite resultOf_bind.
  destruct (resultOf (isNoWorkNeededResolutionValid E issue st)) as [[a2|]|];
    [| |exact I].
  { rewrite resultOf_bind. simpl. split; [split; reflexivity|discriminate]. }
  destruct (filter _ (issuelinks st)) as [|l ls].
  - rewrite resultOf_bind.
    destruct (resultOf (callSubTaskClosed E st)) as [c|]; [|exact I].
    rewrite resultOf_bind.
    destruct (resultOf (coreAudits E st [c])) as [all|]; [|exact I].
    rewrite !resultOf_bind. simpl.
    split; [split; reflexivity|discriminate].
  - rewrite resultOf_bind. exact I.
Qed.

(** C9, as the module has it.  The four checks return a result whose pass
    flag and detail text are both set.  [cleanseSubTaskAudits] returns a
    result with the text set and the flag left as constructed, and so does
    [runHazardAnalysisAudits] for an ignore-labelled issue; for a
    grandfathered issue it sets both, and on every other branch it assigns
    neither and returns the aggregate of the results added to it. *)
Theorem flag_and_text_assignment
  (E : Collaborators) (issue parentIssue subTask : Issue) :
  (exists d, resultOf (issueHasHazardAnalysisSubTask E issue) = Some d
             /\ bothSet d)
  /\ match resultOf (isNoWorkNeededResolutionValid E parentIssue subTask) with
     | Some (Some d) => bothSet d
     | _ => True
     end
  /\ (exists d, resultOf (hazardAnalysisComplete issue) = Some d /\ bothSet d)
  /\ (exists d, resultOf (hazardAnalysisReviewed E issue) = Some d
                /\ bothSet d)
  /\ (exists d, resultOf (cleanseSubTaskAudits E issue) = Some d
                /\ onlyTextSet d
                     "All audit comments and labels will be removed from this sub-task")
  /\ match resultOf (runHazardAnalysisAudits E issue) with
     | Some d =>
         if grandfathered issue then bothSet d
         else if ignored E issue then onlyTextSet d "Audit ignored"
         else neitherSet d /\ auditResults d <> []
     | None => True
     end.
Proof.
  split.
  { unfold issueHasHazardAnalysisSubTask.
    destruct (getSubTaskByName E issue (HAZARD_ANALYSIS E));
      eexists; (split; [reflexivity|]); do 2 eexists; split; reflexivity. }
  split.
  { unfold isNoWorkNeededResolutionValid, resolutionName.
    destruct (issueHasNoWorkNeededResolution E subTask); simpl; [|exact I].
    destruct (issueHasNoWorkNeededResolution E parentIssue).
    - destruct (resolution subTask); [|exact I].
      destruct (resolution parentIssue); [|exact I].
      do 2 eexists; split; reflexivity.
    - do 2 eexists; split; reflexivity. }
  split.
  { destruct (hazardAnalysisComplete_returns issue)
      as (t & d & H & _ & _ & Hb).
    exists d. rewrite H. split; [reflexivity|exact Hb]. }
  split.
  { destruct (hazardAnalysisReviewed_returns E issue)
      as (t & d & H & _ & _ & Hb).
    exists d. rewrite H. split; [reflexivity|exact Hb]. }
  split.
  { unfold cleanseSubTaskAudits.
    destruct (getSubTaskByName E issue (HAZARD_ANALYSIS E));
      eexists; (split; [reflexivity|]); split; reflexivity. }
  apply run_result_shape.
Qed.

(** C9 as stated fails: on a story without a sub-task,
    [cleanseSubTaskAudits] returns a result whose detail text is set and
    whose pass flag is not. *)
Lemma cleanse_sets_text_alone :
  exists d,
    resultOf (cleanseSubTaskAudits (Sample.tracker None) Sample.story) = Some d
    /\ ~ setTogether d.
Proof.
  eexists. split; [reflexivity|].
  unfold setTogether. simpl. intros [H _]. specialize (H eq_refl).
  discriminate.
Qed.

(* ================================================================== *)
(** ** [runHazardAnalysisAudits]: the other branches *)
(* ================================================================== *)

Lemma trace_bind_nil {A B} (m : M A) (f : A -> M B) :
  traceOf (bind m f) = [] -> traceOf m = [].
Proof.
  destruct m as [t [a|]]; unfold traceOf, bind; cbn [fst]; [|easy].
  destruct (f a) as [t' r']. cbn [fst]. intros H.
  now apply app_eq_nil in H.
Qed.

(** Past the grandfathering test every branch of the run calls out. *)
Lemma run_calls_out (E : Collaborators) (issue : Issue) :
  grandfathered issue = false ->
  traceOf (runHazardAnalysisAudits E issue) <> [].
Proof.
  unfold grandfathered, runHazardAnalysisAudits. intros ->.
  destruct (issueContainsAnyLabel E issue _); intros H;
    apply trace_bind_nil in H; revert H.
  - unfold cleanseSubTaskAudits.
    destruct (getSubTaskByName E issue (HAZARD_ANALYSIS E)); discriminate.
  - unfold issueHasHazardAnalysisSubTask.
    destruct (getSubTaskByName E issue (HAZARD_ANALYSIS E)); discriminate.
Qed.

(** X1.  [runHazardAnalysisAudits] makes no call that can have an effect
    (no comment is posted or removed, nothing goes to the pass/fail
    handler, no check runs, no link target is fetched) exactly when the
    resolution date of the issue is [null], which [new Date] reads as the
    epoch, so that an unresolved issue counts as resolved before the
    introduction date, or is a time stamp strictly before 22 April 2019,
    UTC midnight.  An issue whose date is absent or unreadable, or is the
    introduction instant itself, is not grandfathered: the run makes such a
    call.  (The lookup of the sub-task by [getSubTaskByName], which only
    reads the issue, is made on every run, before the date is tested.) *)
Theorem audited_unless_resolved_before_introduction
  (E : Collaborators) (issue : Issue) :
  traceOf (runHazardAnalysisAudits E issue) = [] <->
  (resolutiondate issue = DateNull
   \/ exists t, resolutiondate issue = DateText (Some t)
                /\ (t < 1555891200000)%Z).
Proof.
  split.
  - intros H. destruct (grandfathered issue) eqn:Hg.
    + unfold grandfathered in Hg. rewrite introductionDate_value in Hg.
      destruct (resolutiondate issue) as [| |[t|]]; cbn [newDate dateLt] in Hg;
        try discriminate; [now left|].
      right. exists t. split; [reflexivity|]. now apply Z.ltb_lt.
    + now elim (run_calls_out E issue Hg).
  - unfold runHazardAnalysisAudits. rewrite introductionDate_value.
    intros [->|[t [-> Hlt]]]; cbn [newDate dateLt]; [reflexivity|].
    apply Z.ltb_lt in Hlt. now rewrite Hlt.
Qed.

(** X2.  For an issue that is not grandfathered and carries the ignore
    label, the run makes the one call of [cleanseSubTaskAudits] and nothing
    else: the pass/fail handler on the sub-task with the cleanse result
    (which is about the parent issue) when there is a sub-task, the removal
    of the missing-sub-task comment from the issue by name otherwise.  The
    result has the text "Audit ignored", no members and an untouched pass
    flag, and reads as passing. *)
Theorem ignored_issue_is_cleansed
  (E : Collaborators) (issue : Issue)
  (Hdate : grandfathered issue = false)
  (Hlabel : ignored E issue = true) :
  let result :=
    MkAuditDetails "Hazard Analysis Sub-Task Audit" (auditedIssue E issue)
                   None (Some "Audit ignored") [] in
  runHazardAnalysisAudits E issue =
    ([match getSubTaskByName E issue (HAZARD_ANALYSIS E) with
      | Some subTask => HandlePassFailAuditResults subTask (cleansed issue)
      | None =>
          RemoveIssueAuditFailureCommentByName issue
            "Issue Requires A Hazard Analysis Sub-Task"
      end],
     Some result)
  /\ auditPassing result = true.
Proof.
  unfold grandfathered in Hdate. unfold ignored in Hlabel.
  unfold runHazardAnalysisAudits, cleanseSubTaskAudits, auditedIssue.
  rewrite Hdate, Hlabel.
  destruct (getSubTaskByName E issue (HAZARD_ANALYSIS E));
    split; reflexivity.
Qed.

(** X3.  When the sub-task is closed as not needing work, the run ends
    with the validation of that resolution: the aggregate holds the
    existence check and the validation, passes exactly when the parent issue
    is closed as not needing work too, and goes to the pass/fail handler;
    the closed, assignee, link, completeness and review checks do not run,
    whatever links the sub-task has. *)
Theorem no_work_needed_ends_run
  (E : Collaborators) (issue subTask : Issue) (subName : string)
  (Hdate : grandfathered issue = false)
  (Hlabel : ignored E issue = false)
  (Hsub : getSubTaskByName E issue (HAZARD_ANALYSIS E) = Some subTask)
  (Hnwn : issueHasNoWorkNeededResolution E subTask = true)
  (Hname : resolution subTask = Some subName)
  (Hparent : issueHasNoWorkNeededResolution E issue = true ->
             resolution issue <> None) :
  exists validation,
    auditName validation
    = "Hazard Analysis No Work Needed Resolution Validation"
    /\ auditIssue validation = subTask
    /\ passFlag validation = Some (issueHasNoWorkNeededResolution E issue)
    /\ runHazardAnalysisAudits E issue =
         ([RemoveIssueAuditFailureComment issue (subTaskPresent issue);
           if issueHasNoWorkNeededResolution E issue
           then RemoveIssueAuditFailureComment subTask validation
           else PostIssueAuditFailureComment subTask validation None;
           HandlePassFailAuditResults subTask
             (aggregateOf subTask [subTaskPresent issue; validation])],
          Some (aggregateOf subTask [subTaskPresent issue; validation]))
    /\ auditPassing (aggregateOf subTask [subTaskPresent issue; validation])
       = issueHasNoWorkNeededResolution E issue
    /\ existsb isLaterCheck (traceOf (runHazardAnalysisAudits E issue))
       = false.
Proof.
  unfold grandfathered in Hdate. unfold ignored in Hlabel.
  unfold runHazardAnalysisAudits, issueHasHazardAnalysisSubTask,
    isNoWorkNeededResolutionValid, resolutionName.
  rewrite Hdate, Hlabel, Hsub, Hnwn, Hname.
  destruct (issueHasNoWorkNeededResolution E issue) eqn:Hp.
  - destruct (resolution issue) as [parentName|] eqn:Hr;
      [|now elim (Hparent eq_refl)].
    eexists.
    split; [|split; [|split; [|split; [reflexivity|split; reflexivity]]]];
      reflexivity.
  - eexists.
    split; [|split; [|split; [|split; [reflexivity|split; reflexivity]]]];
      reflexivity.
Qed.

(** [hazardAnalysisComplete] and [hazardAnalysisReviewed] evaluate the
    description and call the two comment functions, nothing else. *)
Lemma hazardAnalysisComplete_calls (f : Event -> bool) (issue : Issue) :
  (forall q, f (MatchDescription q) = false) ->
  (forall i a b, f (PostIssueAuditFailureComment i a b) = false) ->
  (forall i a, f (RemoveIssueAuditFailureComment i a) = false) ->
  existsb f (traceOf (hazardAnalysisComplete issue)) = false.
Proof.
  intros Hm Hp Hr. rewrite hazardAnalysisComplete_outcome.
  assert (Hq : forall l, existsb f (map MatchDescription l) = false).
  { induction l as [|q l IH]; [reflexivity|]. cbn [map existsb].
    now rewrite Hm, IH. }
  destruct (firstProblem (description issue)) as [[q v]|];
    [destruct v|]; cbn [completionOutcome traceOf fst];
    rewrite ?existsb_app, Hq; cbn [existsb orb];
    now rewrite ?Hp, ?Hr.
Qed.

Lemma hazardAnalysisReviewed_calls (E : Collaborators) (f : Event -> bool)
  (issue : Issue) :
  (forall i a b, f (PostIssueAuditFailureComment i a b) = false) ->
  (forall i a, f (RemoveIssueAuditFailureComment i a) = false) ->
  existsb f (traceOf (hazardAnalysisReviewed E issue)) = false.
Proof.
  intros Hp Hr. unfold hazardAnalysisReviewed.
  destruct (Nat.eqb _ 0);
    cbn [traceOf fst bind emit ret app postIssueAuditFailureComment
         removeIssueAuditFailureComment existsb orb];
    now rewrite ?Hp, ?Hr.
Qed.

Lemma hazardAnalysisComplete_no_handler (issue : Issue) :
  existsb isHandle (traceOf (hazardAnalysisComplete issue)) = false.
Proof. now apply hazardAnalysisComplete_calls. Qed.

Lemma hazardAnalysisReviewed_no_handler (E : Collaborators) (issue : Issue) :
  existsb isHandle (traceOf (hazardAnalysisReviewed E issue)) = false.
Proof. now apply hazardAnalysisReviewed_calls. Qed.

(** The run on a sub-task without Hazard-Analysis-type links, step by
    step. *)
Lemma direct_run
  (E : Collaborators) (issue subTask : Issue)
  (Hdate : grandfathered issue = false)
  (Hlabel : ignored E issue = false)
  (Hsub : getSubTaskByName E issue (HAZARD_ANALYSIS E) = Some subTask)
  (Hnwn : issueHasNoWorkNeededResolution E subTask = false)
  (Hlinks : hazardAnalysisLinks E subTask = []) :
  exists tC completed tR reviewed,
    hazardAnalysisComplete subTask = (tC, Some completed)
    /\ hazardAnalysisReviewed E subTask = (tR, Some reviewed)
    /\ runHazardAnalysisAudits E issue =
         (([RemoveIssueAuditFailureComment issue (subTaskPresent issue);
            RemoveIssueAuditFailureComment subTask (noWorkNeededFresh subTask);
            SubTaskClosed subTask;
            IsAssigneeIndicated subTask]
           ++ tC ++ (if auditPassing completed then tR else [])
           ++ [RemoveIssueAuditFailureCommentByName subTask linkedAuditName;
               HandlePassFailAuditResults subTask
                 (aggregateOf subTask
                    ([subTaskPresent issue; subTaskClosed E subTask;
                      isAssigneeIndicated E subTask; completed]
                     ++ if auditPassing completed then [reviewed] else []))])
            %list,
          Some (aggregateOf subTask
                  ([subTaskPresent issue; subTaskClosed E subTask;
                    isAssigneeIndicated E subTask; completed]
                   ++ if auditPassing completed then [reviewed] else [])%list)).
Proof.
  destruct (hazardAnalysisComplete_returns subTask)
    as (tC & completed & HC & _).
  destruct (hazardAnalysisReviewed_returns E subTask)
    as (tR & reviewed & HR & _).
  exists tC, completed, tR, reviewed.
  split; [exact HC|]. split; [exact HR|].
  unfold grandfathered in Hdate. unfold ignored in Hlabel.
  unfold hazardAnalysisLinks in Hlinks.
  unfold runHazardAnalysisAudits, issueHasHazardAnalysisSubTask,
    isNoWorkNeededResolutionValid, callSubTaskClosed, coreAudits,
    callIsAssigneeIndicated.
  rewrite Hdate, Hlabel, Hsub, Hnwn.
  cbn [negb bind emit ret app auditPassing setPassing setDetails
       newAuditDetails andb removeIssueAuditFailureComment].
  rewrite Hlinks.
  cbn [negb bind emit ret app]. rewrite HC.
  cbn [negb bind emit ret app].
  destruct (auditPassing completed).
  - rewrite HR.
    cbn [bind emit ret app handlePassFailAuditResults addAuditResults
         newAuditDetails removeIssueAuditFailureCommentByName].
    rewrite <- !app_assoc. reflexivity.
  - cbn [bind emit ret app handlePassFailAuditResults addAuditResults
         newAuditDetails removeIssueAuditFailureCommentByName].
    rewrite <- !app_assoc. reflexivity.
Qed.

(** X4.  On a sub-task without Hazard-Analysis-type links (links of
    other types do not count) the checks run on the sub-task itself, in the
    order closed, assignee, completeness and, only when completeness passed,
    review; a stale linked-audit comment is removed by name; the aggregate
    holds the existence check and these results in that order and goes to
    the pass/fail handler.  The link check and [getIssueFromLink] are not
    called.  The aggregate passes iff the closed, assignee, completeness and
    review results pass. *)
Theorem direct_run_collects_checks
  (E : Collaborators) (issue subTask : Issue)
  (Hdate : grandfathered issue = false)
  (Hlabel : ignored E issue = false)
  (Hsub : getSubTaskByName E issue (HAZARD_ANALYSIS E) = Some subTask)
  (Hnwn : issueHasNoWorkNeededResolution E subTask = false)
  (Hlinks : hazardAnalysisLinks E subTask = []) :
  exists tC completed tR reviewed aggregate,
    hazardAnalysisComplete subTask = (tC, Some completed)
    /\ hazardAnalysisReviewed E subTask = (tR, Some reviewed)
    /\ aggregate =
         aggregateOf subTask
           ([subTaskPresent issue; subTaskClosed E subTask;
             isAssigneeIndicated E subTask; completed]
            ++ if auditPassing completed then [reviewed] else [])
    /\ runHazardAnalysisAudits E issue =
         (([RemoveIssueAuditFailureComment issue (subTaskPresent issue);
            RemoveIssueAuditFailureComment subTask (noWorkNeededFresh subTask);
            SubTaskClosed subTask;
            IsAssigneeIndicated subTask]
           ++ tC ++ (if auditPassing completed then tR else [])
           ++ [RemoveIssueAuditFailureCommentByName subTask linkedAuditName;
               HandlePassFailAuditResults subTask aggregate])%list,
          Some aggregate)
    /\ existsb isLinkStep (traceOf (runHazardAnalysisAudits E issue)) = false
    /\ (auditPassing aggregate = true <->
        auditPassing (subTaskClosed E subTask) = true
        /\ auditPassing (isAssigneeIndicated E subTask) = true
        /\ auditPassing completed = true
        /\ auditPassing reviewed = true).
Proof.
  destruct (direct_run E issue subTask Hdate Hlabel Hsub Hnwn Hlinks)
    as (tC & completed & tR & reviewed & HC & HR & Hrun).
  exists tC, completed, tR, reviewed. eexists.
  split; [exact HC|]. split; [exact HR|]. split; [reflexivity|].
  split; [exact Hrun|].
  split.
  { rewrite Hrun. cbn [traceOf fst app existsb isLinkStep orb].
    rewrite !existsb_app.
    pose proof (hazardAnalysisComplete_calls isLinkStep subTask
                  (fun _ => eq_refl) (fun _ _ _ => eq_refl)
                  (fun _ _ => eq_refl)) as HnC.
    rewrite HC in HnC. cbn [traceOf fst] in HnC. rewrite HnC.
    pose proof (hazardAnalysisReviewed_calls E isLinkStep subTask
                  (fun _ _ _ => eq_refl) (fun _ _ => eq_refl)) as HnR.
    rewrite HR in HnR. cbn [traceOf fst] in HnR.
    destruct (auditPassing completed); [rewrite HnR|]; reflexivity. }
  unfold aggregateOf. rewrite auditPassing_unfold.
  cbn [andb app forallb]. change (auditPassing (subTaskPresent issue)) with true.
  cbn [andb].
  destruct (auditPassing (subTaskClosed E subTask)),
    (auditPassing (isAssigneeIndicated E subTask)),
    (auditPassing completed); cbn [andb forallb];
    try (split; [discriminate | intros (? & ? & ? & ?); discriminate]).
  rewrite andb_true_r. tauto.
Qed.

(** X6.  For an issue that is neither grandfathered nor ignore-labelled
    and has a Hazard Analysis sub-task: whenever the run resolves, the
    pass/fail handler was called exactly once, as the last call of the run,
    on that sub-task and with exactly the aggregate that the run returns,
    which is named "Hazard Analysis Sub-Task Audit" and is about that
    sub-task. *)
Theorem handler_receives_returned_aggregate
  (E : Collaborators) (issue subTask : Issue) (aggregate : AuditDetails)
  (Hdate : grandfathered issue = false)
  (Hlabel : ignored E issue = false)
  (Hsub : getSubTaskByName E issue (HAZARD_ANALYSIS E) = Some subTask)
  (Hresolved : resultOf (runHazardAnalysisAudits E issue) = Some aggregate) :
  auditName aggregate = "Hazard Analysis Sub-Task Audit"
  /\ auditIssue aggregate = subTask
  /\ exists before,
       traceOf (runHazardAnalysisAudits E issue)
       = (before ++ [HandlePassFailAuditResults subTask aggregate])%list
       /\ existsb isHandle before = false.
Proof.
  destruct (issueHasNoWorkNeededResolution E subTask) eqn:Hnwn.
  { (* closed as not needing work *)
    pose proof Hdate as Hdate'. pose proof Hlabel as Hlabel'.
    unfold grandfathered in Hdate'. unfold ignored in Hlabel'.
    revert Hresolved.
    unfold runHazardAnalysisAudits, issueHasHazardAnalysisSubTask,
      isNoWorkNeededResolutionValid, resolutionName.
    rewrite Hdate', Hlabel', Hsub, Hnwn.
    destruct (issueHasNoWorkNeededResolution E issue).
    - destruct (resolution subTask); [|discriminate].
      destruct (resolution issue); [|discriminate].
      intros [= <-].
      split; [reflexivity|]. split; [reflexivity|].
      eexists [_; _]. split; reflexivity.
    - intros [= <-].
      split; [reflexivity|]. split; [reflexivity|].
      eexists [_; _]. split; reflexivity. }
  destruct (hazardAnalysisLinks E subTask) as [|link rest] eqn:Hlinks.
  2:{ (* a link: the run is not settled *)
    rewrite (run_with_link E issue subTask link rest
               Hdate Hlabel Hsub Hnwn Hlinks) in Hresolved.
    discriminate. }
  (* no link: the checks run on the sub-task itself *)
  destruct (direct_run E issue subTask Hdate Hlabel Hsub Hnwn Hlinks)
    as (tC & completed & tR & reviewed & HC & HR & Hrun).
  rewrite Hrun in Hresolved |- *. cbn [resultOf traceOf fst snd] in *.
  injection Hresolved as <-.
  split; [reflexivity|]. split; [reflexivity|].
  exists ([RemoveIssueAuditFailureComment issue (subTaskPresent issue);
           RemoveIssueAuditFailureComment subTask (noWorkNeededFresh subTask);
           SubTaskClosed subTask;
           IsAssigneeIndicated subTask]
          ++ tC ++ (if auditPassing completed then tR else [])
          ++ [RemoveIssueAuditFailureCommentByName subTask linkedAuditName])
         %list.
  split; [now rewrite <- !app_assoc|].
  cbn [existsb isHandle orb]. rewrite !existsb_app.
  pose proof (hazardAnalysisComplete_no_handler subTask) as HnC.
  rewrite HC in HnC. cbn [traceOf fst] in HnC. rewrite HnC.
  pose proof (hazardAnalysisReviewed_no_handler E subTask) as HnR.
  rewrite HR in HnR. cbn [traceOf fst] in HnR.
  destruct (auditPassing completed); [rewrite HnR|]; reflexivity.
Qed.


(** X8.  The existence check, the review check and the validation of a
    no-work-needed resolution each make one comment call, on the issue they
    audit and with the very result they return: the failure comment is
    cleared when the result passes and posted (without the sub-task flag)
    when it fails.  The existence check passes iff the issue has a Hazard
    Analysis sub-task, the review check iff a '+1' comment was found. *)
Theorem checks_comment_their_result
  (E : Collaborators) (issue parentIssue subTask : Issue) :
  (exists d,
     issueHasHazardAnalysisSubTask E issue = ([commentOf issue d], Some d)
     /\ auditIssue d = issue
     /\ (auditPassing d = true <->
         getSubTaskByName E issue (HAZARD_ANALYSIS E) <> None))
  /\ (exists d,
        hazardAnalysisReviewed E issue = ([commentOf issue d], Some d)
        /\ auditIssue d = issue
        /\ (auditPassing d = true <-> findPlusOneComments E issue <> []))
  /\ (forall d,
        resultOf (isNoWorkNeededResolutionValid E parentIssue subTask)
        = Some (Some d) ->
        traceOf (isNoWorkNeededResolutionValid E parentIssue subTask)
        = [commentOf subTask d]
        /\ auditIssue d = subTask).
Proof.
  split; [|split].
  - unfold issueHasHazardAnalysisSubTask.
    destruct (getSubTaskByName E issue (HAZARD_ANALYSIS E));
      cbn [bind emit ret app postIssueAuditFailureComment
           removeIssueAuditFailureComment];
      match goal with
      | |- exists d, (_, Some ?x) = _ /\ _ => exists x
      end;
      (split; [reflexivity|]); (split; [reflexivity|]);
      split; try discriminate; try reflexivity.
    intros H. now elim H.
  - unfold hazardAnalysisReviewed.
    destruct (findPlusOneComments E issue);
      cbn [List.length Nat.eqb bind emit ret app postIssueAuditFailureComment
           removeIssueAuditFailureComment];
      match goal with
      | |- exists d, (_, Some ?x) = _ /\ _ => exists x
      end;
      (split; [reflexivity|]); (split; [reflexivity|]);
      split; try discriminate; try reflexivity.
    intros H. now elim H.
  - unfold isNoWorkNeededResolutionValid, resolutionName.
    destruct (issueHasNoWorkNeededResolution E subTask); [|discriminate].
    destruct (issueHasNoWorkNeededResolution E parentIssue).
    + destruct (resolution subTask); [|discriminate].
      destruct (resolution parentIssue); [|discriminate].
      intros d [= <-]. split; reflexivity.
    + intros d [= <-]. split; reflexivity.
Qed.

(** What [firstProblem] reports. *)
Lemma firstProblem_some (d : list N) (q : Question) (v : Verdict) :
  firstProblem d = Some (q, v) ->
  verdict q d = v /\ v <> Answered
  /\ forall q', In q' (before q) -> verdict q' d = Answered.
Proof.
  unfold firstProblem, questions. cbn [map find snd].
  assert (Hstep : forall x,
            (verdict x d <> Answered ->
             (forall q', In q' (before x) -> verdict q' d = Answered) ->
             Some (x, verdict x d) = Some (q, v) ->
             verdict q d = v /\ v <> Answered
             /\ forall q', In q' (before q) -> verdict q' d = Answered)).
  { intros x Hne Hb [= <- <-]. now repeat split. }
  destruct (verdict Financial d) eqn:H1;
    try (rewrite <- H1; apply (Hstep Financial); [congruence|];
         intros q' []).
  destruct (verdict LegalRegulatory d) eqn:H2;
    try (rewrite <- H2; apply (Hstep LegalRegulatory); [congruence|];
         intros q' [<-|[]]; assumption).
  destruct (verdict DataIntegrity d) eqn:H3;
    try (rewrite <- H3; apply (Hstep DataIntegrity); [congruence|];
         intros q' [<-|[<-|[]]]; assumption).
  destruct (verdict PatientSafety d) eqn:H4;
    try (rewrite <- H4; apply (Hstep PatientSafety); [congruence|];
         intros q' [<-|[<-|[<-|[]]]]; assumption).
  destruct (verdict CyberSecurity d) eqn:H5;
    try (rewrite <- H5; apply (Hstep CyberSecurity); [congruence|];
         intros q' [<-|[<-|[<-|[<-|[]]]]]; assumption).
  discriminate.
Qed.

Lemma firstProblem_none (d : list N) :
  firstProblem d = None <-> forall q, verdict q d = Answered.
Proof.
  split.
  - unfold firstProblem, questions. cbn [map find snd].
    repeat match goal with
           | |- context [verdict ?x d] =>
               let H := fresh "H" in
               destruct (verdict x d) eqn:H; try discriminate
           end.
    intros _ q. destruct q; assumption.
  - intros H. unfold firstProblem, questions. cbn [map find snd].
    now rewrite !H.
Qed.

Lemma filter_isMatch (l : list Question) :
  filter isMatch (map MatchDescription l) = map MatchDescription l.
Proof. induction l as [|q l IH]; [reflexivity|]. cbn. now rewrite IH. Qed.

(** X9.  On a sub-task whose description is a string,
    [hazardAnalysisComplete] returns a result that passes iff each of the
    five blocks finds an answer, and then it has evaluated the five
    questions in order and cleared the failure comment with the result it
    returns.  When it fails, there is a first question that is not answered:
    the questions before it are answered, the questions evaluated are those
    up to it and no later one, the failure comment is not cleared, and the
    text is the template-mismatch text of that question when its pattern
    found nothing and its must-be-answered text otherwise. *)
Theorem completion_reports_first_problem (issue : Issue) :
  exists d,
    resultOf (hazardAnalysisComplete issue) = Some d
    /\ (auditPassing d = true <->
        forall q, verdict q (description issue) = Answered)
    /\ (auditPassing d = true ->
        traceOf (hazardAnalysisComplete issue)
        = (map MatchDescription questions
           ++ [RemoveIssueAuditFailureComment issue d])%list)
    /\ (auditPassing d = false ->
        exists q,
          verdict q (description issue) <> Answered
          /\ (forall q', In q' (before q) ->
                         verdict q' (description issue) = Answered)
          /\ filter isMatch (traceOf (hazardAnalysisComplete issue))
             = map MatchDescription (upTo q)
          /\ existsb isRemove (traceOf (hazardAnalysisComplete issue)) = false
          /\ detailText d =
             Some (match verdict q (description issue) with
                   | NoMatch => mismatchText q
                   | _ => unansweredText q
                   end)).
Proof.
  rewrite hazardAnalysisComplete_outcome.
  destruct (firstProblem (description issue)) as [[q v]|] eqn:Hfirst.
  - destruct (firstProblem_some _ _ _ Hfirst) as (Hv & Hne & Hbefore).
    assert (Hnot : ~ (forall q0, verdict q0 (description issue) = Answered)).
    { intros Hall. apply Hne. now rewrite <- Hv. }
    destruct v; [| |now elim Hne]; cbn [completionOutcome];
      eexists; (split; [reflexivity|]);
      (split; [split; [discriminate | intros Hall; now elim Hnot]|]);
      (split; [discriminate|]); intros _; exists q; rewrite Hv;
      (split; [discriminate|]); (split; [exact Hbefore|]);
      cbn [traceOf fst].
    + rewrite filter_isMatch. split; [reflexivity|].
      split; [destruct q; reflexivity | reflexivity].
    + rewrite filter_app, filter_isMatch. cbn [filter isMatch].
      rewrite app_nil_r. split; [reflexivity|].
      split; [destruct q; reflexivity | reflexivity].
  - cbn [completionOutcome]. eexists. split; [reflexivity|].
    split; [split; [intros _; now apply firstProblem_none | reflexivity]|].
    split; [reflexivity | discriminate].
Qed.

(* ================================================================== *)
(** ** [hazardAnalysisComplete]: missing headers and blank answers *)
(* ================================================================== *)

Lemma firstProblem_at (d : list N) (q : Question) (v : Verdict) :
  (forall q', In q' (before q) -> verdict q' d = Answered) ->
  verdict q d = v -> v <> Answered ->
  firstProblem d = Some (q, v).
Proof.
  intros Hb Hv Hne. unfold firstProblem, questions.
  destruct q; cbn [before position firstn questions] in Hb;
    cbn [map find snd];
    repeat match goal with
           | |- context [verdict ?x d] =>
               first [ rewrite Hv
                     | rewrite (Hb x) by (cbn [In]; tauto) ]
           end;
    destruct v; try reflexivity; now elim Hne.
Qed.

Lemma reported_requires (q : Question) :
  Requires (headerName q) (questionRegex (reported q)).
Proof.
  destruct q; cbn [reported questionRegex];
    [ apply RequiresSeqL, (RequiresLit (headerName Financial) (codeUnits ":"))
    | | | | ];
    do 4 apply RequiresSeqR;
    match goal with
    | |- Requires ?l _ =>
        exact (eq_rect _ (fun x => Requires l (RLit x))
                 (RequiresLit l []) _ (app_nil_r l))
    end.
Qed.

(** Where the name of a header occurs nowhere, the pattern of the reported
    question finds no match. *)
Lemma missing_header_no_match (q : Question) (d : list N) :
  occurs (headerName q) d = false -> verdict (reported q) d = NoMatch.
Proof.
  intros Hocc. unfold verdict, jsMatch.
  rewrite scan_all_missed; [now rewrite hits_keep|].
  intros a b ->. unfold exec.
  rewrite (requires_fails (headerName q) _ (reported_requires q)); [reflexivity|].
  intros a' b' ->. apply (occurs_false _ (a ++ a')%list b').
  now rewrite <- app_assoc.
Qed.

(** C1, as the module has it.  In a description in which the name of the
    header of [q] occurs nowhere, and in which the questions before the
    reported one are answered, [hazardAnalysisComplete] fails with the
    template-mismatch text of the first question whose pattern needs that
    header: the Financial question when the Financial or the
    Legal/Regulatory header is missing, and otherwise the question before
    the one whose header is missing.  It evaluates no later question and
    posts no comment. *)
Theorem missing_header_reported (issue : Issue) (q : Question)
  (Hmissing : occurs (headerName q) (description issue) = false)
  (Hbefore : forall q', In q' (before (reported q)) ->
                        verdict q' (description issue) = Answered) :
  hazardAnalysisComplete issue =
    (map MatchDescription (upTo (reported q)),
     Some (completionFailure issue (mismatchText (reported q)))).
Proof.
  rewrite hazardAnalysisComplete_outcome.
  rewrite (firstProblem_at (description issue) (reported q) NoMatch Hbefore
             (missing_header_no_match q _ Hmissing));
    [reflexivity | discriminate].
Qed.

(** C1 as stated fails: with the Legal/Regulatory header removed from an
    answered template, the failing text names the Financial section, not
    the section whose header was removed. *)
Lemma removed_legal_header_names_financial :
  Sample.noLegalHeader
  = Sample.templateWithout (Some LegalRegulatory) " No" " No" " No" " No" " No"
  /\ exists d,
       resultOf (hazardAnalysisComplete (Sample.holding Sample.noLegalHeader))
       = Some d
       /\ passFlag d = Some false
       /\ detailText d = Some (mismatchText Financial)
       /\ detailText d <> Some (mismatchText LegalRegulatory).
Proof.
  split; [reflexivity|]. eexists. split; [vm_compute; reflexivity|].
  split; [reflexivity|]. split; [reflexivity|].
  cbn [detailText]. intros H. injection H as H. vm_compute in H. discriminate.
Qed.



(** The pattern of the last question, unlike the other four, has no [\*?]
    after the colon: with bold headers, a placeholder left as the last
    answer counts as answered, while one left as the fourth answer does
    not. *)
Example bold_last_placeholder_is_answered :
  firstProblem (codeUnits Sample.boldLastBlank) = None
  /\ firstProblem (codeUnits Sample.boldFourthBlank)
     = Some (PatientSafety, Blank).
Proof. split; vm_compute; reflexivity. Qed.

(* ================================================================== *)
(** ** [hazardAnalysisComplete]: answers, blanks and markup *)
(* ================================================================== *)

Section Progress.

(** Past an answered question whose predecessors are answered, the next
    question is evaluated. *)
Lemma moves_on (issue : Issue) (q q' : Question) :
  nextQuestion q = Some q' ->
  (forall q0, In q0 (before q) -> verdict q0 (description issue) = Answered) ->
  verdict q (description issue) = Answered ->
  In (MatchDescription q') (traceOf (hazardAnalysisComplete issue)).
Proof.
  intros Hnext Hbefore Hans. rewrite hazardAnalysisComplete_outcome.
  destruct (firstProblem (description issue)) as [[q2 v]|] eqn:Hfirst.
  - destruct (firstProblem_some _ _ _ Hfirst) as (Hv & Hne & _).
    destruct q; try discriminate; injection Hnext as <-;
      destruct q2;
      try (exfalso; apply Hne; rewrite <- Hv;
           first [exact Hans | apply Hbefore; cbn; tauto]);
      destruct v; cbn; tauto.
  - destruct q; try discriminate; injection Hnext as <-; cbn; tauto.
Qed.

Lemma passes_when_answered (issue : Issue) :
  (forall q, verdict q (description issue) = Answered) ->
  hazardAnalysisComplete issue =
    ((map MatchDescription questions
      ++ [RemoveIssueAuditFailureComment issue (completionPassed issue)])%list,
     Some (completionPassed issue)).
Proof.
  intros H. rewrite hazardAnalysisComplete_outcome.
  apply firstProblem_none in H. now rewrite H.
Qed.

Lemma last_answered (issue : Issue) :
  (forall q0, In q0 (before CyberSecurity) ->
              verdict q0 (description issue) = Answered) ->
  verdict CyberSecurity (description issue) = Answered ->
  forall q, verdict q (description issue) = Answered.
Proof.
  intros Hbefore Hlast q. destruct q; try (apply Hbefore; cbn; tauto).
  exact Hlast.
Qed.

End Progress.

Section AnswerTheorems.

#[local] Open Scope list_scope.

(** Where a literal occurs once, at [k], it fails at every other place. *)
Lemma once_elsewhere (l d a b : jsstring) (k : nat) :
  occurrences l d = [k] -> d = a ++ b -> List.length a <> k ->
  prefixCI l b = false.
Proof. intros H ->. now apply occurrences_unique. Qed.

(** X10.  One of the first four questions counts as answered, and
    [hazardAnalysisComplete] goes on to evaluate the next question, when
    the header of the question occurs once, the name of the next header
    occurs once, and the text between them (which may open with the star
    of bold markup) is an answer that ends with a word character and
    holds no [<] before it, followed by non-word code units only, the
    questions before it being answered. *)
Theorem answered_question_moves_on
  (issue : Issue) (q q' : Question) (pre hdr u0 v nxt' tail : list N) (w : N)
  (Hnext : nextQuestion q = Some q')
  (Hdesc : description issue
           = pre ++ hdr ++ (u0 ++ [w]) ++ v ++ nxt' ++ tail)
  (Hhdr : sameCI hdr (headerText q))
  (Hw : isWord w = true)
  (Hlt : ~ In 60%N u0)
  (Hv : nonWord v = true)
  (Hnxt : sameCI nxt' (headerName q'))
  (Honce : occurrences (headerText q) (description issue) = [List.length pre])
  (Hnextonce : occurrences (headerName q') (description issue)
               = [List.length (pre ++ hdr ++ (u0 ++ [w]) ++ v)])
  (Hbefore : forall q0, In q0 (before q) ->
                        verdict q0 (description issue) = Answered) :
  verdict q (description issue) = Answered
  /\ In (MatchDescription q') (traceOf (hazardAnalysisComplete issue)).
Proof.
  assert (Hans : verdict q (description issue) = Answered).
  { (* the optional star, when it is there, is passed over *)
    assert (Hshape : exists st u1,
              u0 = st ++ u1
              /\ (st = [42%N]
                  \/ (st = [] /\ match u1 ++ [w] with
                                 | c :: _ => c <> 42%N
                                 | [] => True
                                 end))).
    { destruct u0 as [|c u0'].
      - exists [], []. split; [reflexivity|]. right. split; [reflexivity|].
        cbn [app]. intros ->. discriminate.
      - destruct (N.eqb_spec c 42) as [->|Hc].
        + exists [42%N], u0'. split; [reflexivity|]. now left.
        + exists [], (c :: u0'). split; [reflexivity|]. right.
          split; [reflexivity | exact Hc]. }
    destruct Hshape as (st & u1 & Hu0 & Hst).
    assert (Hd : description issue
                 = pre ++ hdr ++ st ++ ((u1 ++ [w]) ++ v) ++ nxt' ++ tail).
    { rewrite Hdesc, Hu0. now rewrite <- !app_assoc. }
    assert (Hlt1 : forall x, In x (u1 ++ [w]) -> x <> 60%N).
    { intros x Hx ->. apply in_app_or in Hx. destruct Hx as [Hx|[Hx|[]]].
      - apply Hlt. rewrite Hu0. apply in_or_app. now right.
      - subst w. discriminate. }
    assert (Hbody : forall t,
              hd_error (run (sliceBody (headerName q'))
                            (((u1 ++ [w]) ++ v) ++ nxt' ++ t) None)
              = Some (t, Some ((u1 ++ [w]) ++ closing v))).
    { intros t. rewrite <- app_assoc.
      apply body_word; try assumption;
        [|exact (header_head_word q' nxt' Hnxt)].
      intros a b Hab Ha Hb.
      assert (Hlen : List.length (headerName q')
                     <= List.length (b ++ v ++ nxt')).
      { rewrite <- (sameCI_length _ _ Hnxt), !length_app. lia. }
      replace (b ++ v ++ nxt' ++ t) with ((b ++ v ++ nxt') ++ t)
        by (now rewrite <- !app_assoc).
      rewrite (prefixCI_within _ _ t Hlen),
        <- (prefixCI_within _ _ tail Hlen).
      rewrite <- !app_assoc.
      apply (once_elsewhere _ _ (pre ++ hdr ++ st ++ a) _ _ Hnextonce).
      - rewrite Hd, Hab. now rewrite <- !app_assoc.
      - rewrite Hu0. rewrite !length_app.
        assert (Hl : List.length (u1 ++ [w]) = List.length (a ++ b))
          by now rewrite Hab.
        rewrite !length_app in Hl. cbn [List.length] in *.
        destruct b; [now elim Hb|]. cbn [List.length] in Hl. lia. }
    rewrite Hd in Honce |- *.
    rewrite (slice_verdict q q' pre hdr st ((u1 ++ [w]) ++ v) nxt' tail
               ((u1 ++ [w]) ++ closing v) Hnext Hhdr).
    - rewrite (yesNo_keeps_prefix u1 _ w Hlt1 (word_not_space w Hw)).
      rewrite (fillCheck_finds _ w); [reflexivity| |exact (word_not_space w Hw)].
      apply in_or_app. left. apply in_or_app. right. now left.
    - destruct u1; discriminate.
    - destruct Hst as [->|[-> Hc]]; [now left|right]. split; [reflexivity|].
      destruct (u1 ++ [w]) as [|c z] eqn:Hz; [now destruct u1|].
      exact Hc.
    - exact Hbody.
    - exact Honce. }
  split; [exact Hans|]. exact (moves_on issue q q' Hnext Hbefore Hans).
Qed.

(** X11.  [hazardAnalysisComplete] passes, having evaluated the five
    questions and cleared the failure comment, when the first four
    questions are answered, the header of the last question occurs once,
    and the text after it holds a word character with no [<] before it
    and with no "Engineer" starting at or before it: what follows that
    character, a signature for instance, does not matter. *)
Theorem answered_template_passes
  (issue : Issue) (pre hdr u0 rest : list N) (w : N)
  (Hdesc : description issue = pre ++ hdr ++ (u0 ++ [w]) ++ rest)
  (Hhdr : sameCI hdr (headerText CyberSecurity))
  (Hw : isWord w = true)
  (Hlt : ~ In 60%N u0)
  (Heng : forall k,
      In k (occurrences (codeUnits "Engineer") ((u0 ++ [w]) ++ rest)) ->
      List.length u0 < k)
  (Honce : occurrences (headerText CyberSecurity) (description issue)
           = [List.length pre])
  (Hbefore : forall q0, In q0 (before CyberSecurity) ->
                        verdict q0 (description issue) = Answered) :
  hazardAnalysisComplete issue =
    (map MatchDescription questions
     ++ [RemoveIssueAuditFailureComment issue (completionPassed issue)],
     Some (completionPassed issue)).
Proof.
  apply passes_when_answered, last_answered; [exact Hbefore|].
  rewrite Hdesc in Honce |- *.
  rewrite (cyber_verdict pre hdr _ Hhdr); [| |exact Honce].
  - rewrite (engineer_keeps_prefix u0 rest w Hw).
    + rewrite (yesNo_keeps_prefix u0 _ w); [| |exact (word_not_space w Hw)].
      * rewrite (fillCheck_finds _ w);
          [reflexivity| |exact (word_not_space w Hw)].
        apply in_or_app. left. apply in_or_app. right. now left.
      * intros x Hx ->. apply in_app_or in Hx. destruct Hx as [Hx|[Hx|[]]].
        -- now apply Hlt.
        -- subst w. discriminate.
    + intros a b Hab Hb.
      destruct (prefixCI (codeUnits "Engineer") (b ++ rest)) eqn:Hp;
        [|reflexivity].
      pose proof (occurrences_hit _ a _ Hp) as Hin.
      rewrite app_assoc, <- Hab in Hin. apply Heng in Hin.
      assert (Hl : List.length (u0 ++ [w]) = List.length (a ++ b))
        by now rewrite Hab.
      rewrite !length_app in Hl. cbn [List.length] in Hl.
      destruct b; [now elim Hb|]. cbn [List.length] in Hl. lia.
  - destruct u0; discriminate.
Qed.

(** The signature pattern fails on a star, white space and a text that
    does not open with "Engineer". *)
Lemma engineer_fails_at_star (gap y : jsstring) :
  allSpace gap = true ->
  match y with
  | [] => True
  | c :: _ => isSpace c = false /\ c <> 42%N
  end ->
  prefixCI (codeUnits "Engineer") y = false ->
  exec engineerRegex (42%N :: gap ++ y) = None.
Proof.
  intros Hgap Hy Heng.
  assert (Hspace : forall s t, allSpace s = true -> s <> [] ->
            prefixCI (codeUnits "Engineer") (s ++ t) = false).
  { intros s t Hs Hne. destruct s as [|c s]; [now elim Hne|].
    cbn [allSpace forallb] in Hs. apply andb_true_iff in Hs.
    destruct Hs as [Hc _]. cbn [app].
    change (codeUnits "Engineer") with (69%N :: codeUnits "ngineer").
    cbn [prefixCI]. now rewrite (space_differ 69%N c eq_refl Hc). }
  assert (Hlit : forall t, gap ++ y = t \/ (exists p, gap ++ y = p ++ t
                                      /\ forallb isSpace p = true) ->
            prefixCI (codeUnits "Engineer") t = false).
  { intros t [<-|[p [Hp Hsp]]].
    - destruct gap as [|g gap']; [exact Heng|].
      now apply Hspace.
    - destruct y as [|c y'].
      + rewrite app_nil_r in Hp. rewrite Hp in Hgap.
        unfold allSpace in Hgap. rewrite forallb_app in Hgap.
        apply andb_true_iff in Hgap. destruct Hgap as [_ Ht].
        destruct t as [|x t']; [reflexivity|].
        rewrite <- (app_nil_r (x :: t')). now apply Hspace.
      + destruct Hy as [Hc _].
        destruct (stops_at isSpace _ _ _ _ _ Hp Hsp Hc) as [s' [-> Hg]].
        destruct s' as [|x s'']; [exact Heng|].
        apply Hspace; [|discriminate].
        rewrite Hg in Hgap. unfold allSpace in Hgap.
        rewrite forallb_app in Hgap. now apply andb_true_iff in Hgap. }
  assert (Hhead : match gap ++ y with
                  | c :: _ => inCls (CChar 42%N) c = false
                  | [] => True
                  end).
  { destruct gap as [|g gap'].
    - destruct y as [|c y']; [exact I|]. destruct Hy as [_ Hc].
      cbn [app inCls]. exact (char_differs 42%N c eq_refl Hc).
    - cbn [allSpace forallb] in Hgap. apply andb_true_iff in Hgap.
      destruct Hgap as [Hg _]. cbn [app].
      exact (space_differ 42%N g eq_refl Hg). }
  unfold exec, engineerRegex. rewrite run_seq.
  change (chr "*") with (CChar 42%N).
  change (run (RStar (CChar 42%N)) (42%N :: gap ++ y) None)
    with (map (fun t => (t, @None (list N)))
              (star (CChar 42%N) (42%N :: gap ++ y))).
  assert (Hstar : star (CChar 42%N) (42%N :: gap ++ y)
                  = [gap ++ y; 42%N :: gap ++ y]).
  { change (star (CChar 42%N) (42%N :: gap ++ y))
      with (star (CChar 42%N) (gap ++ y) ++ [42%N :: gap ++ y]).
    destruct (gap ++ y) as [|c z]; [reflexivity|].
    cbn [star]. now rewrite Hhead. }
  rewrite Hstar. cbn [map flat_map fst snd]. rewrite app_nil_r.
  assert (Hrest : forall s,
            (forall t, In t (star CSpace s) ->
                       prefixCI (codeUnits "Engineer") t = false) ->
            run (RStar CSpace ;;; lit "Engineer" ;;; RPlus CAny) s None = []).
  { intros s Hs. rewrite run_seq.
    change (run (RStar CSpace) s None)
      with (map (fun t => (t, @None (list N))) (star CSpace s)).
    rewrite flat_map_map. apply flat_map_none. intros t Ht. cbn [fst snd].
    rewrite run_seq. unfold lit. cbn [run]. now rewrite (Hs t Ht). }
  assert (H1 : run (RStar CSpace ;;; lit "Engineer" ;;; RPlus CAny)
                   (gap ++ y) None = []).
  { apply Hrest. intros t Ht.
    destruct (star_suffix _ _ _ Ht) as [p [Hp Hsp]].
    apply Hlit. right. now exists p. }
  now rewrite H1.
Qed.

(** X14.  The pattern of the last question has no [\*?] after the
    colon.  When the header of the last question is followed at once by a
    star (the end of bold markup), then white space, then a text that does
    not open with white space, a star or "Engineer", the star stays in the
    answer and the question counts as answered whatever that text is, a
    placeholder included: with the first four questions answered,
    [hazardAnalysisComplete] passes. *)
Theorem starred_last_answer_passes
  (issue : Issue) (pre hdr gap y : list N)
  (Hdesc : description issue = pre ++ hdr ++ 42%N :: gap ++ y)
  (Hhdr : sameCI hdr (headerText CyberSecurity))
  (Hgap : allSpace gap = true)
  (Hy : match y with
        | [] => True
        | c :: _ => isSpace c = false /\ c <> 42%N
        end)
  (Heng : prefixCI (codeUnits "Engineer") y = false)
  (Honce : occurrences (headerText CyberSecurity) (description issue)
           = [List.length pre])
  (Hbefore : forall q0, In q0 (before CyberSecurity) ->
                        verdict q0 (description issue) = Answered) :
  hazardAnalysisComplete issue =
    (map MatchDescription questions
     ++ [RemoveIssueAuditFailureComment issue (completionPassed issue)],
     Some (completionPassed issue)).
Proof.
  apply passes_when_answered, last_answered; [exact Hbefore|].
  rewrite Hdesc in Honce |- *.
  rewrite (cyber_verdict pre hdr _ Hhdr); [|discriminate|exact Honce].
  assert (He : replaceEmpty engineerRegex (42%N :: gap ++ y)
               = 42%N :: replaceEmpty engineerRegex (gap ++ y)).
  { unfold replaceEmpty.
    rewrite (scan_miss engineerRegex 42%N _
               (engineer_fails_at_star gap y Hgap Hy Heng)).
    reflexivity. }
  rewrite He.
  assert (Hy' : forall z, replaceEmpty yesNoRegex (42%N :: z)
                          = 42%N :: replaceEmpty yesNoRegex z).
  { intros z. unfold replaceEmpty. rewrite (scan_miss yesNoRegex 42%N z);
      [reflexivity|].
    reflexivity. }
  rewrite Hy'.
  rewrite (fillCheck_finds _ 42%N); [reflexivity | now left | reflexivity].
Qed.

(** The failing outcome of [hazardAnalysisComplete] at a question that
    is left blank, or whose pattern finds nothing, after answered ones. *)
Lemma blank_outcome (issue : Issue) (q : Question) :
  (forall q0, In q0 (before q) -> verdict q0 (description issue) = Answered) ->
  verdict q (description issue) = Blank ->
  hazardAnalysisComplete issue =
    (map MatchDescription (upTo q)
     ++ [PostIssueAuditFailureComment issue
           (completionFailure issue (unansweredText q)) (Some true)],
     Some (completionFailure issue (unansweredText q))).
Proof.
  intros Hbefore Hblank. rewrite hazardAnalysisComplete_outcome.
  rewrite (firstProblem_at (description issue) q Blank Hbefore Hblank);
    [reflexivity | discriminate].
Qed.

Lemma mismatch_outcome (issue : Issue) (q : Question) :
  (forall q0, In q0 (before q) -> verdict q0 (description issue) = Answered) ->
  verdict q (description issue) = NoMatch ->
  hazardAnalysisComplete issue =
    (map MatchDescription (upTo q),
     Some (completionFailure issue (mismatchText q))).
Proof.
  intros Hbefore Hno. rewrite hazardAnalysisComplete_outcome.
  rewrite (firstProblem_at (description issue) q NoMatch Hbefore Hno);
    [reflexivity | discriminate].
Qed.

Lemma blank_of_space (cap : jsstring) :
  allSpace cap = true ->
  (if test fillCheckRegex (replaceEmpty yesNoRegex cap)
   then Answered else Blank) = Blank.
Proof.
  intros H. now rewrite (fillCheck_allSpace _ (replaceEmpty_allSpace _ _ H)).
Qed.

(** X12.  An answer that is white space only is unanswered, like a
    placeholder: where the header of [q] occurs once and is followed by
    white space (at least one code unit) and then by the next header, or,
    after the last question, by the end of the text or a signature,
    [hazardAnalysisComplete] fails with the must-be-answered text of [q]
    and posts it, the questions before [q] being answered.  The first four
    patterns tolerate bold markup around the white space. *)
Theorem whitespace_answer_unanswered
  (issue : Issue) (q : Question) (pre hdr st ws v rest : list N)
  (Hdesc : description issue = pre ++ hdr ++ st ++ ws ++ v ++ rest)
  (Hhdr : sameCI hdr (headerText q))
  (Hws : allSpace ws = true)
  (Hsome : ws <> [])
  (Hmarkup : markup q st v)
  (Hend : sectionEnd q rest)
  (Honce : occurrences (headerText q) (description issue) = [List.length pre])
  (Hbefore : forall q0, In q0 (before q) ->
                        verdict q0 (description issue) = Answered) :
  hazardAnalysisComplete issue =
    (map MatchDescription (upTo q)
     ++ [PostIssueAuditFailureComment issue
           (completionFailure issue (unansweredText q)) (Some true)],
     Some (completionFailure issue (unansweredText q))).
Proof.
  apply blank_outcome; [exact Hbefore|].
  rewrite Hdesc in Honce |- *. unfold sectionEnd in Hend.
  unfold markup in Hmarkup.
  destruct ws as [|c ws']; [now elim Hsome|].
  cbn [allSpace forallb] in Hws. apply andb_true_iff in Hws.
  destruct Hws as [Hc Hws'].
  destruct (nextQuestion q) as [q'|] eqn:Hnext.
  - destruct Hmarkup as (Hst & Hv & Hgt).
    destruct Hend as (nxt' & tail & -> & Hnxt).
    assert (HV : nonWord (ws' ++ v) = true).
    { unfold nonWord. rewrite forallb_app.
      rewrite (allSpace_nonword ws' Hws'). exact Hv. }
    assert (Hclose : closing (ws' ++ v) = []).
    { unfold closing. destruct ws' as [|x ws''].
      - cbn [app]. destruct v as [|y v']; [reflexivity|].
        destruct (N.eqb_spec y 62) as [->|_]; [now elim Hgt | reflexivity].
      - cbn [app]. cbn [allSpace forallb] in Hws'.
        apply andb_true_iff in Hws'. destruct Hws' as [Hx _].
        destruct (N.eqb_spec x 62) as [->|_]; [discriminate | reflexivity]. }
    assert (Hbody : forall t,
              hd_error (run (sliceBody (headerName q'))
                            (([c] ++ ws' ++ v) ++ nxt' ++ t) None)
              = Some (t, Some [c])).
    { intros t. rewrite <- app_assoc.
      rewrite (body_first (headerName q') [c] (ws' ++ v) nxt' t);
        [now rewrite Hclose| discriminate | intros s [] | exact HV
        | exact Hnxt | exact (header_head_word q' nxt' Hnxt)]. }
    replace (pre ++ hdr ++ st ++ (c :: ws') ++ v ++ nxt' ++ tail)
      with (pre ++ hdr ++ st ++ ([c] ++ ws' ++ v) ++ nxt' ++ tail) in *
      by (cbn [app]; now rewrite <- !app_assoc).
    rewrite (slice_verdict q q' pre hdr st ([c] ++ ws' ++ v) nxt' tail [c]
               Hnext Hhdr); [| discriminate | | exact Hbody | exact Honce].
    + apply blank_of_space. cbn [allSpace forallb]. now rewrite Hc.
    + destruct Hst as [->| ->]; [right|now left]. split; [reflexivity|].
      cbn [app]. intros ->. discriminate.
  - destruct Hmarkup as [-> ->]. destruct q; try discriminate.
    cbn [app] in *.
    rewrite (cyber_verdict pre hdr _ Hhdr); [|discriminate|exact Honce].
    apply blank_of_space.
    assert (Hall : allSpace (c :: ws') = true)
      by (cbn [allSpace forallb]; now rewrite Hc).
    destruct Hend as [->|Hsig].
    + rewrite app_nil_r. now apply replaceEmpty_allSpace.
    + destruct (scan_until_end engineerRegex (c :: ws') rest engineer_to_end
                  engineer_nil (engineer_on_signature rest Hsig))
        as (k & k' & Hk & Hr).
      { destruct Hsig as (stars & gap & word & more & -> & _ & _ & _ & Hm).
        destruct more; [now elim Hm|].
        destruct stars, gap, word; discriminate. }
      change (c :: ws' ++ rest) with ((c :: ws') ++ rest). rewrite Hr.
      rewrite Hk in Hall. unfold allSpace in *. rewrite forallb_app in Hall.
      now apply andb_true_iff in Hall.
Qed.

(** X13.  A placeholder left as the answer of one of the first four
    questions is unanswered in a template with bold markup as well: a star
    may follow the colon of the header, and non-word code units (the star
    that opens the next bold header, punctuation, white space) may stand
    between the placeholder and the name of the next header. *)
Theorem marked_up_placeholder_unanswered
  (issue : Issue) (q q' : Question) (pre hdr st ws ph v nxt' tail : list N)
  (Hnext : nextQuestion q = Some q')
  (Hdesc : description issue
           = pre ++ hdr ++ st ++ ws ++ ph ++ v ++ nxt' ++ tail)
  (Hhdr : sameCI hdr (headerText q))
  (Hst : optionalStar st)
  (Hws : allSpace ws = true)
  (Hph : isPlaceholder ph)
  (Hv : nonWord v = true)
  (Hnxt : sameCI nxt' (headerName q'))
  (Honce : occurrences (headerText q) (description issue) = [List.length pre])
  (Hbefore : forall q0, In q0 (before q) ->
                        verdict q0 (description issue) = Answered) :
  hazardAnalysisComplete issue =
    (map MatchDescription (upTo q)
     ++ [PostIssueAuditFailureComment issue
           (completionFailure issue (unansweredText q)) (Some true)],
     Some (completionFailure issue (unansweredText q))).
Proof.
  apply blank_outcome; [exact Hbefore|].
  rewrite Hdesc in Honce |- *.
  destruct (placeholder_facts ph Hph) as (body & w & Hshape & Hw & Hclash & _).
  set (u0 := ws ++ 60%N :: body).
  assert (Hu : ws ++ ph = (u0 ++ [w]) ++ [62%N]).
  { unfold u0. rewrite Hshape. rewrite <- !app_assoc. reflexivity. }
  assert (Hx : ws ++ ph ++ v = (u0 ++ [w]) ++ 62%N :: v).
  { rewrite app_assoc, Hu. now rewrite <- app_assoc. }
  assert (Hbody : forall t,
            hd_error (run (sliceBody (headerName q'))
                          (((u0 ++ [w]) ++ 62%N :: v) ++ nxt' ++ t) None)
            = Some (t, Some (ws ++ ph))).
  { intros t. rewrite <- app_assoc.
    rewrite (body_word (headerName q') u0 (62%N :: v) nxt' t w Hw).
    - cbn [closing N.eqb Pos.eqb]. now rewrite Hu.
    - intros a b Hab _ Hb.
      apply (suffixesClash_spec (headerName q') (u0 ++ [w]) a b); try assumption.
      unfold u0. rewrite <- app_assoc.
      apply suffixesClash_spaces_header; [exact Hws|]. apply Hclash.
    - unfold nonWord in *. cbn [forallb]. now rewrite Hv.
    - exact Hnxt.
    - exact (header_head_word q' nxt' Hnxt). }
  replace (pre ++ hdr ++ st ++ ws ++ ph ++ v ++ nxt' ++ tail)
    with (pre ++ hdr ++ st ++ ((u0 ++ [w]) ++ 62%N :: v) ++ nxt' ++ tail) in *
    by (rewrite <- Hx; now rewrite <- !app_assoc).
  rewrite (slice_verdict q q' pre hdr st ((u0 ++ [w]) ++ 62%N :: v) nxt' tail
             (ws ++ ph) Hnext Hhdr); [| | | exact Hbody | exact Honce].
  - rewrite (fillCheck_allSpace); [reflexivity|].
    rewrite <- (app_nil_r (ws ++ ph)), <- app_assoc.
    now apply yesNo_blank.
  - destruct u0; discriminate.
  - destruct Hst as [->| ->]; [right|now left]. split; [reflexivity|].
    unfold u0. destruct ws as [|c ws']; cbn [app].
    + intros H. discriminate.
    + cbn [allSpace forallb] in Hws. apply andb_true_iff in Hws.
      destruct Hws as [Hc _]. intros ->. discriminate.
Qed.

(** X15.  An answer deleted together with all the white space around it
    is reported as a template mismatch, not as an unanswered question:
    where the header of [q] occurs once and is followed at once by the
    name of the next header (which occurs nowhere else), or, for the last
    question, by the end of the text, [hazardAnalysisComplete] fails with
    the template-mismatch text of [q], evaluates no later question and
    posts no comment, the questions before [q] being answered. *)
Theorem deleted_answer_is_mismatch
  (issue : Issue) (q : Question) (pre hdr rest : list N)
  (Hdesc : description issue = pre ++ hdr ++ rest)
  (Hhdr : sameCI hdr (headerText q))
  (Hrest : nothingAfter q (pre ++ hdr) rest (description issue))
  (Honce : occurrences (headerText q) (description issue) = [List.length pre])
  (Hbefore : forall q0, In q0 (before q) ->
                        verdict q0 (description issue) = Answered) :
  hazardAnalysisComplete issue =
    (map MatchDescription (upTo q),
     Some (completionFailure issue (mismatchText q))).
Proof.
  apply mismatch_outcome; [exact Hbefore|].
  assert (Hhere : exec (questionRegex q) (hdr ++ rest) = None).
  { unfold nothingAfter in Hrest.
    destruct (nextQuestion q) as [q'|] eqn:Hnext.
    - destruct Hrest as (nxt' & tail & -> & Hnxt & Hnextonce).
      rewrite (questionRegex_slice q q' Hnext).
      unfold exec. rewrite sliceRegex_body, run_seq.
      change (run (RLit (headerText q)) (hdr ++ nxt' ++ tail) None)
        with (if prefixCI (headerText q) (hdr ++ nxt' ++ tail)
              then [(skipn (List.length (headerText q)) (hdr ++ nxt' ++ tail),
                     @None (list N))]
              else []).
      rewrite (prefixCI_same _ hdr _ Hhdr), (skipn_same _ hdr _ Hhdr).
      cbn [flat_map fst snd]. rewrite app_nil_r, run_seq.
      pose proof (header_head_word q' nxt' Hnxt) as Hhead.
      assert (Hopt : run (ROpt (CChar 42%N)) (nxt' ++ tail) None
                     = [(nxt' ++ tail, None)]).
      { destruct nxt' as [|x nxt'']; [destruct Hhead|]. cbn [app run].
        now rewrite (word_not_star x Hhead). }
      rewrite Hopt. cbn [flat_map fst snd]. rewrite app_nil_r.
      unfold sliceBody. change (chr ">") with (CChar 62%N).
      rewrite slice_body, flat_map_none; [reflexivity|].
      intros t Ht. destruct (plusLazy_suffix _ _ Ht) as [p [Hp Hpne]].
      unfold afterLazy. apply flat_map_none. intros [t0 c0] H0.
      cbn [fst snd].
      destruct (run_suffix _ _ _ _ _ H0) as [p0 ->].
      apply (requires_fails (headerName q')).
      { apply RequiresSeqR.
        exact (eq_rect _ (fun x => Requires (headerName q') (RLit x))
                 (RequiresLit (headerName q') []) _
                 (app_nil_r (headerName q'))). }
      intros a b ->.
      apply (once_elsewhere _ _ (pre ++ hdr ++ p ++ p0 ++ a) _ _ Hnextonce).
      + rewrite Hdesc, Hp. now rewrite <- !app_assoc.
      + rewrite !length_app. destruct p; [now elim Hpne|].
        cbn [List.length]. lia.
    - subst rest. destruct q; try discriminate.
      unfold exec.
      change (questionRegex CyberSecurity)
        with (RLit (headerText CyberSecurity) ;;; RGroup (RPlus CAny)).
      rewrite run_seq.
      change (run (RLit (headerText CyberSecurity)) (hdr ++ []) None)
        with (if prefixCI (headerText CyberSecurity) (hdr ++ [])
              then [(skipn (List.length (headerText CyberSecurity))
                           (hdr ++ []),
                     @None (list N))]
              else []).
      rewrite (prefixCI_same _ hdr _ Hhdr), (skipn_same _ hdr _ Hhdr).
      reflexivity. }
  unfold verdict, jsMatch.
  rewrite scan_all_missed; [now rewrite hits_keep|].
  intros a b Hab.
  destruct (Nat.eq_dec (List.length a) (List.length pre)) as [Heq|Hneq].
  - rewrite Hdesc in Hab.
    destruct (app_same_length _ _ _ _ Hab Heq) as [_ ->].
    exact Hhere.
  - assert (Hq : exists r, questionRegex q = RLit (headerText q) ;;; r)
      by (destruct q; eexists; reflexivity).
    destruct Hq as [r ->]. apply exec_header_fails.
    exact (once_elsewhere _ _ a b _ Honce Hab Hneq).
Qed.

End AnswerTheorems.

(** X16.  [hazardAnalysisComplete] does not see the letter case of the
    description.  For two descriptions that differ in the case of ASCII
    letters only, every question gets the same verdict, and the two results
    have the same pass flag and the same text; the same questions are
    evaluated, and a failure comment is posted for the one iff it is posted
    for the other. *)
Theorem letter_case_is_ignored (issue issue' : Issue)
  (Hsame : sameCI (description issue) (description issue')) :
  (forall q, verdict q (description issue) = verdict q (description issue'))
  /\ exists d d',
       resultOf (hazardAnalysisComplete issue) = Some d
       /\ resultOf (hazardAnalysisComplete issue') = Some d'
       /\ passFlag d = passFlag d'
       /\ detailText d = detailText d'
       /\ map isPost (traceOf (hazardAnalysisComplete issue))
          = map isPost (traceOf (hazardAnalysisComplete issue'))
       /\ filter isMatch (traceOf (hazardAnalysisComplete issue))
          = filter isMatch (traceOf (hazardAnalysisComplete issue')).
Proof.
  assert (Hv : forall q, verdict q (description issue)
                         = verdict q (description issue'))
    by (intros q; now apply verdict_sameCI).
  split; [exact Hv|].
  rewrite !hazardAnalysisComplete_outcome.
  assert (Hf : firstProblem (description issue)
               = firstProblem (description issue')).
  { unfold firstProblem, questions. cbn [map]. now rewrite !Hv. }
  rewrite Hf.
  destruct (firstProblem (description issue')) as [[q v]|];
    [destruct v|]; cbn [completionOutcome]; do 2 eexists;
    (split; [reflexivity|]); (split; [reflexivity|]);
    (split; [reflexivity|]); (split; [reflexivity|]);
    cbn [traceOf fst]; rewrite ?map_app, ?filter_app, ?filter_isMatch;
    try (split; reflexivity).
  all: split; [|reflexivity].
  all: rewrite !map_map; reflexivity.
Qed.

(* ================================================================== *)
(** ** The statements on the sample tracker *)
(* ================================================================== *)

Lemma missing_header_reported_witness :
  hazardAnalysisComplete (Sample.holding Sample.noDataHeader) =
    (map MatchDescription (upTo LegalRegulatory),
     Some (completionFailure (Sample.holding Sample.noDataHeader)
                             (mismatchText LegalRegulatory))).
Proof.
  apply (missing_header_reported (Sample.holding Sample.noDataHeader)
                                 DataIntegrity).
  - vm_compute. reflexivity.
  - intros q' [<-|[]]. vm_compute. reflexivity.
Defined.


Lemma single_link_run_never_settles_witness :
  resultOf (runHazardAnalysisAudits
              (Sample.tracker (Some Sample.subTaskOneLink)) Sample.story)
  = None
  /\ traceOf (runHazardAnalysisAudits
                (Sample.tracker (Some Sample.subTaskOneLink)) Sample.story) =
       [RemoveIssueAuditFailureComment Sample.story
          (subTaskPresent Sample.story);
        RemoveIssueAuditFailureComment Sample.subTaskOneLink
          (noWorkNeededFresh Sample.subTaskOneLink)]
  /\ existsb isLaterCheck
       (traceOf (runHazardAnalysisAudits
                   (Sample.tracker (Some Sample.subTaskOneLink))
                   Sample.story)) = false
  /\ existsb isPost
       (traceOf (runHazardAnalysisAudits
                   (Sample.tracker (Some Sample.subTaskOneLink))
                   Sample.story)) = false.
Proof.
  apply (single_link_run_never_settles
           (Sample.tracker (Some Sample.subTaskOneLink)) Sample.story
           Sample.subTaskOneLink (Sample.hazardLink "HA-7")).
  - reflexivity.
  - reflexivity.
  - reflexivity.
  - reflexivity.
  - reflexivity.
Defined.

Lemma ambiguous_links_run_never_settles_witness :
  resultOf (runHazardAnalysisAudits
              (Sample.tracker (Some Sample.subTaskTwoLinks)) Sample.story)
  = None
  /\ traceOf (runHazardAnalysisAudits
                (Sample.tracker (Some Sample.subTaskTwoLinks)) Sample.story) =
       [RemoveIssueAuditFailureComment Sample.story
          (subTaskPresent Sample.story);
        RemoveIssueAuditFailureComment Sample.subTaskTwoLinks
          (noWorkNeededFresh Sample.subTaskTwoLinks)]
  /\ existsb isHandle
       (traceOf (runHazardAnalysisAudits
                   (Sample.tracker (Some Sample.subTaskTwoLinks))
                   Sample.story)) = false
  /\ existsb isAfterLinkCheck
       (traceOf (runHazardAnalysisAudits
                   (Sample.tracker (Some Sample.subTaskTwoLinks))
                   Sample.story)) = false.
Proof.
  apply (ambiguous_links_run_never_settles
           (Sample.tracker (Some Sample.subTaskTwoLinks)) Sample.story
           Sample.subTaskTwoLinks).
  - reflexivity.
  - reflexivity.
  - reflexivity.
  - reflexivity.
  - vm_compute. lia.
Defined.

Lemma no_work_needed_validation_witness :
  (resultOf (isNoWorkNeededResolutionValid (Sample.tracker None)
               Sample.storyNoWork Sample.subTaskNoWork) = Some None
   <-> issueHasNoWorkNeededResolution (Sample.tracker None)
         Sample.subTaskNoWork = false)
  /\ (issueHasNoWorkNeededResolution (Sample.tracker None)
        Sample.subTaskNoWork = true ->
      exists d,
        resultOf (isNoWorkNeededResolutionValid (Sample.tracker None)
                    Sample.storyNoWork Sample.subTaskNoWork)
        = Some (Some d)
        /\ passFlag d = Some (issueHasNoWorkNeededResolution
                                (Sample.tracker None) Sample.storyNoWork)
        /\ detailText d <> None
        /\ auditPassing d = issueHasNoWorkNeededResolution
                              (Sample.tracker None) Sample.storyNoWork).
Proof.
  apply (no_work_needed_validation (Sample.tracker None)
           Sample.storyNoWork Sample.subTaskNoWork).
  intros i. simpl. destruct (resolution i); [discriminate | discriminate].
Defined.

Lemma grandfathered_issue_passes_witness :
  exists r,
    runHazardAnalysisAudits (Sample.tracker None) Sample.oldStory
    = ([], Some r)
    /\ passFlag r = Some true
    /\ detailText r =
         Some "This audit is being ignored since the issue was resolved prior to the audit introduction date of April 22nd, 2019"
    /\ auditResults r = []
    /\ auditPassing r = true.
Proof.
  apply (grandfathered_issue_passes (Sample.tracker None) Sample.oldStory
                                    1555891199999%Z).
  - reflexivity.
  - reflexivity.
Defined.

Lemma missing_subtask_fails_witness :
  exists failed text,
    failed = MkAuditDetails "Issue Requires A Hazard Analysis Sub-Task"
                            Sample.story (Some false) (Some text) []
    /\ contains templateLink text = true
    /\ runHazardAnalysisAudits (Sample.tracker None) Sample.story =
         ([PostIssueAuditFailureComment Sample.story failed None],
          Some (MkAuditDetails "Hazard Analysis Sub-Task Audit" Sample.story
                               None None [failed]))
    /\ auditPassing (MkAuditDetails "Hazard Analysis Sub-Task Audit"
                                    Sample.story None None [failed]) = false
    /\ existsb isLaterCheck
         (traceOf (runHazardAnalysisAudits (Sample.tracker None) Sample.story))
       = false.
Proof.
  apply (missing_subtask_fails (Sample.tracker None) Sample.story).
  - reflexivity.
  - reflexivity.
  - reflexivity.
Defined.


Lemma completion_failure_comments_witness :
  (hazardAnalysisComplete (Sample.holding Sample.noLegalHeader) =
     (map MatchDescription (upTo Financial),
      Some (completionFailure (Sample.holding Sample.noLegalHeader)
                              (mismatchText Financial)))
   /\ existsb isPost
        (traceOf (hazardAnalysisComplete (Sample.holding Sample.noLegalHeader)))
      = false)
  /\
  hazardAnalysisComplete (Sample.holding Sample.financialBlank) =
    ((map MatchDescription (upTo Financial)
      ++ [PostIssueAuditFailureComment (Sample.holding Sample.financialBlank)
            (completionFailure (Sample.holding Sample.financialBlank)
                               (unansweredText Financial))
            (Some true)])%list,
     Some (completionFailure (Sample.holding Sample.financialBlank)
                             (unansweredText Financial))).
Proof.
  split.
  - apply (proj1 (completion_failure_comments
                    (Sample.holding Sample.noLegalHeader) Financial)).
    vm_compute. reflexivity.
  - apply (proj2 (completion_failure_comments
                    (Sample.holding Sample.financialBlank) Financial)).
    vm_compute. reflexivity.
Defined.

(* ================================================================== *)
(** ** The other branches and answers on the sample tracker *)
(* ================================================================== *)

Lemma ignored_issue_is_cleansed_witness :
  runHazardAnalysisAudits (Sample.tracker (Some Sample.subTask))
                          Sample.ignoredStory =
    ([HandlePassFailAuditResults Sample.subTask
        (cleansed Sample.ignoredStory)],
     Some (MkAuditDetails "Hazard Analysis Sub-Task Audit" Sample.subTask
                          None (Some "Audit ignored") []))
  /\ auditPassing (MkAuditDetails "Hazard Analysis Sub-Task Audit"
                                  Sample.subTask None (Some "Audit ignored")
                                  []) = true.
Proof.
  apply (ignored_issue_is_cleansed (Sample.tracker (Some Sample.subTask))
                                   Sample.ignoredStory).
  - reflexivity.
  - reflexivity.
Defined.

Lemma no_work_needed_ends_run_witness :
  exists validation,
    auditName validation
    = "Hazard Analysis No Work Needed Resolution Validation"
    /\ auditIssue validation = Sample.subTaskNoWork
    /\ passFlag validation = Some false
    /\ runHazardAnalysisAudits (Sample.tracker (Some Sample.subTaskNoWork))
                               Sample.story =
         ([RemoveIssueAuditFailureComment Sample.story
             (subTaskPresent Sample.story);
           PostIssueAuditFailureComment Sample.subTaskNoWork validation None;
           HandlePassFailAuditResults Sample.subTaskNoWork
             (aggregateOf Sample.subTaskNoWork
                          [subTaskPresent Sample.story; validation])],
          Some (aggregateOf Sample.subTaskNoWork
                            [subTaskPresent Sample.story; validation]))
    /\ auditPassing (aggregateOf Sample.subTaskNoWork
                                 [subTaskPresent Sample.story; validation])
       = false
    /\ existsb isLaterCheck
         (traceOf (runHazardAnalysisAudits
                     (Sample.tracker (Some Sample.subTaskNoWork))
                     Sample.story))
       = false.
Proof.
  apply (no_work_needed_ends_run
           (Sample.tracker (Some Sample.subTaskNoWork)) Sample.story
           Sample.subTaskNoWork "No Work Needed").
  - reflexivity.
  - reflexivity.
  - reflexivity.
  - reflexivity.
  - reflexivity.
  - simpl. discriminate.
Defined.

Lemma direct_run_collects_checks_witness :
  exists tC completed tR reviewed aggregate,
    hazardAnalysisComplete Sample.subTask = (tC, Some completed)
    /\ hazardAnalysisReviewed (Sample.tracker (Some Sample.subTask))
                              Sample.subTask = (tR, Some reviewed)
    /\ aggregate =
         aggregateOf Sample.subTask
           ([subTaskPresent Sample.story;
             subTaskClosed (Sample.tracker (Some Sample.subTask))
                           Sample.subTask;
             isAssigneeIndicated (Sample.tracker (Some Sample.subTask))
                                 Sample.subTask;
             completed]
            ++ if auditPassing completed then [reviewed] else [])
    /\ runHazardAnalysisAudits (Sample.tracker (Some Sample.subTask))
                               Sample.story =
         (([RemoveIssueAuditFailureComment Sample.story
              (subTaskPresent Sample.story);
            RemoveIssueAuditFailureComment Sample.subTask
              (noWorkNeededFresh Sample.subTask);
            SubTaskClosed Sample.subTask;
            IsAssigneeIndicated Sample.subTask]
           ++ tC ++ (if auditPassing completed then tR else [])
           ++ [RemoveIssueAuditFailureCommentByName Sample.subTask
                 linkedAuditName;
               HandlePassFailAuditResults Sample.subTask aggregate])%list,
          Some aggregate)
    /\ existsb isLinkStep
         (traceOf (runHazardAnalysisAudits
                     (Sample.tracker (Some Sample.subTask)) Sample.story))
       = false
    /\ (auditPassing aggregate = true <->
        auditPassing (subTaskClosed (Sample.tracker (Some Sample.subTask))
                                    Sample.subTask) = true
        /\ auditPassing (isAssigneeIndicated
                           (Sample.tracker (Some Sample.subTask))
                           Sample.subTask) = true
        /\ auditPassing completed = true
        /\ auditPassing reviewed = true).
Proof.
  apply (direct_run_collects_checks (Sample.tracker (Some Sample.subTask))
                                    Sample.story Sample.subTask).
  - reflexivity.
  - reflexivity.
  - reflexivity.
  - reflexivity.
  - reflexivity.
Defined.

Lemma handler_receives_returned_aggregate_witness :
  exists aggregate,
    resultOf (runHazardAnalysisAudits
                (Sample.tracker (Some Sample.subTask)) Sample.story)
    = Some aggregate
    /\ auditName aggregate = "Hazard Analysis Sub-Task Audit"
    /\ auditIssue aggregate = Sample.subTask
    /\ exists before,
         traceOf (runHazardAnalysisAudits
                    (Sample.tracker (Some Sample.subTask)) Sample.story)
         = (before ++ [HandlePassFailAuditResults Sample.subTask aggregate])
           %list
         /\ existsb isHandle before = false.
Proof.
  eexists. split; [vm_compute; reflexivity|].
  apply (handler_receives_returned_aggregate
           (Sample.tracker (Some Sample.subTask)) Sample.story
           Sample.subTask).
  - reflexivity.
  - reflexivity.
  - reflexivity.
  - vm_compute. reflexivity.
Defined.


Lemma answered_question_moves_on_witness :
  verdict DataIntegrity (description (Sample.holding Sample.boldAnswered))
  = Answered
  /\ In (MatchDescription PatientSafety)
        (traceOf (hazardAnalysisComplete
                    (Sample.holding Sample.boldAnswered))).
Proof.
  apply (answered_question_moves_on
           (Sample.holding Sample.boldAnswered) DataIntegrity PatientSafety
           (codeUnits (Sample.lines ["*Financial:* No";
                                     "*Legal/Regulatory:* No"; "*"]))
           (codeUnits "Data Integrity:")
           (codeUnits "* N")
           (codeUnits (newline ++ "*"))
           (codeUnits "Patient Safety")
           (codeUnits (Sample.lines
                         [":* No";
                          "*CyberSecurity/Information Security:* No";
                          ""; "*Engineer:* J. Smith"]))
           111%N).
  - reflexivity.
  - vm_compute. reflexivity.
  - vm_compute. reflexivity.
  - reflexivity.
  - vm_compute. intros [H|[H|[H|[]]]]; discriminate.
  - vm_compute. reflexivity.
  - vm_compute. reflexivity.
  - vm_compute. reflexivity.
  - vm_compute. reflexivity.
  - intros q0 [<-|[<-|[]]]; vm_compute; reflexivity.
Defined.

Lemma answered_template_passes_witness :
  hazardAnalysisComplete (Sample.holding Sample.boldAnswered) =
    ((map MatchDescription questions
      ++ [RemoveIssueAuditFailureComment
            (Sample.holding Sample.boldAnswered)
            (completionPassed (Sample.holding Sample.boldAnswered))])%list,
     Some (completionPassed (Sample.holding Sample.boldAnswered))).
Proof.
  apply (answered_template_passes
           (Sample.holding Sample.boldAnswered)
           (codeUnits (Sample.lines ["*Financial:* No";
                                     "*Legal/Regulatory:* No";
                                     "*Data Integrity:* No";
                                     "*Patient Safety:* No"; "*"]))
           (codeUnits "CyberSecurity/Information Security:")
           (codeUnits "* N")
           (codeUnits (newline ++ newline ++ "*Engineer:* J. Smith"))
           111%N).
  - vm_compute. reflexivity.
  - vm_compute. reflexivity.
  - reflexivity.
  - vm_compute. intros [H|[H|[H|[]]]]; discriminate.
  - intros k Hin. vm_compute in Hin. destruct Hin as [<-|[]].
    vm_compute. lia.
  - vm_compute. reflexivity.
  - intros q0 [<-|[<-|[<-|[<-|[]]]]]; vm_compute; reflexivity.
Defined.

Lemma whitespace_answer_unanswered_witness :
  hazardAnalysisComplete (Sample.holding Sample.boldThirdEmpty) =
    ((map MatchDescription (upTo DataIntegrity)
      ++ [PostIssueAuditFailureComment (Sample.holding Sample.boldThirdEmpty)
            (completionFailure (Sample.holding Sample.boldThirdEmpty)
                               (unansweredText DataIntegrity))
            (Some true)])%list,
     Some (completionFailure (Sample.holding Sample.boldThirdEmpty)
                             (unansweredText DataIntegrity))).
Proof.
  apply (whitespace_answer_unanswered
           (Sample.holding Sample.boldThirdEmpty) DataIntegrity
           (codeUnits (Sample.lines ["*Financial:* No";
                                     "*Legal/Regulatory:* No"; "*"]))
           (codeUnits "Data Integrity:")
           [42%N]
           (codeUnits (" " ++ newline))
           [42%N]
           (codeUnits (Sample.lines
                         ["Patient Safety:* No";
                          "*CyberSecurity/Information Security:* No";
                          ""; "*Engineer:* J. Smith"]))).
  - vm_compute. reflexivity.
  - vm_compute. reflexivity.
  - vm_compute. reflexivity.
  - discriminate.
  - split; [right; reflexivity | split; [reflexivity | discriminate]].
  - exists (codeUnits "Patient Safety").
    exists (codeUnits (Sample.lines
                         [":* No";
                          "*CyberSecurity/Information Security:* No";
                          ""; "*Engineer:* J. Smith"])).
    split; vm_compute; reflexivity.
  - vm_compute. reflexivity.
  - intros q0 [<-|[<-|[]]]; vm_compute; reflexivity.
Defined.

Lemma marked_up_placeholder_unanswered_witness :
  hazardAnalysisComplete (Sample.holding Sample.boldSecondBlank) =
    ((map MatchDescription (upTo LegalRegulatory)
      ++ [PostIssueAuditFailureComment (Sample.holding Sample.boldSecondBlank)
            (completionFailure (Sample.holding Sample.boldSecondBlank)
                               (unansweredText LegalRegulatory))
            (Some true)])%list,
     Some (completionFailure (Sample.holding Sample.boldSecondBlank)
                             (unansweredText LegalRegulatory))).
Proof.
  apply (marked_up_placeholder_unanswered
           (Sample.holding Sample.boldSecondBlank)
           LegalRegulatory DataIntegrity
           (codeUnits (Sample.lines ["*Financial:* No"; "*"]))
           (codeUnits "Legal/Regulatory:")
           [42%N]
           (codeUnits " ")
           (codeUnits "<yes/no>")
           (codeUnits (newline ++ "*"))
           (codeUnits "Data Integrity")
           (codeUnits (Sample.lines
                         [":* No"; "*Patient Safety:* No";
                          "*CyberSecurity/Information Security:* No";
                          ""; "*Engineer:* J. Smith"]))).
  - reflexivity.
  - vm_compute. reflexivity.
  - vm_compute. reflexivity.
  - right. reflexivity.
  - vm_compute. reflexivity.
  - left. vm_compute. reflexivity.
  - vm_compute. reflexivity.
  - vm_compute. reflexivity.
  - vm_compute. reflexivity.
  - intros q0 [<-|[]]. vm_compute. reflexivity.
Defined.

Lemma starred_last_answer_passes_witness :
  hazardAnalysisComplete (Sample.holding Sample.boldLastBlankSigned) =
    ((map MatchDescription questions
      ++ [RemoveIssueAuditFailureComment
            (Sample.holding Sample.boldLastBlankSigned)
            (completionPassed (Sample.holding Sample.boldLastBlankSigned))])
       %list,
     Some (completionPassed (Sample.holding Sample.boldLastBlankSigned))).
Proof.
  apply (starred_last_answer_passes
           (Sample.holding Sample.boldLastBlankSigned)
           (codeUnits (Sample.lines ["*Financial:* No";
                                     "*Legal/Regulatory:* No";
                                     "*Data Integrity:* No";
                                     "*Patient Safety:* No"; "*"]))
           (codeUnits "CyberSecurity/Information Security:")
           (codeUnits " ")
           (codeUnits ("<yes/no>" ++ newline ++ newline
                       ++ "*Engineer:* J. Smith"))).
  - vm_compute. reflexivity.
  - vm_compute. reflexivity.
  - vm_compute. reflexivity.
  - vm_compute. split; [reflexivity | discriminate].
  - vm_compute. reflexivity.
  - vm_compute. reflexivity.
  - intros q0 [<-|[<-|[<-|[<-|[]]]]]; vm_compute; reflexivity.
Defined.

Lemma deleted_answer_is_mismatch_witness :
  hazardAnalysisComplete (Sample.holding Sample.fourthDeleted) =
    (map MatchDescription (upTo PatientSafety),
     Some (completionFailure (Sample.holding Sample.fourthDeleted)
                             (mismatchText PatientSafety))).
Proof.
  apply (deleted_answer_is_mismatch
           (Sample.holding Sample.fourthDeleted) PatientSafety
           (codeUnits (Sample.lines ["Financial: No";
                                     "Legal/Regulatory: No";
                                     "Data Integrity: No"; ""]))
           (codeUnits "Patient Safety:")
           (codeUnits "CyberSecurity/Information Security: No")).
  - vm_compute. reflexivity.
  - vm_compute. reflexivity.
  - exists (codeUnits "CyberSecurity/Information Security").
    exists (codeUnits ": No").
    split; [|split]; vm_compute; reflexivity.
  - vm_compute. reflexivity.
  - intros q0 [<-|[<-|[<-|[]]]]; vm_compute; reflexivity.
Defined.

Lemma letter_case_is_ignored_witness :
  (forall q,
     verdict q (description (Sample.holding Sample.financialBlank))
     = verdict q (description (Sample.holding Sample.financialBlankUpper)))
  /\ exists d d',
       resultOf (hazardAnalysisComplete (Sample.holding Sample.financialBlank))
       = Some d
       /\ resultOf (hazardAnalysisComplete
                      (Sample.holding Sample.financialBlankUpper))
          = Some d'
       /\ passFlag d = passFlag d'
       /\ detailText d = detailText d'
       /\ map isPost (traceOf (hazardAnalysisComplete
                                 (Sample.holding Sample.financialBlank)))
          = map isPost (traceOf (hazardAnalysisComplete
                                   (Sample.holding
                                      Sample.financialBlankUpper)))
       /\ filter isMatch (traceOf (hazardAnalysisComplete
                                     (Sample.holding Sample.financialBlank)))
          = filter isMatch (traceOf (hazardAnalysisComplete
                                       (Sample.holding
                                          Sample.financialBlankUpper))).
Proof.
  apply (letter_case_is_ignored (Sample.holding Sample.financialBlank)
                                (Sample.holding Sample.financialBlankUpper)).
  vm_compute. reflexivity.
Defined.
